(** * generate_docs.py: the annotation parser, the renderers, the file filter
      and the version manifests

    A shallow embedding of [TACDocGenerator] (src/generate_docs.py).

    Python strings are lists of characters.  A character is a code point
    below 256 ([ascii]); the classes [\s], [\w] and [str.isspace] are the
    ones Python gives on that range.  Python's [re] is embedded as a small
    backtracking matcher with the priorities of the original (greedy and
    lazy repeats, alternatives tried left to right, leftmost match).
    Where a comment quotes a pattern of the source, a space keeps a star
    apart from a closing parenthesis that follows it. *)

From Stdlib Require Import String Ascii Bool Arith NArith Lia DecimalString
  List Sorted.
Import ListNotations.

Local Open Scope string_scope.
Local Open Scope nat_scope.
Local Open Scope bool_scope.
Local Open Scope list_scope.

(** ** Python [str] *)

Definition str := list ascii.

Coercion list_ascii_of_string : string >-> list.

Module PyStr.

Definition nl : ascii := "010"%char.
Definition tab : ascii := "009"%char.
Definition dq : ascii := "034"%char.
Definition sq : ascii := "039"%char.

(** [str.isspace] on one character, also the class [\s]. *)
Definition is_space (c : ascii) : bool :=
  let n := nat_of_ascii c in
  ((9 <=? n) && (n <=? 13)) || ((28 <=? n) && (n <=? 32))
  || (n =? 133) || (n =? 160).

(** The class [\w]. *)
Definition is_word (c : ascii) : bool :=
  let n := nat_of_ascii c in
  ((48 <=? n) && (n <=? 57)) || ((65 <=? n) && (n <=? 90)) || (n =? 95)
  || ((97 <=? n) && (n <=? 122))
  || (n =? 170) || (n =? 178) || (n =? 179) || (n =? 181) || (n =? 185)
  || (n =? 186) || ((188 <=? n) && (n <=? 190))
  || ((192 <=? n) && (n <=? 214)) || ((216 <=? n) && (n <=? 246))
  || (248 <=? n).

Definition str_eqb (a b : str) : bool :=
  if list_eq_dec ascii_dec a b then true else false.

(** [s.startswith(p)] *)
Fixpoint startswith (p s : str) : bool :=
  match p, s with
  | [], _ => true
  | _ :: _, [] => false
  | a :: p', c :: s' => Ascii.eqb a c && startswith p' s'
  end.

(** [sub in s] *)
Fixpoint contains (sub s : str) : bool :=
  startswith sub s ||
  match s with
  | [] => false
  | _ :: t => contains sub t
  end.

Fixpoint dropWhile {A} (p : A -> bool) (l : list A) : list A :=
  match l with
  | [] => []
  | x :: t => if p x then dropWhile p t else l
  end.

Fixpoint takeWhile {A} (p : A -> bool) (l : list A) : list A :=
  match l with
  | [] => []
  | x :: t => if p x then x :: takeWhile p t else []
  end.

Definition lstrip (s : str) : str := dropWhile is_space s.
Definition rstrip (s : str) : str := rev (dropWhile is_space (rev s)).
Definition strip (s : str) : str := rstrip (lstrip s).

(** [s.split(sep)] for a one-character separator. *)
Fixpoint split (sep : ascii) (s : str) : list str :=
  match s with
  | [] => [[]]
  | c :: t =>
      if Ascii.eqb c sep then [] :: split sep t
      else match split sep t with
           | l :: ls => (c :: l) :: ls
           | [] => [[c]]
           end
  end.

(** [sep.join(parts)] *)
Fixpoint join (sep : str) (parts : list str) : str :=
  match parts with
  | [] => []
  | [p] => p
  | p :: ps => p ++ sep ++ join sep ps
  end.

(** [s.replace(old, new)] for a non-empty [old]: occurrences are replaced
    left to right and do not overlap.  [skip] counts the characters of
    the occurrence just replaced that are still to be passed over. *)
Fixpoint replace_go (old new : str) (skip : nat) (s : str) : str :=
  match s with
  | [] => []
  | c :: t =>
      match skip with
      | S k => replace_go old new k t
      | 0 => if startswith old s
             then new ++ replace_go old new (length old - 1) t
             else c :: replace_go old new 0 t
      end
  end.

Definition replace (old new s : str) : str := replace_go old new 0 s.

(** [s.count(c)] for one character. *)
Definition count (c : ascii) (s : str) : nat :=
  length (filter (Ascii.eqb c) s).

(** [s[a:b]] for [0 <= a <= b]. *)
Definition slice (a b : nat) (s : str) : str := firstn (b - a) (skipn a s).

(** Truthiness of a string: [bool(s)]. *)
Definition truthy (s : str) : bool :=
  match s with [] => false | _ => true end.

(** Lexicographic order on code points, as [<] on Python strings. *)
Fixpoint str_ltb (a b : str) : bool :=
  match a, b with
  | _, [] => false
  | [], _ :: _ => true
  | x :: a', y :: b' =>
      if Ascii.ltb x y then true
      else if Ascii.eqb x y then str_ltb a' b' else false
  end.

End PyStr.

(** ** Python [re]: a backtracking matcher *)

Module Re.
Import PyStr.

Inductive regex : Type :=
| Eps
| Cls (p : ascii -> bool)
| Cat (r1 r2 : regex)
| Alt (r1 r2 : regex)
| Repeat (greedy : bool) (lo : nat) (hi : option nat) (r : regex)
| Group (i : nat) (r : regex)
| NotAhead (r : regex)
| Boundary.

(** The matcher's state: the characters already passed (last one first),
    the characters still ahead and the spans of the groups closed so far. *)
Record mstate : Type := MState {
  before : str;
  rest : str;
  caps : list (nat * (nat * nat))
}.

Definition pos (st : mstate) : nat := length (before st).

Definition advance (st : mstate) : option (ascii * mstate) :=
  match rest st with
  | [] => None
  | c :: t => Some (c, MState (c :: before st) t (caps st))
  end.

Definition set_cap (i a b : nat) (st : mstate) : mstate :=
  MState (before st) (rest st) ((i, (a, b)) :: caps st).

Definition head_is (p : ascii -> bool) (s : str) : bool :=
  match s with
  | [] => false
  | c :: _ => p c
  end.

Definition below (n : nat) (hi : option nat) : bool :=
  match hi with
  | None => true
  | Some h => n <? h
  end.

Definition orelse {A} (a : option A) (b : unit -> option A) : option A :=
  match a with
  | Some x => Some x
  | None => b tt
  end.

Definition cont : Type := mstate -> option mstate.

(** The loop of a repeat: [n] iterations of [body] are done; a greedy
    repeat first tries one more, a lazy one first tries to stop.  An
    iteration that matched without moving is not followed by another (as
    sre does).  [fuel] exceeds the number of characters ahead, and every
    further iteration has fewer of them. *)
Fixpoint rep_loop (body : mstate -> cont -> option mstate)
  (g : bool) (lo : nat) (hi : option nat) (k : cont)
  (fuel n : nat) (st : mstate) {struct fuel} : option mstate :=
  match fuel with
  | 0 => None
  | S fuel' =>
      let more := fun _ : unit =>
        if below n hi then
          body st (fun st' =>
            if length (rest st') <? length (rest st)
            then rep_loop body g lo hi k fuel' (S n) st'
            else k st')
        else None in
      let stop := fun _ : unit => if lo <=? n then k st else None in
      if g then orelse (more tt) stop else orelse (stop tt) more
  end.

(** [run r st k]: match [r] at [st], then the rest of the pattern [k];
    when [k] fails the next way of matching [r] is tried. *)
Fixpoint run (r : regex) (st : mstate) (k : cont) {struct r}
  : option mstate :=
  match r with
  | Eps => k st
  | Cls p =>
      match advance st with
      | Some (c, st') => if p c then k st' else None
      | None => None
      end
  | Cat a b => run a st (fun st' => run b st' k)
  | Alt a b => orelse (run a st k) (fun _ => run b st k)
  | Repeat g lo hi a =>
      rep_loop (run a) g lo hi k (S (length (rest st))) 0 st
  | Group i a => run a st (fun st' => k (set_cap i (pos st) (pos st') st'))
  | NotAhead a =>
      match run a st Some with
      | Some _ => None
      | None => k st
      end
  | Boundary =>
      if xorb (head_is is_word (before st)) (head_is is_word (rest st))
      then k st else None
  end.

(** A match object: [start()], [end()] and the group spans. *)
Record rmatch : Type := RMatch {
  m_start : nat;
  m_end : nat;
  m_caps : list (nat * (nat * nat))
}.

Fixpoint lookup_cap (i : nat) (l : list (nat * (nat * nat)))
  : option (nat * nat) :=
  match l with
  | [] => None
  | (j, sp) :: t => if i =? j then Some sp else lookup_cap i t
  end.

(** [m.group(i)] on the subject [s]; [None] when group [i] took no part. *)
Definition group (s : str) (m : rmatch) (i : nat) : option str :=
  match lookup_cap i (m_caps m) with
  | Some (a, b) => Some (slice a b s)
  | None => None
  end.

Definition match_at (r : regex) (pre : str) (s : str) : option rmatch :=
  match run r (MState pre s []) Some with
  | Some st => Some (RMatch (length pre) (pos st) (caps st))
  | None => None
  end.

(** [re.match(r, s)] *)
Definition re_match (r : regex) (s : str) : option rmatch := match_at r [] s.

Fixpoint search_from (r : regex) (pre : str) (s : str) : option rmatch :=
  match match_at r pre s with
  | Some m => Some m
  | None =>
      match s with
      | [] => None
      | c :: t => search_from r (c :: pre) t
      end
  end.

(** [re.search(r, s)] *)
Definition search (r : regex) (s : str) : option rmatch := search_from r [] s.

(** [re.finditer(r, s)] for a pattern that matches no empty string (all
    patterns iterated here): the scan resumes where the last match ends. *)
Fixpoint finditer_go (fuel : nat) (r : regex) (pre s : str) : list rmatch :=
  match fuel with
  | 0 => []
  | S fuel' =>
      match search_from r pre s with
      | None => []
      | Some m =>
          let n := Nat.max 1 (m_end m - length pre) in
          m :: finditer_go fuel' r (rev (firstn n s) ++ pre) (skipn n s)
      end
  end.

Definition finditer (r : regex) (s : str) : list rmatch :=
  finditer_go (S (length s)) r [] s.

(** [re.split(r, s)] for a pattern without groups. *)
Fixpoint split_at (ms : list rmatch) (from : nat) (s : str) : list str :=
  match ms with
  | [] => [skipn from s]
  | m :: ms' => slice from (m_start m) s :: split_at ms' (m_end m) s
  end.

Definition split (r : regex) (s : str) : list str :=
  split_at (finditer r s) 0 s.

(** Pattern syntax. *)
Definition only (c : ascii) : ascii -> bool := Ascii.eqb c.
Definition except (c : ascii) : ascii -> bool := fun x => negb (Ascii.eqb c x).
Definition chr (c : ascii) : regex := Cls (only c).

Fixpoint lit (s : str) : regex :=
  match s with
  | [] => Eps
  | [c] => chr c
  | c :: t => Cat (chr c) (lit t)
  end.

Fixpoint cat (rs : list regex) : regex :=
  match rs with
  | [] => Eps
  | [r] => r
  | r :: t => Cat r (cat t)
  end.

Definition star (r : regex) : regex := Repeat true 0 None r.
Definition plus (r : regex) : regex := Repeat true 1 None r.
Definition opt (r : regex) : regex := Repeat true 0 (Some 1) r.
Definition lazy_star (r : regex) : regex := Repeat false 0 None r.

(** [.] without and with DOTALL. *)
Definition dot : regex := Cls (except nl).
Definition dot_all : regex := Cls (fun _ => true).
Definition space : regex := Cls is_space.
Definition word : regex := Cls is_word.

(** The groups of a pattern; those of a lookahead are not kept. *)
Fixpoint groups (r : regex) : list nat :=
  match r with
  | Eps | Cls _ | Boundary | NotAhead _ => []
  | Cat a b | Alt a b => groups a ++ groups b
  | Repeat _ _ _ a => groups a
  | Group i a => i :: groups a
  end.

(** The subject string as seen from a state. *)
Definition subject (st : mstate) : str := rev (before st) ++ rest st.

(** [st'] comes after [st] in a match: the subject is the same, the
    position is further on, and the groups closed since are among
    [ids]. *)
Definition reaches (ids : list nat) (st st' : mstate) : Prop :=
  subject st' = subject st
  /\ (exists c, before st' = c ++ before st)
  /\ (exists new, caps st' = new ++ caps st
                  /\ Forall (fun e => In (fst e) ids) new).

(** The least number of characters a match of the pattern passes. *)
Fixpoint min_len (r : regex) : nat :=
  match r with
  | Eps | NotAhead _ | Boundary => 0
  | Cls _ => 1
  | Cat a b => min_len a + min_len b
  | Alt a b => Nat.min (min_len a) (min_len b)
  | Repeat _ lo _ a => if lo =? 0 then 0 else min_len a
  | Group _ a => min_len a
  end.

(** A way of matching that, when it succeeds, has handed to the rest of
    the pattern a state at least [n] characters further on. *)
Definition calls (ids : list nat) (n : nat)
  (body : mstate -> cont -> option mstate) : Prop :=
  forall st k sf, body st k = Some sf ->
    exists st', reaches ids st st' /\ pos st + n <= pos st'
                /\ k st' = Some sf.

(** [st'] is after [st] and the character [c] was passed in between. *)
Definition crossed (c : ascii) (st st' : mstate) : Prop :=
  exists w, before st' = w ++ before st /\ In c w.

End Re.

(** ** The module model *)

Record param : Type := Param {
  p_name : str;
  p_type : str;
  p_description : str
}.

Record func_info : Type := FuncInfo {
  f_name : str;
  f_params : list param;
  f_returns : str;
  f_description : str;
  f_line : nat
}.

Record module : Type := Module_ {
  name : str;
  filename : str;
  path : str;
  description : str;
  examples : list str;
  functions : list func_info;
  version : option str;
  author : option str;
  license : option str
}.

(** Truthiness of a field that is [None] or a string. *)
Definition given (o : option str) : bool :=
  match o with
  | Some s => PyStr.truthy s
  | None => false
  end.

(** ** [TACDocGenerator.parse_file] *)

Module Parser.
Import PyStr Re.

(** [--\[\[(.*?)\]\]] with DOTALL *)
Definition block_pattern : regex :=
  cat [lit "--[["; Group 1 (lazy_star dot_all); lit "]]"].

(** [@version\s+([^\n]+)], and the same for [@author] and [@license] *)
Definition tag_pattern (tag : str) : regex :=
  cat [lit tag; plus space; Group 1 (plus (Cls (except nl)))].

(** One letter of a pattern under IGNORECASE. *)
Definition upper (c : ascii) : ascii :=
  let n := nat_of_ascii c in
  if (97 <=? n) && (n <=? 122) then ascii_of_nat (n - 32) else c.

Definition either_case (c : ascii) : ascii -> bool :=
  fun x => Ascii.eqb c x || Ascii.eqb (upper c) x.

Definition lit_ci (s : str) : regex := cat (map (fun c => Cls (either_case c)) s).

Definition quote (c : ascii) : bool := Ascii.eqb c dq || Ascii.eqb c sq.

(** [version\s*=\s*Q([^Q]+)Q] with IGNORECASE, where Q is the class of
    the double and the single quote *)
Definition code_version_pattern : regex :=
  cat [lit_ci "version"; star space; chr "="; star space; Cls quote;
       Group 1 (plus (Cls (fun c => negb (quote c)))); Cls quote].

(** [@example\s*\n] *)
Definition example_split_pattern : regex :=
  cat [lit "@example"; star space; chr nl].

(** [((?:(?!@(?:module|author|version|license)\b).*\n?)* )] with
    MULTILINE and DOTALL *)
Definition example_text_pattern : regex :=
  Group 1
    (star (cat [NotAhead (cat [chr "@";
                               Alt (lit "module")
                                 (Alt (lit "author")
                                    (Alt (lit "version") (lit "license")));
                               Boundary]);
                star dot_all;
                opt (chr nl)])).

(** [---@usage\s*\n((?:---[^@].*?\n)+)] with MULTILINE *)
Definition usage_pattern : regex :=
  cat [lit "---@usage"; star space; chr nl;
       Group 1 (plus (cat [lit "---"; Cls (except "@"); lazy_star dot;
                           chr nl]))].

Definition blank (c : ascii) : bool := Ascii.eqb c " " || Ascii.eqb c tab.

Definition name_char (c : ascii) : bool :=
  is_word c || Ascii.eqb c "." || Ascii.eqb c ":".

(** [((?:[ \t]*---?.*?\n)+)(?:[ \t]*\n)*[ \t]*(local\s+)?function\s+([\w.:]+)\s*\((.*?)\)]
    with MULTILINE *)
Definition func_pattern : regex :=
  cat [Group 1 (plus (cat [star (Cls blank); lit "--"; opt (chr "-");
                           lazy_star dot; chr nl]));
       star (cat [star (Cls blank); chr nl]);
       star (Cls blank);
       opt (Group 2 (cat [lit "local"; plus space]));
       lit "function"; plus space;
       Group 3 (plus (Cls name_char));
       star space; chr "(";
       Group 4 (lazy_star dot);
       chr ")"].

(** [@param\s+(\w+\??)\s+(\S+)(?:\s+(.+))?] *)
Definition param_pattern : regex :=
  cat [lit "@param"; plus space;
       Group 1 (cat [plus word; opt (chr "?")]);
       plus space;
       Group 2 (plus (Cls (fun c => negb (is_space c))));
       opt (cat [plus space; Group 3 (plus dot)])].

(** [block_match.group(1)], when the file has a block comment. *)
Definition block_of (content : str) : option str :=
  match search block_pattern content with
  | Some m => group content m 1
  | None => None
  end.

(** [re.search] of the tag pattern in [block], then [.group(1).strip()] *)
Definition tag_value (tag block : str) : option str :=
  match search (tag_pattern tag) block with
  | Some m => option_map strip (group block m 1)
  | None => None
  end.

(** The loop of lines 59-69; [in_description] is the flag of the source,
    the result is [desc_lines]. *)
Fixpoint block_desc_lines (in_description : bool) (lines : list str)
  : list str :=
  match lines with
  | [] => []
  | l :: t =>
      let line := strip l in
      if negb in_description && truthy line && negb (startswith "@" line)
      then block_desc_lines true t
      else if in_description then
        if startswith "@" line then []
        else if truthy line then line :: block_desc_lines in_description t
        else block_desc_lines in_description t
      else block_desc_lines in_description t
  end.

(** Line 70: the description taken from the block comment. *)
Definition block_description (block : str) : str :=
  strip (join " " (block_desc_lines false (PyStr.split nl block))).

(** The loop of lines 81-89; [started] says that [desc_lines] is not
    empty. *)
Fixpoint line_desc_lines (started : bool) (lines : list str) : list str :=
  match lines with
  | [] => []
  | line :: t =>
      if startswith "---" line then
        let cleaned := strip (skipn 3 line) in
        if startswith "@" cleaned then []
        else if truthy cleaned then cleaned :: line_desc_lines true t
        else line_desc_lines started t
      else if started then []
      else line_desc_lines started t
  end.

Definition line_description (content : str) : str :=
  join " " (line_desc_lines false (PyStr.split nl content)).

(** Lines 35-90: the module description. *)
Definition parse_description (content : str) : str :=
  let d := match block_of content with
           | Some block => block_description block
           | None => []
           end in
  if truthy d then d else line_description content.

(** Lines 40-43 and 72-76: the module version.  [code_version] is the
    in-code fallback. *)
Definition code_version (content : str) : option str :=
  match search code_version_pattern content with
  | Some m => group content m 1
  | None => None
  end.

Definition block_version (content : str) : option str :=
  match block_of content with
  | Some block => tag_value "@version" block
  | None => None
  end.

Definition parse_version (content : str) : option str :=
  let v := block_version content in
  if given v then v
  else match code_version content with
       | Some c => Some c
       | None => v
       end.

Definition parse_author (content : str) : option str :=
  match block_of content with
  | Some block => tag_value "@author" block
  | None => None
  end.

Definition parse_license (content : str) : option str :=
  match block_of content with
  | Some block => tag_value "@license" block
  | None => None
  end.

(** *** Examples (lines 92-141) *)

(** [len(line) - len(line.lstrip())] *)
Definition indent (line : str) : nat := length line - length (lstrip line).

(** Lines 108-112; [None] is [float('inf')]. *)
Definition min_indent (lines : list str) : option nat :=
  fold_left
    (fun acc line =>
       if truthy (strip line)
       then Some (match acc with
                  | None => indent line
                  | Some a => Nat.min a (indent line)
                  end)
       else acc)
    lines None.

(** Lines 114-122 *)
Definition dedent (lines : list str) : list str :=
  match min_indent lines with
  | Some (S k) =>
      map (fun line =>
             if S k <=? length line then skipn (S k) line else line)
          lines
  | _ => lines
  end.

(** Lines 101-126 for one part of the split: the example it adds, if
    any. *)
Definition example_of_part (part : str) : option str :=
  match re_match example_text_pattern part with
  | Some m =>
      match group part m 1 with
      | Some example_text =>
          if truthy (strip example_text) then
            let result :=
              strip (join [nl] (dedent (PyStr.split nl example_text))) in
            if truthy result then Some result else None
          else None
      | None => None
      end
  | None => None
  end.

Fixpoint somes {A} (l : list (option A)) : list A :=
  match l with
  | [] => []
  | Some x :: t => x :: somes t
  | None :: t => somes t
  end.

(** Lines 93-126: the parts after the first, in order. *)
Definition block_examples (block : str) : list str :=
  somes (map example_of_part (tl (Re.split example_split_pattern block))).

(** Lines 133-139 for one line of a usage block. *)
Definition usage_line (line : str) : option str :=
  if startswith "---" line then
    let cleaned := skipn 3 line in
    let cleaned := if startswith " " cleaned then skipn 1 cleaned
                   else cleaned in
    if truthy cleaned && negb (startswith "@" (lstrip cleaned))
    then Some cleaned else None
  else None.

(** Lines 129-141 *)
Definition usage_examples (content : str) : list str :=
  somes
    (map (fun m =>
            match group content m 1 with
            | Some example_block =>
                match somes (map usage_line (PyStr.split nl example_block)) with
                | [] => None
                | example_lines => Some (join [nl] example_lines)
                end
            | None => None
            end)
         (finditer usage_pattern content)).

Definition parse_examples (content : str) : list str :=
  match block_of content with
  | Some block => block_examples block
  | None => []
  end ++ usage_examples content.

(** *** Functions (lines 143-190) *)

(** What [match.groups()] and [match.start()] give for one signature
    match. *)
Record signature : Type := Signature {
  doc_block : str;
  is_local : option str;
  func_name : str;
  params : str;
  start : nat
}.

Definition signature_of (content : str) (m : rmatch) : signature :=
  Signature (match group content m 1 with Some s => s | None => [] end)
            (group content m 2)
            (match group content m 3 with Some s => s | None => [] end)
            (match group content m 4 with Some s => s | None => [] end)
            (m_start m).

Definition signatures (content : str) : list signature :=
  map (signature_of content) (finditer func_pattern content).

(** Line 149: the first [continue]. *)
Definition local_bare (is_local : option str) (func_name : str) : bool :=
  given is_local && negb (contains "." func_name)
  && negb (contains ":" func_name).

(** Line 151: the second [continue]. *)
Definition underscored (func_name : str) : bool :=
  contains "_" func_name
  && (startswith "_" func_name || contains "._" func_name).

Definition skipped (is_local : option str) (func_name : str) : bool :=
  local_bare is_local func_name || underscored func_name.

(** Line 154 *)
Definition line_num (content : str) (start : nat) : nat :=
  count nl (firstn start content) + 1.

(** Lines 167-173: a comment line without its marker; [None] stands for
    [continue]. *)
Definition unmark (l : str) : option str :=
  let line := strip l in
  if startswith "---" line then Some (strip (skipn 3 line))
  else if startswith "--" line then Some (strip (skipn 2 line))
  else None.

(** Lines 176-182 *)
Definition param_of (line : str) : option param :=
  match re_match param_pattern line with
  | Some m =>
      Some (Param (match group line m 1 with Some s => s | None => [] end)
                  (match group line m 2 with Some s => s | None => [] end)
                  (match group line m 3 with
                   | Some s => if truthy s then s else []
                   | None => []
                   end))
  | None => None
  end.

(** Line 184 *)
Definition return_of (line : str) : str :=
  strip (replace "@return" [] line).

(** The state of the loop of lines 166-186. *)
Record doc_state : Type := DocState {
  d_params : list param;
  d_returns : str;
  d_desc_lines : list str
}.

Definition doc_step (st : doc_state) (l : str) : doc_state :=
  match unmark l with
  | None => st
  | Some line =>
      if startswith "@param" line then
        match param_of line with
        | Some p => DocState (d_params st ++ [p]) (d_returns st)
                             (d_desc_lines st)
        | None => st
        end
      else if startswith "@return" line then
        DocState (d_params st) (return_of line) (d_desc_lines st)
      else if negb (startswith "@" line) then
        DocState (d_params st) (d_returns st) (d_desc_lines st ++ [line])
      else st
  end.

Definition parse_doc (doc_block : str) : doc_state :=
  fold_left doc_step (PyStr.split nl doc_block) (DocState [] [] []).

(** Lines 156-188 *)
Definition func_info_of (content : str) (sg : signature) : func_info :=
  let d := parse_doc (doc_block sg) in
  FuncInfo (func_name sg) (d_params d) (d_returns d)
           (join " " (d_desc_lines d)) (line_num content (start sg)).

(** Line 189 *)
Definition documented (f : func_info) : bool :=
  truthy (f_description f)
  || match f_params f with [] => false | _ => true end
  || truthy (f_returns f).

(** The body of the loop of lines 145-190 for one match: the record it
    appends, if any. *)
Definition function_of (content : str) (sg : signature) : option func_info :=
  if skipped (is_local sg) (func_name sg) then None
  else
    let f := func_info_of content sg in
    if documented f then Some f else None.

Definition parse_functions (content : str) : list func_info :=
  somes (map (function_of content) (signatures content)).

(** *** The module record *)

Definition last_index (c : ascii) (s : str) : option nat :=
  fold_left (fun acc '(i, x) => if Ascii.eqb x c then Some i else acc)
            (combine (seq 0 (length s)) s) None.

(** [Path.stem]: the last component without its final suffix. *)
Definition stem (rel_path : str) : str :=
  let nm := last (PyStr.split "/" rel_path) [] in
  match last_index "." nm with
  | Some i => if (0 <? i) && (i <? length nm - 1) then firstn i nm else nm
  | None => nm
  end.

(** [parse_file], for the file at [rel_path] under the input directory
    whose text is [content]. *)
Definition parse_file (rel_path content : str) : module :=
  Module_ (replace "/" "." (replace ".lua" [] rel_path))
          (stem rel_path)
          rel_path
          (parse_description content)
          (parse_examples content)
          (parse_functions content)
          (parse_version content)
          (parse_author content)
          (parse_license content).

End Parser.

(** ** [TACDocGenerator.generate_html_module] *)

Module Render.
Import PyStr.

(** [s.replace('<', '&lt;').replace('>', '&gt;')] *)
Definition escape (s : str) : str := replace ">" "&gt;" (replace "<" "&lt;" s).

(** A double-quoted attribute value. *)
Definition q (s : str) : str := [dq] ++ s ++ [dq].

(** [str(n)] *)
Definition decimal (n : nat) : str :=
  list_ascii_of_string (NilEmpty.string_of_uint (Nat.to_uint n)).

Definition github_url (m : module) : str :=
  "https://github.com/Twijn/tac/blob/main/" ++ path m.

Definition text_of (o : option str) : str :=
  match o with
  | Some s => s
  | None => "None"
  end.

(** Line 199 *)
Definition version_badge (m : module) : str :=
  if given (version m)
  then " <span class=" ++ q "version-badge" ++ ">v" ++ text_of (version m)
       ++ "</span>"
  else [].

(** Lines 375-379 *)
Definition render_example (example : str) : str :=
  "    <pre><code class='language-lua'>" ++ escape example
  ++ "</code></pre>" ++ [nl].

Definition render_examples (m : module) : str :=
  match examples m with
  | [] => []
  | exs => "    <h2>Examples</h2>" ++ [nl] ++ concat (map render_example exs)
  end.

(** Lines 399-403 *)
Definition render_param (p : param) : str :=
  "                <li><code>" ++ p_name p ++ "</code> (" ++ p_type p ++ ")"
  ++ (if truthy (p_description p) then ": " ++ p_description p else [])
  ++ "</li>" ++ [nl].

(** Lines 385-410 *)
Definition render_function (url : str) (func : func_info) : str :=
  "    <div class='function'>" ++ [nl]
  ++ "        <h3><code>" ++ f_name func ++ "("
  ++ join ", " (map p_name (f_params func)) ++ ")</code></h3>" ++ [nl]
  ++ "        <a href='" ++ url ++ "#L" ++ decimal (f_line func)
  ++ "' target='_blank' style='font-size: 0.85em; opacity: 0.7;'>View source</a>"
  ++ [nl]
  ++ (if truthy (f_description func)
      then "        <p>" ++ f_description func ++ "</p>" ++ [nl] else [])
  ++ match f_params func with
     | [] => []
     | ps =>
         "        <div class='params'>" ++ [nl]
         ++ "            <strong>Parameters:</strong>" ++ [nl]
         ++ "            <ul>" ++ [nl]
         ++ concat (map render_param ps)
         ++ "            </ul>" ++ [nl]
         ++ "        </div>" ++ [nl]
     end
  ++ (if truthy (f_returns func)
      then "        <div class='returns'><strong>Returns:</strong> "
           ++ f_returns func ++ "</div>" ++ [nl]
      else [])
  ++ "    </div>" ++ [nl].

Definition render_functions (m : module) : str :=
  match functions m with
  | [] => []
  | fs => "    <h2>Functions</h2>" ++ [nl]
          ++ concat (map (render_function (github_url m)) fs)
  end.

Section Page.

(** The fixed text of the page that carries no field of the module: lines
    201-205 up to the opening of the title, the rest of the head with the
    style sheet up to the opening of the heading (lines 205-358), and the
    two characters beyond the range of [ascii]. *)
Variables (page_open page_style bullet arrow : str).

(** Lines 362-368 *)
Definition render_metadata (m : module) : str :=
  if given (author m) || given (license m) then
    "        <div class='metadata'>"
    ++ (if given (author m) then " Author: " ++ text_of (author m) else [])
    ++ (if given (license m)
        then " " ++ bullet ++ " License: " ++ text_of (license m) else [])
    ++ "</div>" ++ [nl]
  else [].

(** Lines 370-372 *)
Definition render_link (m : module) : str :=
  "        <a href=" ++ q (github_url m) ++ " class=" ++ q "github-link"
  ++ " target=" ++ q "_blank" ++ ">View on GitHub " ++ arrow ++ "</a>" ++ [nl]
  ++ "    </div>" ++ [nl].

(** Lines 412-416 *)
Definition page_close : str :=
  "</body>" ++ [nl]
  ++ "<script src="
  ++ q "https://cdnjs.cloudflare.com/ajax/libs/prism/1.29.0/prism.min.js"
  ++ "></script>" ++ [nl]
  ++ "<script src="
  ++ q "https://cdnjs.cloudflare.com/ajax/libs/prism/1.29.0/components/prism-lua.min.js"
  ++ "></script>" ++ [nl]
  ++ "</html>" ++ [nl].

Definition generate_html_module (m : module) : str :=
  page_open ++ name m ++ page_style ++ name m ++ version_badge m
  ++ "</h1>" ++ [nl]
  ++ "        <p>" ++ escape (description m) ++ "</p>" ++ [nl]
  ++ render_metadata m
  ++ render_link m
  ++ render_examples m
  ++ render_functions m
  ++ page_close.

End Page.

End Render.

(** ** [TACDocGenerator.generate]: the files that are parsed *)

Module Discover.
Import PyStr.

(** Lines 853-857: the two [continue]s of the filter. *)
Definition skip_file (rel_path : str) : bool :=
  existsb (fun skip : str => contains skip rel_path)
          [("data/" : str); ("test/" : str); (".git" : str)]
  || (startswith "lib/" rel_path && negb (startswith "tac/lib/" rel_path)).

Definition filtered_files (lua_files : list str) : list str :=
  filter (fun f => negb (skip_file f)) lua_files.

End Discover.

(** ** [TACDocGenerator.generate_html_index] *)

Module Index.
Import PyStr.

(** A Python [dict] with string keys: the items in insertion order;
    assigning to a key that is present keeps its place. *)
Definition dict (V : Type) : Type := list (str * V).

Fixpoint dict_get {V} (k : str) (d : dict V) : option V :=
  match d with
  | [] => None
  | (k', v) :: t => if str_eqb k k' then Some v else dict_get k t
  end.

Fixpoint dict_set {V} (k : str) (v : V) (d : dict V) : dict V :=
  match d with
  | [] => [(k, v)]
  | (k', v') :: t =>
      if str_eqb k k' then (k, v) :: t else (k', v') :: dict_set k v t
  end.

Definition dict_has {V} (k : str) (d : dict V) : bool :=
  match dict_get k d with
  | Some _ => true
  | None => false
  end.

Definition values {V} (d : dict V) : list V := map snd d.

Definition param_eq_dec (a b : param) : {a = b} + {a <> b}.
Proof.
  decide equality; apply (list_eq_dec ascii_dec).
Defined.

Definition func_info_eq_dec (a b : func_info) : {a = b} + {a <> b}.
Proof.
  decide equality;
    first [ apply Nat.eq_dec
          | apply (list_eq_dec ascii_dec)
          | apply (list_eq_dec param_eq_dec) ].
Defined.

Definition opt_str_eq_dec (a b : option str) : {a = b} + {a <> b}.
Proof.
  decide equality; apply (list_eq_dec ascii_dec).
Defined.

(** [==] on two module dictionaries. *)
Definition module_eq_dec (a b : module) : {a = b} + {a <> b}.
Proof.
  decide equality;
    first [ apply opt_str_eq_dec
          | apply (list_eq_dec ascii_dec)
          | apply (list_eq_dec (list_eq_dec ascii_dec))
          | apply (list_eq_dec func_info_eq_dec) ].
Defined.

(** [m in l] *)
Definition mem (m : module) (l : list module) : bool :=
  if in_dec module_eq_dec m l then true else false.

(** [sorted(l, key=...)]: a stable insertion sort on string keys. *)
Fixpoint insert_by {A} (key : A -> str) (x : A) (l : list A) : list A :=
  match l with
  | [] => [x]
  | y :: t => if str_ltb (key x) (key y) then x :: l
              else y :: insert_by key x t
  end.

Definition sorted_by {A} (key : A -> str) (l : list A) : list A :=
  fold_left (fun acc x => insert_by key x acc) l [].

(** Lines 613-618 *)
Definition core_modules (modules : list module) : list module :=
  filter (fun m => startswith "tac/core/" (path m)
                   && negb (contains "/" (skipn 9 (path m)))) modules.

Definition library_modules (modules : list module) : list module :=
  filter (fun m => startswith "tac/lib/" (path m)) modules.

Definition command_modules (modules : list module) : list module :=
  filter (fun m => startswith "tac/commands/" (path m)) modules.

(** The two dictionaries of lines 621-622. *)
Record extensions : Type := Extensions {
  extension_parents : dict module;
  extension_children : dict (list module)
}.

(** [if k not in d: d[k] = []] *)
Definition ensure {V} (k : str) (d : dict (list V)) : dict (list V) :=
  if dict_has k d then d else dict_set k [] d.

(** [d[k].append(x)] *)
Definition append_to {V} (k : str) (x : V) (d : dict (list V))
  : dict (list V) :=
  dict_set k (match dict_get k d with
              | Some l => l ++ [x]
              | None => [x]
              end) d.

(** Lines 625-641: the body of the loop for one module. *)
Definition extension_step (e : extensions) (m : module) : extensions :=
  if startswith "tac/extensions/" (path m) then
    match split "/" (skipn 15 (path m)) with
    | [p0] =>
        let extension_name := "tac.extensions." ++ replace ".lua" [] p0 in
        Extensions
          (dict_set extension_name m (extension_parents e))
          (ensure extension_name (extension_children e))
    | [p0; _] =>
        let parent_name := "tac.extensions." ++ p0 in
        Extensions
          (extension_parents e)
          (append_to parent_name m (ensure parent_name (extension_children e)))
    | _ => e
    end
  else e.

Definition organize (modules : list module) : extensions :=
  fold_left extension_step modules (Extensions [] []).

(** Line 644 *)
Definition sorted_parents (e : extensions) : list (str * module) :=
  sorted_by fst (extension_parents e).

(** Lines 647-650 *)
Definition categorized (modules : list module) : list module :=
  let e := organize modules in
  core_modules modules ++ command_modules modules
  ++ values (extension_parents e) ++ concat (values (extension_children e)).

Definition other_modules (modules : list module) : list module :=
  filter (fun m => negb (mem m (categorized modules))) modules.

(** The categories walked by the loop of line 654, in the order of the
    dictionary, without the extension category that the loop passes over. *)
Definition categories (modules : list module) : list (str * list module) :=
  [("Core Modules" : str, core_modules modules);
   ("Library Modules" : str, library_modules modules);
   ("Command Modules" : str, command_modules modules)]
  ++ match other_modules modules with
     | [] => []
     | other => [("Other Modules" : str, other)]
     end.

(** The extension entries of lines 670-691: every parent in key order with
    its children in name order. *)
Definition extension_tree (modules : list module)
  : list (module * list module) :=
  let e := organize modules in
  map (fun '(parent_name, parent_module) =>
         (parent_module,
          sorted_by name
            (match dict_get parent_name (extension_children e) with
             | Some l => l
             | None => []
             end)))
      (sorted_parents e).

Definition q := Render.q.

Definition badge (m : module) : str :=
  if given (version m)
  then "<span class=" ++ q "version-badge" ++ ">v" ++ Render.text_of (version m)
       ++ "</span>"
  else [].

(** [d[:n] + ('...' if len(d) > n else '')] *)
Definition truncated (n : nat) (d : str) : str :=
  firstn n d ++ (if n <? length d then "..." else []).

Definition page_name (m : module) : str := replace "." "_" (name m) ++ ".html".

(** Lines 661-667 *)
Definition render_module (m : module) : str :=
  "    <div class=" ++ q "module" ++ ">" ++ [nl]
  ++ "        <h3><a href=" ++ q (page_name m) ++ ">" ++ name m ++ "</a>"
  ++ badge m ++ "</h3>" ++ [nl]
  ++ "        <p>" ++ truncated 200 (description m) ++ "</p>" ++ [nl]
  ++ "    </div>" ++ [nl].

(** Lines 657-667 *)
Definition render_category (c : str * list module) : str :=
  match snd c with
  | [] => []
  | mods => "    <h2>" ++ fst c ++ "</h2>" ++ [nl]
            ++ concat (map render_module mods)
  end.

(** Lines 684-689 *)
Definition render_child (child : module) : str :=
  "            <div style=" ++ q "margin: 0.5rem 0;" ++ ">" ++ [nl]
  ++ "                <strong><a href=" ++ q (page_name child) ++ ">"
  ++ last (split "." (name child)) [] ++ "</a></strong>" ++ [nl]
  ++ "                <span style=" ++ q "opacity: 0.7; font-size: 0.9em;"
  ++ "> - " ++ truncated 150 (description child) ++ "</span>" ++ [nl]
  ++ "            </div>" ++ [nl].

(** Lines 673-691 *)
Definition render_parent (entry : module * list module) : str :=
  let '(parent_module, children) := entry in
  "    <div class=" ++ q "module" ++ ">" ++ [nl]
  ++ "        <h3><a href=" ++ q (page_name parent_module) ++ ">"
  ++ name parent_module ++ "</a>" ++ badge parent_module ++ "</h3>" ++ [nl]
  ++ "        <p>" ++ truncated 200 (description parent_module) ++ "</p>"
  ++ [nl]
  ++ match children with
     | [] => []
     | _ =>
         "        <div style="
         ++ q "margin-left: 2rem; margin-top: 0.75rem; border-left: 2px solid var(--border); padding-left: 1rem;"
         ++ ">" ++ [nl]
         ++ concat (map render_child children)
         ++ "        </div>" ++ [nl]
     end
  ++ "    </div>" ++ [nl].

Definition render_extensions (tree : list (module * list module)) : str :=
  match tree with
  | [] => []
  | _ => "    <h2>Extension Modules</h2>" ++ [nl]
         ++ concat (map render_parent tree)
  end.

Section Page.

(** The fixed text before the first category (lines 421-610) and after
    the last entry (lines 693-712). *)
Variables (index_open index_close : str).

Definition generate_html_index (modules : list module) : str :=
  index_open
  ++ concat (map render_category (categories modules))
  ++ render_extensions (extension_tree modules)
  ++ index_close.

End Page.

(** The modules that an entry of the index is rendered from. *)
Definition listed (modules : list module) : list module :=
  concat (map snd (categories modules))
  ++ concat (map (fun e => fst e :: snd e) (extension_tree modules)).

(** What the two dictionaries hold after the loop over [modules]: every
    parent is a listed module one segment below the extensions root,
    under the key made from its file name; every child is two segments
    below it, under the key made from its directory; and every module
    two segments below the root is a child under some key. *)
Definition parent_item (modules : list module) (it : str * module) : Prop :=
  exists P, path (snd it) = "tac/extensions/" ++ P
            /\ ~ In "/"%char P
            /\ fst it = "tac.extensions." ++ replace ".lua" [] P
            /\ In (snd it) modules.

Definition child_item (it : str * list module) : Prop :=
  forall c, In c (snd it) ->
    exists X Y, path c = "tac/extensions/" ++ X ++ "/" ++ Y
                /\ ~ In "/"%char X /\ ~ In "/"%char Y
                /\ fst it = "tac.extensions." ++ X.

Definition children_hold (modules : list module) (d : dict (list module))
  : Prop :=
  forall m X Y, In m modules ->
    path m = "tac/extensions/" ++ X ++ "/" ++ Y ->
    ~ In "/"%char X -> ~ In "/"%char Y ->
    exists k l, dict_get k d = Some l /\ In m l.

Definition organized (modules : list module) (e : extensions) : Prop :=
  Forall (parent_item modules) (extension_parents e)
  /\ Forall child_item (extension_children e)
  /\ children_hold modules (extension_children e).

(** Two states of the loop that differ only by what is filed under the
    key [k0], and there only by the module [m]. *)
Definition agree_but (k0 : str) (m : module) (e e' : extensions) : Prop :=
  extension_parents e = extension_parents e'
  /\ (forall k, k <> k0 ->
        dict_get k (extension_children e) = dict_get k (extension_children e'))
  /\ (forall x, x <> m ->
        (In x (concat (values (extension_children e)))
         <-> In x (concat (values (extension_children e'))))).

(** What the loop keeps besides: every child filed is a module of the
    list, and every module one segment below the extensions root has a
    parent filed under its key. *)
Definition filed (ms : list module) (e : extensions) : Prop :=
  (forall x, In x (concat (values (extension_children e))) -> In x ms)
  /\ (forall m P, In m ms -> path m = "tac/extensions/" ++ P ->
        ~ In "/"%char P ->
        exists pm,
          dict_get ("tac.extensions." ++ replace ".lua" [] P)
                   (extension_parents e) = Some pm).

End Index.

(** ** The behaviour as the specification words it

    These definitions follow the sentences of the specification; the
    theorems below compare them with the functions embedded above. *)

Module Claimed.
Import PyStr.

(** The lines of a block comment body, each trimmed. *)
Definition trimmed_lines (block : str) : list str :=
  map strip (split nl block).

Definition is_tag (line : str) : bool := startswith "@" line.

(** A line that cannot be the title: empty, or a tag line. *)
Definition untitled (line : str) : bool := negb (truthy line) || is_tag line.

(** The title line is the first non-empty, non-tag line; the description
    is made of the non-empty lines after it, up to the first tag line,
    joined with single spaces. *)
Definition described (block : str) : str :=
  join " "
    (filter truthy
       (takeWhile (fun l => negb (is_tag l))
          (tl (dropWhile untitled (trimmed_lines block))))).

(** The first non-empty line of a block comment body. *)
Definition first_line (block : str) : option str :=
  hd_error (filter truthy (trimmed_lines block)).

(** The remainder of the line after the first occurrence of [tag]. *)
Fixpoint line_after (tag s : str) : option str :=
  if startswith tag s
  then Some (takeWhile (Re.except nl) (skipn (length tag) s))
  else match s with
       | [] => None
       | _ :: t => line_after tag t
       end.

(** A line that is empty or has only white space. *)
Definition blank_line (line : str) : bool := negb (truthy (strip line)).

(** An example segment with the least indentation of its non-blank lines
    taken off every line, and without its leading and trailing blank
    lines. *)
Definition least_indent (lines : list str) : nat :=
  match map Parser.indent (filter (fun l => negb (blank_line l)) lines) with
  | [] => 0
  | n :: ns => fold_left Nat.min ns n
  end.

Definition normalized (segment : str) : str :=
  let lines := split nl segment in
  let n := least_indent lines in
  let lines := map (skipn n) lines in
  join [nl]
    (rev (dropWhile blank_line (rev (dropWhile blank_line lines)))).

(** The line of the definition site: the one that holds the identifier
    of the signature (group 3 of the match). *)
Definition definition_line (content : str) (m : Re.rmatch) : nat :=
  match Re.lookup_cap 3 (Re.m_caps m) with
  | Some (a, _) => Parser.line_num content a
  | None => 0
  end.

(** The directories of a relative path: its components but the last. *)
Definition directories (rel_path : str) : list str :=
  removelast (split "/" rel_path).

(** Excluded by name: a directory called data, test or .git, or a path
    under the top-level lib/ that is not under tac/lib/. *)
Definition excluded (rel_path : str) : bool :=
  existsb (fun d => str_eqb d "data" || str_eqb d "test" || str_eqb d ".git")
          (directories rel_path)
  || (startswith "lib/" rel_path && negb (startswith "tac/lib/" rel_path)).

(** The comment lines of a block without their markers, in order. *)
Definition comment_lines (doc_block : str) : list str :=
  Parser.somes (map Parser.unmark (split nl doc_block)).

Definition param_lines (doc_block : str) : list str :=
  filter (startswith "@param") (comment_lines doc_block).

Definition return_lines (doc_block : str) : list str :=
  filter (startswith "@return") (comment_lines doc_block).

(** Line 189 as the specification words it. *)
Definition has_documentation (f : func_info) : Prop :=
  f_description f <> [] \/ f_params f <> [] \/ f_returns f <> [].

(** A string that neither starts nor ends with white space. *)
Definition trimmed (s : str) : Prop :=
  Re.head_is is_space s = false /\ Re.head_is is_space (rev s) = false.

(** The description as the last clause of the claim and the comment of
    line 56 have it: only the lines before the first tag line count; the
    first non-empty one of them is the title and the non-empty ones
    after it are the description, so that a body whose first non-empty
    line is a tag line has none. *)
Definition before_first_tag (block : str) : str :=
  join " "
    (filter truthy
       (tl (dropWhile (fun l => negb (truthy l))
              (takeWhile (fun l => negb (is_tag l))
                 (trimmed_lines block))))).

(** The privacy rules as the specification words them: the function was
    declared with the local keyword and its identifier has neither a dot
    nor a colon, or the identifier starts with an underscore or has an
    underscore right after a dot. *)
Definition private (sg : Parser.signature) : Prop :=
  (Parser.is_local sg <> None
   /\ ~ In "."%char (Parser.func_name sg)
   /\ ~ In ":"%char (Parser.func_name sg))
  \/ ((exists t, Parser.func_name sg = "_"%char :: t)
      \/ exists a b, Parser.func_name sg = a ++ "._" ++ b).

(** Two characters that differ at most by the case of a letter. *)
Definition same_letter (a b : ascii) : bool :=
  Ascii.eqb (Parser.upper a) (Parser.upper b).

(** [s] goes on with the keyword, in any case. *)
Fixpoint keyword_at (kw s : str) : bool :=
  match kw, s with
  | [], _ => true
  | _ :: _, [] => false
  | a :: kw', x :: s' => same_letter a x && keyword_at kw' s'
  end.

(** An assignment of a quoted string to the version keyword at the head
    of [s]: the keyword, white space if any, the equals sign, white
    space if any, a quote, one or more characters that are no quotes,
    and a quote.  The result is the text between the quotes. *)
Definition assignment_at (s : str) : option str :=
  if keyword_at "version" s then
    match dropWhile is_space (skipn 7 s) with
    | c :: s2 =>
        if Ascii.eqb "=" c then
          match dropWhile is_space s2 with
          | q1 :: s3 =>
              if Parser.quote q1 then
                let lit := takeWhile (fun x => negb (Parser.quote x)) s3 in
                match lit, dropWhile (fun x => negb (Parser.quote x)) s3 with
                | _ :: _, _ :: _ => Some lit
                | _, _ => None
                end
              else None
          | [] => None
          end
        else None
    | [] => None
    end
  else None.

(** The literal of the first such assignment of the file. *)
Fixpoint first_assignment (s : str) : option str :=
  match assignment_at s with
  | Some lit => Some lit
  | None =>
      match s with
      | [] => None
      | _ :: t => first_assignment t
      end
  end.

End Claimed.

(** ** Sample inputs *)

Module Sample.
Import PyStr.

(** A text given by its lines. *)
Definition text (lines : list string) : str :=
  join [nl] (map list_ascii_of_string lines).

(** A block comment body with one example whose first line is indented
    more than the second. *)
Definition example_block : str :=
  text ["Title"; "@example"; "    a"; "  b"; ""].

Definition example_segment : str := text ["    a"; "  b"; ""].

(** A function documented by one comment line. *)
Definition documented_source : str :=
  text ["--- Doc"; "function a.b()"; "end"].

(** A method whose comment block has only a return tag. *)
Definition return_only_source : str :=
  text ["--- @return string"; "function obj.method()"; "end"].

(** A module whose function texts carry angle brackets. *)
Definition angle_function : func_info :=
  FuncInfo "m.f" [Param "x" "t" "a<b"] "table<string>" "d <i>" 3.

Definition angle_module : module :=
  Module_ "m" "m" "m.lua" "x<y" [("p<q" : str)] [angle_function]
          None None None.

(** A comment block with two parameters and two return tags. *)
Definition two_returns_doc : str :=
  text ["--- Adds."; "--- @param a number first"; "--- @return x";
        "-- @param b? string"; "--- @return y"; ""].

(** The block comment of the specification's example, and its body. *)
Definition titled_source : str :=
  text ["--[[Title line"; ""; "Does the thing."; "@version 1.0"; "]]"].

Definition titled_block : str :=
  text ["Title line"; ""; "Does the thing."; "@version 1.0"; ""].

(** A block comment whose first non-empty line is a tag. *)
Definition tag_first_source : str :=
  text ["--[["; "@module foo"; "Title"; "Desc"; "]]"].

Definition tag_first_block : str :=
  text [""; "@module foo"; "Title"; "Desc"; ""].

(** A block comment with the three tags, the version tag last and with
    nothing but two spaces after it, followed by an assignment. *)
Definition blank_version_source : str :=
  text ["--[[Title"; "@author a"; "@license l"; "@version  "; "]]";
        "local VERSION = '2.0'"].

Definition blank_version_block : str :=
  text ["Title"; "@author a"; "@license l"; "@version  "; ""].

(** A block comment with the three tags and an assignment after it. *)
Definition tagged_source : str :=
  text ["--[[Title"; "@version 1.2.3 "; "@author  Ann"; "@license MIT"; "]]";
        "local VERSION = '2.0'"].

Definition tagged_block : str :=
  text ["Title"; "@version 1.2.3 "; "@author  Ann"; "@license MIT"; ""].

(** A block comment without a version tag, and an assignment. *)
Definition untagged_source : str :=
  text ["--[[Title"; "@author a"; "]]"; "local Version='0.9'"].

(** The module of a file whose text is one line of description. *)
Definition described_module (rel_path : string) : module :=
  Parser.parse_file rel_path (text ["--- Doc"; ""]).

(** A module two segments below the extensions root, and a top-level
    extension file that is not its parent by path. *)
Definition orphan : module := described_module "tac/extensions/foo/bar.lua".

Definition twice_lua : module := described_module "tac/extensions/foo.lua.lua".

Definition other_extension : module :=
  described_module "tac/extensions/other.lua".

(** A module under tac/lib/. *)
Definition library_module : module :=
  Module_ "tac.lib.x" "x" "tac/lib/x.lua" "d" [] [] None None None.

(** A block comment with the three tags, the version tag alone on its
    line. *)
Definition bare_version_source : str :=
  text ["--[[Title"; "@version"; "@author Ann"; "@license MIT"; "]]"].

Definition bare_version_block : str :=
  text ["Title"; "@version"; "@author Ann"; "@license MIT"; ""].

(** Documented functions: one with an underscore inside a segment of its
    name, one with an underscore right after a dot, and a local one with
    a bare name. *)
Definition underscore_source : str :=
  text ["--- Doc"; "function foo.bar_baz()"; "end"].

Definition internal_source : str :=
  text ["--- Doc"; "function ns._internal()"; "end"].

Definition local_bare_source : str :=
  text ["--- Doc"; "local function helper()"; "end"].

Definition local_method_source : str :=
  text ["--- Doc"; "local function obj.helper()"; "end"].

End Sample.

(** ** Declarative readings of the loops

    What the loops of the source compute, written without their flags;
    the properties below show that the loops agree with them. *)

Module Shape.
Import PyStr.

(** The text of a line comment: [line[3:].strip()]. *)
Definition comment_text (line : str) : str := strip (skipn 3 line).

(** A line the fallback passes over before the description has begun: it
    is no triple-dash comment, or it is one without text. *)
Definition passed_over (line : str) : bool :=
  negb (startswith "---" line) || negb (truthy (comment_text line)).

(** A line that carries the description on: a triple-dash comment that
    is not a tag line. *)
Definition carries_on (line : str) : bool :=
  startswith "---" line && negb (startswith "@" (comment_text line)).

(** The description of the line comments: the texts of the run of
    comments that starts at the first comment with text and ends before
    the first tag line or line that is no comment. *)
Definition line_described (content : str) : str :=
  join " "
    (filter truthy
       (map comment_text
          (takeWhile carries_on
             (dropWhile passed_over (split nl content))))).

(** The lines of a function's description: the comment lines that do
    not start with the tag sign. *)
Definition description_lines (doc_block : str) : list str :=
  filter (fun l => negb (startswith "@" l)) (Claimed.comment_lines doc_block).

(** A field that, when it is given, holds one line without white space
    around it. *)
Definition one_line (o : option str) : Prop :=
  match o with
  | Some v => ~ In nl v /\ Claimed.trimmed v
  | None => True
  end.

(** The name of a parameter: word characters, with or without a question
    mark after them. *)
Definition param_name (s : str) : Prop :=
  exists w o, s = w ++ o /\ w <> [] /\ forallb is_word w = true
              /\ (o = [] \/ o = ["?"%char]).

(** The escaping of one character by [escape]. *)
Definition escape_char (c : ascii) : str :=
  if Ascii.eqb c "<" then "&lt;"
  else if Ascii.eqb c ">" then "&gt;"
  else [c].

End Shape.

(** ** Orders and sorting

    The shape shared by the comparisons of strings and of paths, and by
    the two sorts of the source. *)

Module Order.

(** The order of two lists that the first difference decides. *)
Fixpoint lex {A} (ltb eqb : A -> A -> bool) (a b : list A) : bool :=
  match a, b with
  | _, [] => false
  | [], _ :: _ => true
  | x :: a', y :: b' =>
      if ltb x y then true else if eqb x y then lex ltb eqb a' b' else false
  end.

(** [a] does not come after [b]. *)
Definition upto {B K} (ltb : K -> K -> bool) (key : B -> K) (a b : B)
  : Prop :=
  ltb (key b) (key a) = false.

(** The insertion of a stable sort. *)
Fixpoint ins {B K} (ltb : K -> K -> bool) (key : B -> K) (x : B)
  (l : list B) : list B :=
  match l with
  | [] => [x]
  | y :: t => if ltb (key x) (key y) then x :: l else y :: ins ltb key x t
  end.

End Order.

(** ** [TACDocGenerator.generate]: the modules and their pages *)

Module Generate.
Import PyStr.

(** [<] on two lists of path components, as Python compares lists. *)
Fixpoint parts_ltb (a b : list str) : bool :=
  match a, b with
  | _, [] => false
  | [], _ :: _ => true
  | x :: a', y :: b' =>
      if str_ltb x y then true
      else if str_eqb x y then parts_ltb a' b' else false
  end.

(** [<] on two [Path]s below the input directory: their components are
    compared, not their text. *)
Definition path_ltb (a b : str) : bool :=
  parts_ltb (split "/" a) (split "/" b).

(** [sorted(lua_files)]: a stable insertion sort.  A file is its path
    below the input directory and its text; the text is [None] when the
    file cannot be read as UTF-8. *)
Fixpoint insert_file (x : str * option str) (l : list (str * option str))
  : list (str * option str) :=
  match l with
  | [] => [x]
  | y :: t => if path_ltb (fst x) (fst y) then x :: l
              else y :: insert_file x t
  end.

Definition sorted_files (l : list (str * option str))
  : list (str * option str) :=
  fold_left (fun acc x => insert_file x acc) l [].

(** Line 865: [module['description'] or module['functions']] *)
Definition kept (m : module) : bool :=
  truthy (description m)
  || match functions m with [] => false | _ => true end.

(** Lines 850-866: [self.modules] after the loop, for the files found by
    [rglob] in the order it gives them.  A file that cannot be read
    raises in [parse_file] and is passed over by the [except]. *)
Definition modules_of (lua_files : list (str * option str)) : list module :=
  filter kept
    (Parser.somes
       (map (fun f => option_map (Parser.parse_file (fst f)) (snd f))
            (sorted_files
               (filter (fun f => negb (Discover.skip_file (fst f)))
                       lua_files)))).

Section Pages.

Variables (page_open page_style bullet arrow : str).

(** Lines 869-872: the pages that the loop makes and hands to [open] and
    [write], file name and text, in order.  These are the writes that
    are tried: one that fails raises inside the [try] and is passed over
    by the [except], after the module has gone to [self.modules] (line
    866), and a page under a name that is there already replaces the
    file.  So the files of the output directory are among these names,
    and a module can be in the index without a file of its own. *)
Definition pages (lua_files : list (str * option str)) : list (str * str) :=
  map (fun m =>
         (Index.page_name m,
          Render.generate_html_module page_open page_style bullet arrow m))
      (modules_of lua_files).

End Pages.

End Generate.

(** ** [TACDocGenerator.generate_api_endpoints] *)

Module Manifest.
Import PyStr Index.

(** One entry of a category of versions.json. *)
Record entry : Type := Entry {
  e_version : option str;
  e_path : str;
  e_download_url : str
}.

(** [versions['tac']] *)
Record versions : Type := Versions {
  v_version : str;
  v_init : entry;
  v_core : dict entry;
  v_lib : dict entry;
  v_commands : dict entry;
  v_extensions : dict entry
}.

(** Lines 725-731: the version of the first module named tac.init. *)
Definition tac_version (modules : list module) : option str :=
  match find (fun m => str_eqb (name m) "tac.init") modules with
  | Some m => version m
  | None => None
  end.

(** [tac_version or '0.0.0'] *)
Definition or_default (v : option str) : str :=
  match v with
  | Some s => if truthy s then s else "0.0.0"
  | None => "0.0.0"
  end.

Definition base_url : str :=
  "https://raw.githubusercontent.com/Twijn/tac/main/".

(** Lines 734-747 *)
Definition initial (modules : list module) : versions :=
  Versions (or_default (tac_version modules))
           (Entry (Some (or_default (tac_version modules)))
                  "tac/init.lua"
                  "https://raw.githubusercontent.com/Twijn/tac/main/tac/init.lua")
           [] [] [] [].

(** The entry of a parsed module; every module carries the version key,
    so the default of [m.get('version', '0.0.0')] is never taken. *)
Definition entry_of (m : module) : entry :=
  Entry (version m) (path m) (base_url ++ path m).

(** Lines 751-780: the body of the loop for one module. *)
Definition categorize_step (v : versions) (m : module) : versions :=
  if startswith "tac/core/" (path m) then
    Versions (v_version v) (v_init v)
      (dict_set (replace "tac.core." [] (name m)) (entry_of m) (v_core v))
      (v_lib v) (v_commands v) (v_extensions v)
  else if startswith "tac/lib/" (path m) then
    Versions (v_version v) (v_init v) (v_core v)
      (dict_set (replace "tac.lib." [] (name m)) (entry_of m) (v_lib v))
      (v_commands v) (v_extensions v)
  else if startswith "tac/commands/" (path m) then
    Versions (v_version v) (v_init v) (v_core v) (v_lib v)
      (dict_set (replace "tac.commands." [] (name m)) (entry_of m)
         (v_commands v))
      (v_extensions v)
  else if startswith "tac/extensions/" (path m) then
    if negb (contains "/" (skipn 15 (path m))) then
      Versions (v_version v) (v_init v) (v_core v) (v_lib v) (v_commands v)
        (dict_set (replace "tac.extensions." [] (name m)) (entry_of m)
           (v_extensions v))
    else v
  else v.

Definition categorized (modules : list module) : versions :=
  fold_left categorize_step modules (initial modules).

(** Lines 788-792: the entry of a command file that no module gave. *)
Definition scanned (file_name : str) : entry :=
  Entry (Some ("0.0.0" : str))
        ("tac/commands/" ++ file_name)
        ("https://raw.githubusercontent.com/Twijn/tac/main/tac/commands/"
         ++ file_name).

(** Lines 785-792: the body of the loop for one file of the directory. *)
Definition scan_step (commands : dict entry) (file_name : str) : dict entry :=
  let cmd_name := Parser.stem file_name in
  if dict_has cmd_name commands then commands
  else dict_set cmd_name (scanned file_name) commands.

(** Lines 734-792: the value dumped to versions.json.  [command_files]
    are the names that [glob] gives for tac/commands, in its order; the
    list is empty when the directory does not exist. *)
Definition versions_of (modules : list module) (command_files : list str)
  : versions :=
  let v := categorized modules in
  Versions (v_version v) (v_init v) (v_core v) (v_lib v)
           (fold_left scan_step command_files (v_commands v))
           (v_extensions v).

(** Lines 799-802: the value dumped to latest.json; [date_output] is what
    the date command prints. *)
Record latest : Type := Latest {
  l_version : str;
  l_updated_at : str
}.

Definition latest_of (modules : list module) (date_output : str) : latest :=
  Latest (or_default (tac_version modules)) (strip date_output).

Record submodule : Type := Submodule {
  s_name : str;
  s_path : str;
  s_version : option str;
  s_download_url : str
}.

Record manifest : Type := Manifest_ {
  x_name : str;
  x_version : option str;
  x_description : str;
  x_author : option str;
  x_main_file : str;
  x_download_url : str;
  x_submodules : option (list submodule)
}.

(** Line 808 *)
Definition top_level (m : module) : bool :=
  startswith "tac/extensions/" (path m)
  && negb (contains "/" (skipn 15 (path m))).

(** Lines 812-821 *)
Definition submodules_of (modules : list module) (m : module)
  : list submodule :=
  let extension_dir := replace ".lua" [] (path m) in
  map (fun sub_m =>
         Submodule (last (split "." (name sub_m)) [])
                   (path sub_m)
                   (version sub_m)
                   (base_url ++ path sub_m))
      (filter (fun sub_m => startswith (extension_dir ++ "/") (path sub_m))
              modules).

(** Lines 809 and 823-831 *)
Definition module_manifest (modules : list module) (m : module) : manifest :=
  Manifest_ (replace "tac.extensions." [] (name m))
            (version m)
            (description m)
            (author m)
            (path m)
            (base_url ++ path m)
            (match submodules_of modules m with
             | [] => None
             | submodules => Some submodules
             end).

(** Lines 807-834: the manifests dumped, each with the module name that
    names its file, in the order of the writes. *)
Definition extension_manifests (modules : list module)
  : list (str * manifest) :=
  map (fun m => (replace "tac.extensions." [] (name m),
                 module_manifest modules m))
      (filter top_level modules).

(** The entries of a category lie under its directory, and each is
    fetched from the place of its file. *)
Definition under (prefix : str) (d : dict entry) : Prop :=
  Forall (fun it => startswith prefix (e_path (snd it)) = true
                    /\ e_download_url (snd it) = base_url ++ e_path (snd it))
         d.

(** What the loop over the modules keeps: every category holds entries
    of its own directory, and the extensions are files of the root of
    theirs. *)
Definition sorted_out (v : versions) : Prop :=
  under "tac/core/" (v_core v)
  /\ under "tac/lib/" (v_lib v)
  /\ under "tac/commands/" (v_commands v)
  /\ under "tac/extensions/" (v_extensions v)
  /\ Forall (fun it => ~ In "/"%char (skipn 15 (e_path (snd it))))
            (v_extensions v).

(** The name under which an extension goes to versions.json and that
    names its manifest. *)
Definition module_name (m : module) : str :=
  replace "tac.extensions." [] (name m).

(** The parent file of an extension and a file of its directory, for
    the manifest. *)
Definition shop : module :=
  Sample.described_module "tac/extensions/shop.lua".

Definition shop_ui : module :=
  Sample.described_module "tac/extensions/shop/ui.lua".

End Manifest.

(** * Properties *)

(** ** Facts on strings *)

Module PyStrFacts.
Import PyStr.

Lemma startswith_app (p s : str) :
  startswith p s = true <-> exists t, s = p ++ t.
Proof.
  revert s; induction p as [|a p IH]; intros s; simpl.
  - split; eauto.
  - destruct s as [|c s].
    + split; [discriminate | intros [t H]; discriminate].
    + rewrite andb_true_iff, Ascii.eqb_eq, IH. split.
      * intros [-> [t ->]]. now exists t.
      * intros [t H]. injection H as -> ->. eauto.
Qed.

Lemma startswith_prefix (p t : str) : startswith p (p ++ t) = true.
Proof. apply startswith_app. now exists t. Qed.

Lemma startswith_skipn (p s : str) :
  startswith p s = true -> s = p ++ skipn (length p) s.
Proof.
  intros H. apply startswith_app in H as [t ->].
  now rewrite skipn_app, skipn_all, Nat.sub_diag.
Qed.

Lemma contains_iff (sub s : str) :
  contains sub s = true <-> exists a b, s = a ++ sub ++ b.
Proof.
  induction s as [|c s IH]; simpl.
  - rewrite orb_false_r, startswith_app. split.
    + intros [t H]. now exists [], t.
    + intros [a [b H]]. destruct a; simpl in H.
      * now exists b.
      * discriminate.
  - rewrite orb_true_iff, startswith_app, IH. split.
    + intros [[t H] | [a [b H]]].
      * now exists [], t.
      * exists (c :: a), b. now rewrite H.
    + intros [a [b H]]. destruct a as [|x a]; simpl in H.
      * left. now exists b.
      * right. injection H as _ ->. now exists a, b.
Qed.

Lemma contains_char (c : ascii) (s : str) :
  contains [c] s = true <-> In c s.
Proof.
  rewrite contains_iff. split.
  - intros [a [b ->]]. apply in_or_app. right. now left.
  - intros H. apply in_split in H as [a [b ->]]. now exists a, b.
Qed.

Lemma contains_char_false (c : ascii) (s : str) :
  contains [c] s = false <-> ~ In c s.
Proof.
  rewrite <- contains_char. destruct (contains [c] s); split; congruence.
Qed.

Lemma split_cons (sep : ascii) (s : str) :
  exists l ls, split sep s = l :: ls.
Proof.
  destruct s as [|c t]; simpl; eauto.
  destruct (Ascii.eqb c sep); eauto.
  destruct (split sep t); eauto.
Qed.

Lemma join_cons (sep p : str) (ps : list str) :
  ps <> [] -> join sep (p :: ps) = p ++ sep ++ join sep ps.
Proof. destruct ps; [congruence | reflexivity]. Qed.

Lemma join_split (sep : ascii) (s : str) : join [sep] (split sep s) = s.
Proof.
  induction s as [|c t IH]; [reflexivity|].
  simpl. destruct (split_cons sep t) as [l [ls E]].
  destruct (Ascii.eqb_spec c sep) as [->|Hc].
  - rewrite join_cons by (rewrite E; discriminate). simpl. now rewrite IH.
  - rewrite E in *. destruct ls; simpl in *; now rewrite <- IH.
Qed.

Lemma contains_app_r (sub a t : str) :
  contains sub t = true -> contains sub (a ++ t) = true.
Proof.
  rewrite !contains_iff. intros [u [v ->]]. exists (a ++ u), v.
  now rewrite <- app_assoc.
Qed.

Lemma str_eqb_eq (a b : str) : str_eqb a b = true <-> a = b.
Proof.
  unfold str_eqb. destruct (list_eq_dec ascii_dec a b); split; congruence.
Qed.

Lemma contains_app_l (sub a t : str) :
  contains sub a = true -> contains sub (a ++ t) = true.
Proof.
  rewrite !contains_iff. intros [u [v ->]]. exists u, (v ++ t).
  now rewrite <- !app_assoc.
Qed.

End PyStrFacts.

(** ** Facts on the matcher *)

Module ReFacts.
Import PyStr Re.

Lemma reaches_refl (ids : list nat) (st : mstate) : reaches ids st st.
Proof.
  repeat split; [now exists [] | exists []; split; [reflexivity | constructor]].
Qed.

Lemma reaches_incl (ids ids' : list nat) (st st' : mstate) :
  incl ids ids' -> reaches ids st st' -> reaches ids' st st'.
Proof.
  intros Hi (Hs & Hb & new & Hc & Hn). repeat split; auto.
  exists new. split; auto. eapply Forall_impl; [|exact Hn].
  intros e He. now apply Hi.
Qed.

Lemma reaches_trans (ids : list nat) (a b c : mstate) :
  reaches ids a b -> reaches ids b c -> reaches ids a c.
Proof.
  intros (Hs1 & [c1 Hb1] & n1 & Hc1 & Hn1) (Hs2 & [c2 Hb2] & n2 & Hc2 & Hn2).
  repeat split.
  - congruence.
  - exists (c2 ++ c1). now rewrite Hb2, Hb1, app_assoc.
  - exists (n2 ++ n1). split.
    + now rewrite Hc2, Hc1, app_assoc.
    + apply Forall_app. now split.
Qed.

Lemma reaches_advance (st st' : mstate) (c : ascii) :
  advance st = Some (c, st') -> reaches [] st st'.
Proof.
  unfold advance. destruct st as [b r cs]; simpl.
  destruct r as [|x r]; [discriminate|]. intros H. injection H as <- <-.
  unfold reaches, subject; simpl. repeat split.
  - now rewrite <- app_assoc.
  - now exists [x].
  - exists []. split; [reflexivity | constructor].
Qed.

Lemma reaches_set_cap (ids : list nat) (i a b : nat) (st st' : mstate) :
  reaches ids st st' -> reaches (i :: ids) st (set_cap i a b st').
Proof.
  intros (Hs & Hb & new & Hc & Hn). unfold reaches, subject in *; simpl.
  repeat split; auto.
  exists ((i, (a, b)) :: new). split; [now rewrite Hc|].
  constructor; [now left|].
  eapply Forall_impl; [|exact Hn]. intros e He. now right.
Qed.

Lemma reaches_pos (ids : list nat) (st st' : mstate) :
  reaches ids st st' -> pos st <= pos st'.
Proof.
  intros (_ & [c Hc] & _). unfold pos. rewrite Hc, length_app. lia.
Qed.

Lemma rep_loop_calls (ids : list nat) (n : nat) body g lo hi :
  calls ids n body ->
  forall fuel cnt k st sf,
    rep_loop body g lo hi k fuel cnt st = Some sf ->
    exists st', reaches ids st st'
                /\ (lo <= cnt \/ pos st + n <= pos st')
                /\ k st' = Some sf.
Proof.
  intros Hbody. induction fuel as [|fuel IH]; intros cnt k st sf; simpl.
  - discriminate.
  - assert (Hmore :
      (if below cnt hi
       then body st (fun st' =>
              if length (rest st') <? length (rest st)
              then rep_loop body g lo hi k fuel (S cnt) st'
              else k st')
       else None) = Some sf ->
      exists st', reaches ids st st'
                  /\ (lo <= cnt \/ pos st + n <= pos st')
                  /\ k st' = Some sf).
    { destruct (below cnt hi); [|discriminate]. intros H.
      apply Hbody in H as (st1 & R1 & L1 & H).
      destruct (length (rest st1) <? length (rest st)).
      - apply IH in H as (st2 & R2 & _ & H). exists st2.
        split; [eapply reaches_trans; eauto|]. split; [|exact H].
        right. apply reaches_pos in R2. lia.
      - exists st1. auto. }
    assert (Hstop : (if lo <=? cnt then k st else None) = Some sf ->
      exists st', reaches ids st st'
                  /\ (lo <= cnt \/ pos st + n <= pos st')
                  /\ k st' = Some sf).
    { destruct (lo <=? cnt) eqn:E; [|discriminate]. intros H. exists st.
      split; [apply reaches_refl|]. split; [|exact H].
      left. now apply Nat.leb_le. }
    unfold orelse. destruct g.
    + destruct (if below cnt hi then _ else None) eqn:E.
      * intros H. apply Hmore. now rewrite <- H.
      * exact Hstop.
    + destruct (if lo <=? cnt then k st else None) eqn:E.
      * intros H. apply Hstop. now rewrite <- H.
      * exact Hmore.
Qed.

(** A pattern that matched has handed a later state to the rest of the
    pattern, has passed at least its least length, and has closed only
    groups of its own. *)
Lemma run_calls (r : regex) : calls (groups r) (min_len r) (run r).
Proof.
  induction r as [|p|a IHa b IHb|a IHa b IHb|g lo hi a IHa|i a IHa|a IHa|];
    intros st k sf; cbn [run groups min_len].
  - intros H. exists st. split; [apply reaches_refl|]. split; [lia | exact H].
  - destruct (advance st) as [[c st']|] eqn:E; [|discriminate].
    destruct (p c); [|discriminate]. intros H. exists st'.
    split; [eapply reaches_advance; eauto|]. split; [|exact H].
    unfold advance in E. destruct (rest st); [discriminate|].
    injection E as _ <-. unfold pos. simpl. lia.
  - intros H. apply IHa in H as (st1 & R1 & L1 & H).
    apply IHb in H as (st2 & R2 & L2 & H).
    exists st2. split; [|split; [lia | exact H]].
    eapply reaches_trans;
      [eapply reaches_incl; [|exact R1] | eapply reaches_incl; [|exact R2]];
      auto using incl_appl, incl_appr, incl_refl.
  - unfold orelse. destruct (run a st k) eqn:E.
    + intros H. rewrite <- H in *. apply IHa in E as (st1 & R1 & L1 & E).
      exists st1. split; [|split; [lia | exact E]].
      eapply reaches_incl; [|exact R1]. auto using incl_appl, incl_refl.
    + intros H. apply IHb in H as (st1 & R1 & L1 & H).
      exists st1. split; [|split; [lia | exact H]].
      eapply reaches_incl; [|exact R1]. auto using incl_appr, incl_refl.
  - intros H. apply (rep_loop_calls _ _ _ _ _ _ IHa) in H
      as (st1 & R1 & L1 & H).
    exists st1. split; [exact R1|]. split; [|exact H].
    pose proof (reaches_pos _ _ _ R1).
    destruct (Nat.eqb_spec lo 0); [lia|]. destruct L1; lia.
  - intros H. apply IHa in H as (st1 & R1 & L1 & H).
    exists (set_cap i (pos st) (pos st1) st1).
    split; [now apply reaches_set_cap|]. split; [exact L1 | exact H].
  - destruct (run a st Some); [discriminate|]. intros H.
    exists st. split; [apply reaches_refl|]. split; [lia | exact H].
  - destruct (xorb _ _); [|discriminate]. intros H.
    exists st. split; [apply reaches_refl|]. split; [lia | exact H].
Qed.

Lemma lookup_cap_skip (i : nat) (new l : list (nat * (nat * nat))) :
  Forall (fun e => fst e <> i) new ->
  lookup_cap i (new ++ l) = lookup_cap i l.
Proof.
  induction 1 as [|[j sp] new Hj _ IH]; [reflexivity|]. simpl in *.
  destruct (Nat.eqb_spec i j); [congruence | exact IH].
Qed.

(** A pattern that opens with a group: the span of this group starts
    where the match starts, when the rest closes no group of that
    number. *)
Lemma head_group_span (i : nat) (a r : regex) (pre s : str) (m : rmatch) :
  ~ In i (groups r) ->
  match_at (Cat (Group i a) r) pre s = Some m ->
  m_start m = length pre
  /\ exists e, lookup_cap i (m_caps m) = Some (length pre, e).
Proof.
  intros Hi. unfold match_at. cbn [run].
  destruct (run a _ _) as [sf|] eqn:E; [|discriminate].
  intros H. injection H as <-. cbn [m_start m_caps]. split; [reflexivity|].
  apply run_calls in E as (st1 & _ & _ & E).
  apply run_calls in E as (st2 & (_ & _ & new & Hc & Hn) & _ & E).
  injection E as <-. exists (pos st1). rewrite Hc. cbn [caps set_cap].
  rewrite lookup_cap_skip.
  - cbn. now rewrite Nat.eqb_refl.
  - eapply Forall_impl; [|exact Hn]. intros e He Heq.
    simpl in *. subst i. contradiction.
Qed.

Lemma search_from_match (r : regex) (s pre : str) (m : rmatch) :
  search_from r pre s = Some m ->
  exists pre' s', match_at r pre' s' = Some m /\ rev pre' ++ s' = rev pre ++ s.
Proof.
  revert pre; induction s as [|c s IH]; intros pre; simpl.
  - destruct (match_at r pre []) eqn:E; [|discriminate].
    intros H. injection H as <-. now exists pre, [].
  - destruct (match_at r pre (c :: s)) eqn:E.
    + intros H. injection H as <-. now exists pre, (c :: s).
    + intros H. apply IH in H as [pre' [s' [H E']]].
      exists pre', s'. split; auto. rewrite E'. simpl. now rewrite <- app_assoc.
Qed.

Lemma finditer_go_match (r : regex) (fuel : nat) (pre s : str) (m : rmatch) :
  In m (finditer_go fuel r pre s) ->
  exists pre' s', match_at r pre' s' = Some m /\ rev pre' ++ s' = rev pre ++ s.
Proof.
  revert pre s; induction fuel as [|fuel IH]; intros pre s; simpl.
  - intros [].
  - destruct (search_from r pre s) as [m0|] eqn:E; [|intros []].
    intros [<- | H].
    + now apply search_from_match.
    + apply IH in H as [pre' [s' [H E']]]. exists pre', s'. split; auto.
      rewrite E', rev_app_distr, rev_involutive, <- app_assoc.
      now rewrite firstn_skipn.
Qed.

(** Every match of [finditer] is a match of the pattern at some place of
    the subject. *)
Lemma finditer_match (r : regex) (s : str) (m : rmatch) :
  In m (finditer r s) ->
  exists pre' s', match_at r pre' s' = Some m /\ rev pre' ++ s' = s.
Proof. apply finditer_go_match. Qed.

End ReFacts.

(** ** C1: the description of the block comment *)

Module DescriptionFacts.
Import PyStr PyStrFacts Parser Claimed.

Lemma dropWhile_head {A} (p : A -> bool) (l : list A) (x : A) (t : list A) :
  dropWhile p l = x :: t -> p x = false.
Proof.
  induction l as [|y l IH]; simpl; [discriminate|].
  destruct (p y) eqn:E; [exact IH|]. intros H. injection H as <- _. exact E.
Qed.

Lemma dropWhile_suffix {A} (p : A -> bool) (l : list A) :
  exists a, l = a ++ dropWhile p l.
Proof.
  induction l as [|y l [a IH]]; simpl; [now exists []|].
  destruct (p y); [|now exists []]. exists (y :: a). simpl. now f_equal.
Qed.

Lemma dropWhile_id (p : ascii -> bool) (l : str) :
  Re.head_is p l = false -> dropWhile p l = l.
Proof. destruct l; simpl; [reflexivity|]. now intros ->. Qed.

Lemma head_is_false (p : ascii -> bool) (l : str) :
  (forall x t, l = x :: t -> p x = false) -> Re.head_is p l = false.
Proof. destruct l; simpl; eauto. Qed.

Lemma strip_trimmed (s : str) : trimmed (strip s).
Proof.
  unfold trimmed, strip, rstrip, lstrip. rewrite rev_involutive. split.
  - set (u := dropWhile is_space s).
    destruct (dropWhile_suffix is_space (rev u)) as [a E].
    apply (f_equal (@rev _)) in E. rewrite rev_involutive, rev_app_distr in E.
    apply head_is_false. intros x t Hx. rewrite Hx in E. simpl in E.
    eapply dropWhile_head. unfold u in E. exact E.
  - apply head_is_false. intros x t. apply dropWhile_head.
Qed.

Lemma strip_of_trimmed (s : str) : trimmed s -> strip s = s.
Proof.
  intros [H1 H2]. unfold strip, rstrip, lstrip.
  rewrite (dropWhile_id _ s H1), (dropWhile_id _ (rev s) H2).
  apply rev_involutive.
Qed.

Lemma head_is_app (p : ascii -> bool) (a b : str) :
  a <> [] -> Re.head_is p (a ++ b) = Re.head_is p a.
Proof. destruct a; [congruence | reflexivity]. Qed.

Lemma join_nonempty (sep : str) (l : list str) :
  l <> [] -> Forall (fun s => s <> []) l -> join sep l <> [].
Proof.
  destruct l as [|p ps]; [congruence|]. intros _ H. inversion H; subst.
  destruct ps; simpl; [assumption|]. destruct p; [congruence | discriminate].
Qed.

Lemma join_trimmed (l : list str) :
  Forall trimmed l -> Forall (fun s => s <> []) l -> trimmed (join " " l).
Proof.
  induction l as [|p ps IH]; intros Ht Hn.
  - now split.
  - inversion Ht as [|? ? [Hp1 Hp2] Ht']; inversion Hn as [|? ? Hp Hn']; subst.
    destruct ps as [|p' ps]; [now split|].
    rewrite join_cons by discriminate.
    destruct (IH Ht' Hn') as [_ IH2].
    assert (Hj : join " " (p' :: ps) <> [])
      by (apply join_nonempty; [discriminate | assumption]).
    split.
    + now rewrite head_is_app.
    + rewrite !rev_app_distr, <- app_assoc. rewrite head_is_app; [exact IH2|].
      intros E. apply (f_equal (@rev _)) in E. rewrite rev_involutive in E.
      contradiction.
Qed.

(** The loop once the title has been passed. *)
Lemma desc_lines_after_title (ls : list str) :
  block_desc_lines true ls
  = filter truthy (takeWhile (fun l => negb (is_tag l)) (map strip ls)).
Proof.
  unfold is_tag. induction ls as [|l ls IH]; [reflexivity|].
  cbn [block_desc_lines map takeWhile negb andb].
  destruct (startswith "@" (strip l)); [reflexivity|].
  cbn [negb filter]. rewrite IH. now destruct (truthy (strip l)).
Qed.

(** The loop from its start. *)
Lemma desc_lines_from_start (ls : list str) :
  block_desc_lines false ls
  = filter truthy
      (takeWhile (fun l => negb (is_tag l))
         (tl (dropWhile untitled (map strip ls)))).
Proof.
  pose proof desc_lines_after_title as Hafter.
  unfold untitled, is_tag in *.
  induction ls as [|l ls IH]; [reflexivity|].
  cbn [block_desc_lines map dropWhile negb andb].
  destruct (truthy (strip l)); cbn [negb andb orb].
  - destruct (startswith "@" (strip l)); cbn [negb tl].
    + exact IH.
    + apply Hafter.
  - exact IH.
Qed.

Lemma filter_truthy_nonempty (l : list str) :
  Forall (fun s => s <> []) (filter truthy l).
Proof.
  apply Forall_forall. intros s H. apply filter_In in H as [_ H].
  now destruct s.
Qed.

Lemma collected_trimmed (ls : list str) :
  Forall trimmed
    (filter truthy
       (takeWhile (fun l => negb (is_tag l))
          (tl (dropWhile untitled (map strip ls))))).
Proof.
  apply Forall_forall. intros s H. apply filter_In in H as [H _].
  assert (Hin : In s (map strip ls)).
  { destruct (dropWhile_suffix untitled (map strip ls)) as [a E].
    rewrite E. apply in_or_app. right.
    destruct (dropWhile untitled (map strip ls)) as [|x t]; [destruct H|].
    right. simpl in H. clear E.
    induction t as [|y t IHt]; simpl in H; [destruct H|].
    destruct (negb (is_tag y)); [|destruct H].
    destruct H as [<- | H]; [now left | right; auto]. }
  apply in_map_iff in Hin as [l [<- _]]. apply strip_trimmed.
Qed.

Lemma block_description_described (block : str) :
  block_description block = described block.
Proof.
  unfold block_description, described, trimmed_lines.
  rewrite desc_lines_from_start. apply strip_of_trimmed.
  apply join_trimmed; [apply collected_trimmed | apply filter_truthy_nonempty].
Qed.

Lemma dropWhile_all {A} (p : A -> bool) (l : list A) :
  forallb p l = true -> dropWhile p l = [].
Proof.
  induction l as [|x l IH]; simpl; [reflexivity|].
  destruct (p x); [exact IH | discriminate].
Qed.

End DescriptionFacts.

Module TitleFacts.
Import PyStr PyStrFacts Parser Claimed.

(** Where no tag line comes before the title, the lines after the title
    up to the first tag line are the lines before the first tag line
    without the title. *)
Lemma title_first (ls : list str) :
  (forall l, hd_error (filter truthy ls) = Some l -> is_tag l = false) ->
  takeWhile (fun l => negb (is_tag l)) (tl (dropWhile untitled ls))
  = tl (dropWhile (fun l => negb (truthy l))
          (takeWhile (fun l => negb (is_tag l)) ls)).
Proof.
  induction ls as [|x ls IH]; intros H; [reflexivity|].
  cbn [dropWhile takeWhile]. unfold untitled at 1.
  destruct x as [|c x].
  - cbn. apply IH. exact H.
  - cbn [truthy negb orb filter hd_error] in *.
    rewrite (H (c :: x) eq_refl). reflexivity.
Qed.

Lemma described_before_first_tag (block : str) :
  (forall l, first_line block = Some l -> is_tag l = false) ->
  described block = before_first_tag block.
Proof.
  intros H. unfold described, before_first_tag.
  now rewrite title_first.
Qed.

End TitleFacts.

(** C1.  The code does not end the description at a tag line that comes
    before the title.  In the body of this block comment the first
    non-empty line is a tag line: by the last clause of the claim, and
    by the comment of line 56 (the lines before the first tag), the
    description is empty; the code takes the next line for the title and
    gives the line after it.  Where the first non-empty line of the body
    is no tag line, the description taken from the block is the one the
    claim describes, as for the block of the specification's example. *)
Theorem C1_tag_before_title :
  Parser.block_of Sample.tag_first_source = Some Sample.tag_first_block
  /\ Claimed.first_line Sample.tag_first_block = Some ("@module foo" : str)
  /\ Claimed.before_first_tag Sample.tag_first_block = []
  /\ Parser.block_description Sample.tag_first_block = "Desc"
  /\ Parser.parse_description Sample.tag_first_source = "Desc"
  /\ (forall block,
        (forall l, Claimed.first_line block = Some l ->
                   Claimed.is_tag l = false) ->
        Parser.block_description block = Claimed.before_first_tag block)
  /\ (Parser.block_of Sample.titled_source = Some Sample.titled_block
      /\ Claimed.before_first_tag Sample.titled_block = "Does the thing."
      /\ Parser.parse_description Sample.titled_source
         = "Does the thing.").
Proof.
  repeat (split; [vm_compute; reflexivity|]).
  split; [|repeat split; vm_compute; reflexivity].
  intros block H. rewrite DescriptionFacts.block_description_described.
  now apply TitleFacts.described_before_first_tag.
Qed.

(** ** C2: the metadata tags *)

Module TagFacts.
Import PyStr PyStrFacts Re Parser Claimed.

(** The state after the characters [w] have been passed. *)
Lemma mstate_eta (st : mstate) : MState (before st) (rest st) (caps st) = st.
Proof. now destruct st. Qed.

Lemma run_chr (c : ascii) (st : mstate) (k : cont) :
  run (chr c) st k
  = match rest st with
    | x :: t => if Ascii.eqb c x
                then k (MState (c :: before st) t (caps st)) else None
    | [] => None
    end.
Proof.
  cbn. unfold advance, only. destruct (rest st) as [|x t]; auto.
  destruct (Ascii.eqb_spec c x) as [->|]; reflexivity.
Qed.

(** A literal matches exactly when the subject goes on with it. *)
Lemma run_lit (s : str) (k : cont) (st : mstate) :
  run (lit s) st k
  = if startswith s (rest st)
    then k (MState (rev s ++ before st) (skipn (length s) (rest st)) (caps st))
    else None.
Proof.
  revert st; induction s as [|c s IH]; intros st.
  - cbn. now rewrite mstate_eta.
  - destruct s as [|c' s].
    + change (lit [c]) with (chr c). rewrite run_chr. cbn.
      destruct (rest st) as [|x t]; auto.
      now destruct (Ascii.eqb c x).
    + change (lit (c :: c' :: s)) with (Cat (chr c) (lit (c' :: s))).
      cbn [run]. rewrite run_chr.
      destruct (rest st) as [|x t] eqn:Er; [reflexivity|].
      change (startswith (c :: c' :: s) (x :: t))
        with (Ascii.eqb c x && startswith (c' :: s) t).
      destruct (Ascii.eqb c x); [|reflexivity].
      rewrite IH. cbn [rest before caps andb].
      destruct (startswith (c' :: s) t); [|reflexivity].
      change (skipn (length (c :: c' :: s)) (x :: t))
        with (skipn (length (c' :: s)) t).
      do 2 f_equal. change (rev (c :: c' :: s)) with (rev (c' :: s) ++ [c]).
      now rewrite <- app_assoc.
Qed.

Lemma run_cls_fail (p : ascii -> bool) (st : mstate) (k : cont) :
  head_is p (rest st) = false -> run (Cls p) st k = None.
Proof.
  cbn. unfold advance. destruct (rest st) as [|x t]; [reflexivity|].
  simpl. now intros ->.
Qed.

Lemma run_cls_ok (p : ascii -> bool) (st : mstate) (k : cont) (x : ascii)
  (t : str) :
  rest st = x :: t -> p x = true ->
  run (Cls p) st k = k (MState (x :: before st) t (caps st)).
Proof. cbn. unfold advance. now intros -> ->. Qed.

(** A greedy repeat of one class takes the whole run of the class when
    the rest of the pattern matches after it. *)
Lemma rep_loop_greedy_run (p : ascii -> bool) (lo : nat) (k : cont)
  (sf : mstate) (w t : str) :
  forallb p w = true -> head_is p t = false ->
  forall fuel n st,
    rest st = w ++ t -> length (rest st) < fuel -> lo <= n + length w ->
    k (MState (rev w ++ before st) t (caps st)) = Some sf ->
    rep_loop (run (Cls p)) true lo None k fuel n st = Some sf.
Proof.
  intros Hw Ht. induction w as [|x w IH]; intros fuel n st Hr Hf Hlo Hk.
  - destruct fuel as [|fuel]; [lia|]. cbn [rep_loop below orelse].
    simpl in Hr. rewrite run_cls_fail by now rewrite Hr.
    replace (lo <=? n) with true
      by (symmetry; apply Nat.leb_le; simpl in Hlo; lia).
    simpl in Hk. rewrite <- Hr in Hk. now rewrite mstate_eta in Hk.
  - destruct fuel as [|fuel]; [lia|]. cbn [rep_loop below orelse].
    simpl in Hw. apply andb_true_iff in Hw as [Hx Hw].
    rewrite (run_cls_ok p st _ x (w ++ t) Hr Hx). cbn [rest].
    replace (length (w ++ t) <? length (rest st)) with true
      by (symmetry; apply Nat.ltb_lt; rewrite Hr; simpl; lia).
    rewrite (IH Hw fuel (S n) (MState (x :: before st) (w ++ t) (caps st)));
      auto.
    + cbn [rest]. rewrite Hr in Hf. simpl in Hf. lia.
    + simpl in Hlo. simpl. lia.
    + cbn [before caps]. simpl in Hk. now rewrite <- app_assoc in Hk.
Qed.

Lemma run_plus_run (p : ascii -> bool) (k : cont) (sf st : mstate)
  (w t : str) :
  w <> [] -> forallb p w = true -> head_is p t = false ->
  rest st = w ++ t ->
  k (MState (rev w ++ before st) t (caps st)) = Some sf ->
  run (plus (Cls p)) st k = Some sf.
Proof.
  intros Hn Hw Ht Hr Hk. unfold plus. cbn [run].
  eapply rep_loop_greedy_run; eauto.
  destruct w; [congruence | simpl; lia].
Qed.

Lemma head_is_app_l (p : ascii -> bool) (a b : str) :
  a <> [] -> head_is p (a ++ b) = head_is p a.
Proof. destruct a; [congruence | reflexivity]. Qed.

(** The tag pattern at a place where the tag is followed by white space
    [ws] and then by the payload, which runs to the end of its line. *)
Lemma match_at_tag (tag pre ws payload tail : str) :
  ws <> [] -> forallb is_space ws = true ->
  payload <> [] -> head_is is_space payload = false ->
  forallb (except nl) payload = true -> head_is (except nl) tail = false ->
  match_at (tag_pattern tag) pre (tag ++ ws ++ payload ++ tail)
  = Some (RMatch (length pre)
            (length (rev payload ++ rev ws ++ rev tag ++ pre))
            [(1, (length (rev ws ++ rev tag ++ pre),
                  length (rev payload ++ rev ws ++ rev tag ++ pre)))]).
Proof.
  intros Hws Hsp Hpl Hph Hpn Htl.
  set (st1 := MState (rev tag ++ pre) (ws ++ payload ++ tail) []).
  set (st2 := MState (rev ws ++ rev tag ++ pre) (payload ++ tail) []).
  set (st3 := MState (rev payload ++ rev ws ++ rev tag ++ pre) tail []).
  assert (H3 : run (plus (Cls (except nl))) st2
                 (fun st' => Some (set_cap 1 (pos st2) (pos st') st'))
               = Some (set_cap 1 (pos st2) (pos st3) st3)).
  { apply (run_plus_run _ _ _ _ payload tail); auto. }
  assert (H2 : run (plus space) st1
                 (fun st' => run (Group 1 (plus (Cls (except nl)))) st' Some)
               = Some (set_cap 1 (pos st2) (pos st3) st3)).
  { apply (run_plus_run _ _ _ _ ws (payload ++ tail)); auto.
    now rewrite head_is_app_l. }
  unfold match_at, tag_pattern. cbn [cat run].
  rewrite run_lit. cbn [rest before caps]. rewrite startswith_prefix.
  rewrite skipn_app, skipn_all, Nat.sub_diag. cbn [skipn app].
  fold st1. cbn [run] in H2. rewrite H2. reflexivity.
Qed.

Lemma match_at_tag_fail (tag pre s : str) :
  startswith tag s = false -> match_at (tag_pattern tag) pre s = None.
Proof.
  intros H. unfold match_at, tag_pattern. cbn [cat run].
  rewrite run_lit. cbn [rest]. now rewrite H.
Qed.

(** The search passes over the places where the pattern does not
    match. *)
Lemma search_from_skip (r : regex) (a pre s : str) :
  (forall a1 a2, a = a1 ++ a2 -> a2 <> [] ->
                 match_at r (rev a1 ++ pre) (a2 ++ s) = None) ->
  search_from r pre (a ++ s) = search_from r (rev a ++ pre) s.
Proof.
  revert pre; induction a as [|c a IH]; intros pre H; [reflexivity|].
  cbn [app search_from].
  pose proof (H [] (c :: a) eq_refl ltac:(discriminate)) as H0.
  cbn [rev app] in H0. rewrite H0.
  rewrite IH.
  - cbn [rev]. now rewrite <- app_assoc.
  - intros a1 a2 E Hn. specialize (H (c :: a1) a2).
    cbn [rev app] in H. rewrite <- app_assoc in H. apply H; [|exact Hn].
    now rewrite E.
Qed.

Lemma search_from_none (r : regex) (s pre : str) :
  (forall a1 a2, s = a1 ++ a2 -> match_at r (rev a1 ++ pre) a2 = None) ->
  search_from r pre s = None.
Proof.
  revert pre; induction s as [|c s IH]; intros pre H.
  - pose proof (H [] [] eq_refl) as H0. cbn [rev app] in H0.
    cbn [search_from]. now rewrite H0.
  - pose proof (H [] (c :: s) eq_refl) as H0. cbn [rev app] in H0.
    cbn [search_from]. rewrite H0. apply IH.
    intros a1 a2 E. specialize (H (c :: a1) a2). cbn [rev app] in H.
    rewrite <- app_assoc in H. apply H. now rewrite E.
Qed.

Lemma search_from_here (r : regex) (pre s : str) (m : rmatch) :
  match_at r pre s = Some m -> search_from r pre s = Some m.
Proof. intros H. destruct s; cbn; now rewrite H. Qed.

Lemma takeWhile_dropWhile {A} (p : A -> bool) (l : list A) :
  l = takeWhile p l ++ dropWhile p l.
Proof.
  induction l as [|x l IH]; simpl; [reflexivity|].
  destruct (p x); simpl; [now f_equal | reflexivity].
Qed.

Lemma forallb_takeWhile {A} (p : A -> bool) (l : list A) :
  forallb p (takeWhile p l) = true.
Proof.
  induction l as [|x l IH]; simpl; [reflexivity|].
  destruct (p x) eqn:E; simpl; [now rewrite E | reflexivity].
Qed.

(** Where the specification finds the remainder of the tag line. *)
Lemma line_after_split (tag s r : str) :
  line_after tag s = Some r ->
  exists a tail,
    s = a ++ tag ++ r ++ tail
    /\ (forall a1 a2, a = a1 ++ a2 -> a2 <> [] ->
          startswith tag (a2 ++ tag ++ r ++ tail) = false)
    /\ forallb (except nl) r = true
    /\ head_is (except nl) tail = false.
Proof.
  induction s as [|c s IH].
  - cbn [line_after]. destruct (startswith tag []) eqn:E; [|discriminate].
    intros H. injection H as <-. exists [], [].
    apply startswith_skipn in E.
    destruct tag; [|discriminate]. repeat split; auto.
    intros a1 a2 Ha. destruct a1; destruct a2; try discriminate. congruence.
  - cbn [line_after]. destruct (startswith tag (c :: s)) eqn:E.
    + intros H. injection H as <-.
      set (u := skipn (length tag) (c :: s)).
      exists [], (dropWhile (except nl) u). split; [|split; [|split]].
      * cbn [app]. rewrite <- takeWhile_dropWhile.
        now apply startswith_skipn.
      * intros a1 a2 Ha. destruct a1; destruct a2; try discriminate.
        congruence.
      * apply forallb_takeWhile.
      * apply DescriptionFacts.head_is_false. intros x t.
        apply DescriptionFacts.dropWhile_head.
    + intros H. destruct (IH H) as (a & tail & -> & Hf & Hr & Ht).
      exists (c :: a), tail. split; [reflexivity|]. split; [|now split].
      intros a1 a2 Ha Hn. destruct a1 as [|x a1].
      * cbn [app] in Ha. subst a2. exact E.
      * cbn [app] in Ha. injection Ha as _ Ha. now apply Hf with a1.
Qed.

Lemma skipn_length_app {A} (x y : list A) (n : nat) :
  length x = n -> skipn n (x ++ y) = y.
Proof. intros <-. now rewrite skipn_app, skipn_all, Nat.sub_diag. Qed.

Lemma firstn_length_app {A} (x y : list A) (n : nat) :
  length x = n -> firstn n (x ++ y) = x.
Proof.
  intros <-. now rewrite firstn_app, firstn_all, Nat.sub_diag, app_nil_r.
Qed.

(** When white space and then a payload follow the first occurrence of
    the tag on its line, the tag value is the trimmed remainder of the
    line. *)
Lemma tag_value_of_line (tag block r : str) :
  line_after tag block = Some r ->
  head_is is_space r = true -> strip r <> [] ->
  tag_value tag block = Some (strip r).
Proof.
  intros Hl Hs Hn.
  destruct (line_after_split _ _ _ Hl) as (a & tail & -> & Hf & Hr & Ht).
  set (ws := takeWhile is_space r). set (payload := dropWhile is_space r).
  assert (Er : r = ws ++ payload) by apply takeWhile_dropWhile.
  assert (Hpl : payload <> []).
  { intros E. apply Hn. unfold strip, lstrip. fold payload. now rewrite E. }
  assert (Hph : head_is is_space payload = false).
  { apply DescriptionFacts.head_is_false. intros x t.
    apply DescriptionFacts.dropWhile_head. }
  assert (Hws : ws <> []).
  { unfold ws. destruct r as [|x r0]; [discriminate|]. simpl in Hs.
    simpl. now rewrite Hs. }
  assert (Hsp : forallb is_space ws = true) by apply forallb_takeWhile.
  assert (Hpn : forallb (except nl) payload = true).
  { rewrite Er, forallb_app in Hr. now apply andb_true_iff in Hr. }
  assert (Hstrip : strip r = strip payload).
  { unfold strip, lstrip at 2. fold payload.
    now rewrite (DescriptionFacts.dropWhile_id _ payload Hph). }
  rewrite Hstrip. unfold tag_value, search.
  rewrite search_from_skip.
  2:{ intros a1 a2 Ha Ha2. apply match_at_tag_fail. eauto. }
  rewrite Er, <- app_assoc.
  rewrite (search_from_here _ _ _ _
             (match_at_tag tag (rev a ++ []) ws payload tail
                Hws Hsp Hpl Hph Hpn Ht)).
  unfold group. cbn [m_caps lookup_cap Nat.eqb]. unfold slice.
  cbn [option_map]. do 2 f_equal.
  replace (a ++ tag ++ ws ++ payload ++ tail)
    with ((a ++ tag ++ ws) ++ payload ++ tail)
    by now rewrite <- !app_assoc.
  rewrite skipn_length_app.
  - apply firstn_length_app. rewrite !length_app, !length_rev.
    cbn [length]. lia.
  - rewrite !length_app, !length_rev. cbn [length]. lia.
Qed.

(** A block in which the tag does not occur has no tag value. *)
Lemma tag_value_absent (tag block : str) :
  contains tag block = false -> tag_value tag block = None.
Proof.
  intros H. unfold tag_value, search. rewrite search_from_none; [reflexivity|].
  intros a1 a2 ->. apply match_at_tag_fail.
  destruct (startswith tag a2) eqn:E; [|reflexivity].
  rewrite <- H. symmetry. apply contains_app_r.
  destruct a2; simpl; now rewrite E.
Qed.

End TagFacts.

(** ** The assignment of the version in the code *)

Module VersionFacts.
Import PyStr PyStrFacts Re Parser Claimed TagFacts.

Lemma run_seq (a b : regex) (st : mstate) (k : cont) :
  run (Cat a b) st k = run a st (fun st' => run b st' k).
Proof. reflexivity. Qed.

Lemma run_capture (i : nat) (a : regex) (st : mstate) (k : cont) :
  run (Group i a) st k
  = run a st (fun st' => k (set_cap i (pos st) (pos st') st')).
Proof. reflexivity. Qed.

(** The text between two places of the subject. *)
Lemma slice_between (b w t : str) :
  slice (length b) (length b + length w) (rev b ++ w ++ t) = w.
Proof.
  unfold slice. rewrite skipn_length_app by apply length_rev.
  replace (length b + length w - length b) with (length w) by lia.
  now apply firstn_length_app.
Qed.

(** A greedy repeat of one class, when the rest of the pattern cannot
    match where a character of the class is ahead: it takes the whole
    run of the class, or fails. *)
Lemma rep_loop_greedy_exact (p : ascii -> bool) (lo : nat) (k : cont) :
  (forall st, head_is p (rest st) = true -> k st = None) ->
  forall w t, forallb p w = true -> head_is p t = false ->
  forall fuel n st,
    rest st = w ++ t -> length (rest st) < fuel ->
    rep_loop (run (Cls p)) true lo None k fuel n st
    = if lo <=? n + length w
      then k (MState (rev w ++ before st) t (caps st)) else None.
Proof.
  intros Hk w t Hw Ht. induction w as [|x w IH]; intros fuel n st Hr Hf.
  - destruct fuel as [|fuel]; [lia|]. cbn [rep_loop below orelse].
    cbn [app] in Hr. rewrite run_cls_fail by now rewrite Hr.
    cbn [length rev app]. rewrite Nat.add_0_r.
    rewrite <- Hr, mstate_eta. reflexivity.
  - destruct fuel as [|fuel]; [lia|]. cbn [rep_loop below orelse].
    cbn [forallb] in Hw. apply andb_true_iff in Hw as [Hx Hw].
    cbn [app] in Hr.
    rewrite (run_cls_ok p st _ x (w ++ t) Hr Hx). cbn [rest].
    replace (length (w ++ t) <? length (rest st)) with true
      by (symmetry; apply Nat.ltb_lt; rewrite Hr; simpl; lia).
    rewrite (IH Hw fuel (S n) (MState (x :: before st) (w ++ t) (caps st)));
      [|reflexivity | cbn [rest]; rewrite Hr in Hf; simpl in Hf; lia].
    cbn [before caps length rev]. rewrite <- app_assoc. cbn [app].
    replace (S n + length w) with (n + S (length w)) by lia.
    destruct (lo <=? n + S (length w)).
    + destruct (k _) eqn:E; [reflexivity|].
      rewrite Hk by (rewrite Hr; exact Hx). now destruct (lo <=? n).
    + rewrite Hk by (rewrite Hr; exact Hx). now destruct (lo <=? n).
Qed.

Lemma head_is_dropWhile (p : ascii -> bool) (s : str) :
  head_is p (dropWhile p s) = false.
Proof.
  apply DescriptionFacts.head_is_false. intros x t.
  apply DescriptionFacts.dropWhile_head.
Qed.

Lemma run_star_exact (p : ascii -> bool) (k : cont) (st : mstate) :
  (forall st', head_is p (rest st') = true -> k st' = None) ->
  run (star (Cls p)) st k
  = k (MState (rev (takeWhile p (rest st)) ++ before st)
              (dropWhile p (rest st)) (caps st)).
Proof.
  intros Hk. unfold star. cbn [run].
  rewrite (rep_loop_greedy_exact p 0 k Hk (takeWhile p (rest st))
             (dropWhile p (rest st))).
  - reflexivity.
  - apply forallb_takeWhile.
  - apply head_is_dropWhile.
  - apply takeWhile_dropWhile.
  - lia.
Qed.

Lemma run_plus_exact (p : ascii -> bool) (k : cont) (st : mstate) :
  (forall st', head_is p (rest st') = true -> k st' = None) ->
  run (plus (Cls p)) st k
  = if truthy (takeWhile p (rest st))
    then k (MState (rev (takeWhile p (rest st)) ++ before st)
                   (dropWhile p (rest st)) (caps st))
    else None.
Proof.
  intros Hk. unfold plus. cbn [run].
  rewrite (rep_loop_greedy_exact p 1 k Hk (takeWhile p (rest st))
             (dropWhile p (rest st))).
  - cbn [Nat.add]. now destruct (takeWhile p (rest st)).
  - apply forallb_takeWhile.
  - apply head_is_dropWhile.
  - apply takeWhile_dropWhile.
  - lia.
Qed.

(** A letter of the keyword in either case. *)
Lemma either_same (c : ascii) :
  In c (list_ascii_of_string "version") ->
  forall x, either_case c x = same_letter c x.
Proof.
  intros H x. cbn in H.
  destruct H as [<- | [<- | [<- | [<- | [<- | [<- | [<- | []]]]]]]];
    destruct x as [[] [] [] [] [] [] [] []]; reflexivity.
Qed.

(** The keyword in any case matches exactly where the subject goes on
    with it. *)
Lemma run_lit_ci (kw : str) (k : cont) :
  (forall c, In c kw -> forall x, either_case c x = same_letter c x) ->
  forall st,
    run (lit_ci kw) st k
    = if keyword_at kw (rest st)
      then k (MState (rev (firstn (length kw) (rest st)) ++ before st)
                     (skipn (length kw) (rest st)) (caps st))
      else None.
Proof.
  induction kw as [|c kw IH]; intros Hc st.
  - cbn. now rewrite mstate_eta.
  - assert (Hkw : forall c', In c' kw ->
              forall x, either_case c' x = same_letter c' x)
      by (intros c' H'; apply Hc; now right).
    assert (Hhead : forall k', run (Cls (either_case c)) st k'
              = match rest st with
                | x :: t => if same_letter c x
                            then k' (MState (x :: before st) t (caps st))
                            else None
                | [] => None
                end).
    { intros k'. cbn [run]. unfold advance.
      destruct (rest st) as [|x t]; [reflexivity|].
      now rewrite (Hc c (or_introl eq_refl)). }
    destruct kw as [|c' kw].
    + change (lit_ci [c]) with (Cls (either_case c)).
      etransitivity; [apply Hhead|].
      destruct (rest st) as [|x t]; [reflexivity|].
      cbn. rewrite andb_true_r. reflexivity.
    + change (lit_ci (c :: c' :: kw))
        with (Cat (Cls (either_case c)) (lit_ci (c' :: kw))).
      cbn [run]. etransitivity; [apply Hhead|].
      destruct (rest st) as [|x t]; [reflexivity|].
      change (keyword_at (c :: c' :: kw) (x :: t))
        with (same_letter c x && keyword_at (c' :: kw) t).
      destruct (same_letter c x); [|reflexivity].
      rewrite (IH Hkw). cbn [rest before caps andb].
      destruct (keyword_at (c' :: kw) t); [|reflexivity].
      change (firstn (length (c :: c' :: kw)) (x :: t))
        with (x :: firstn (length (c' :: kw)) t).
      change (skipn (length (c :: c' :: kw)) (x :: t))
        with (skipn (length (c' :: kw)) t).
      cbn [rev]. now rewrite <- app_assoc.
Qed.

Lemma run_quote (st : mstate) (k : cont) :
  run (Cls quote) st k
  = match rest st with
    | x :: t => if quote x then k (MState (x :: before st) t (caps st))
                else None
    | [] => None
    end.
Proof. cbn [run]. unfold advance. now destruct (rest st). Qed.

Lemma firstn_skipn_rev {A} (n : nat) (s pre : list A) :
  rev (rev (firstn n s) ++ pre) ++ skipn n s = rev pre ++ s.
Proof.
  rewrite rev_app_distr, rev_involutive, <- app_assoc.
  now rewrite firstn_skipn.
Qed.

(** The assignment pattern at one place: it matches exactly where the
    specification finds an assignment, and its group is the literal. *)
Lemma match_at_assignment (pre s : str) :
  match match_at code_version_pattern pre s with
  | Some m => group (rev pre ++ s) m 1
  | None => None
  end = assignment_at s
  /\ (assignment_at s = None -> match_at code_version_pattern pre s = None).
Proof.
  unfold match_at, code_version_pattern, assignment_at, space. cbn [cat].
  rewrite run_seq, run_lit_ci by exact either_same.
  cbn [rest before caps].
  destruct (keyword_at "version" s); [|now split].
  change (length (list_ascii_of_string "version")) with 7.
  set (b1 := rev (firstn 7 s) ++ pre).
  assert (S1 : rev b1 ++ skipn 7 s = rev pre ++ s)
    by apply firstn_skipn_rev.
  generalize dependent b1. generalize (skipn 7 s) as r1. intros r1 b1 S1.
  rewrite run_seq, run_star_exact.
  2:{ intros st' H. rewrite run_seq, run_chr.
      destruct (rest st') as [|x t]; [reflexivity|]. cbn in H.
      destruct (Ascii.eqb_spec "=" x) as [<-|]; [discriminate | reflexivity]. }
  cbn [rest before caps].
  set (b2 := rev (takeWhile is_space r1) ++ b1).
  assert (S2 : rev b2 ++ dropWhile is_space r1 = rev pre ++ s).
  { unfold b2. rewrite rev_app_distr, rev_involutive, <- app_assoc.
    now rewrite <- takeWhile_dropWhile. }
  generalize dependent b2. generalize (dropWhile is_space r1) as r2.
  intros r2 b2 S2.
  rewrite run_seq, run_chr. cbn [rest before caps].
  destruct r2 as [|c r3]; [now split|].
  destruct (Ascii.eqb_spec "=" c) as [<-|]; [|now split].
  set (b3 := "="%char :: b2).
  assert (S3 : rev b3 ++ r3 = rev pre ++ s).
  { unfold b3. cbn [rev]. now rewrite <- app_assoc. }
  generalize dependent b3. intros b3 S3.
  rewrite run_seq, run_star_exact.
  2:{ intros st' H. rewrite run_seq, run_quote.
      destruct (rest st') as [|x t]; [reflexivity|]. cbn in H.
      unfold quote, dq, sq.
      destruct x as [[] [] [] [] [] [] [] []]; try reflexivity;
        discriminate. }
  cbn [rest before caps].
  set (b4 := rev (takeWhile is_space r3) ++ b3).
  assert (S4 : rev b4 ++ dropWhile is_space r3 = rev pre ++ s).
  { unfold b4. rewrite rev_app_distr, rev_involutive, <- app_assoc.
    now rewrite <- takeWhile_dropWhile. }
  generalize dependent b4. generalize (dropWhile is_space r3) as r4.
  intros r4 b4 S4.
  rewrite run_seq, run_quote. cbn [rest before caps].
  destruct r4 as [|q1 r5]; [now split|].
  destruct (quote q1); [|now split].
  set (b5 := q1 :: b4).
  assert (S5 : rev b5 ++ r5 = rev pre ++ s).
  { unfold b5. cbn [rev]. now rewrite <- app_assoc. }
  generalize dependent b5. intros b5 S5.
  rewrite run_seq, run_capture, run_plus_exact.
  2:{ intros st' H. rewrite run_quote. unfold set_cap. cbn [rest].
      destruct (rest st') as [|x t]; [reflexivity|]. cbn in H.
      apply negb_true_iff in H. now rewrite H. }
  cbn [rest before caps].
  set (lit := takeWhile (fun x => negb (quote x)) r5).
  set (r6 := dropWhile (fun x => negb (quote x)) r5).
  assert (E5 : r5 = lit ++ r6) by apply takeWhile_dropWhile.
  destruct lit as [|l0 lit'] eqn:El; [now split|].
  cbn [truthy]. rewrite run_quote. unfold set_cap. cbn [rest before caps].
  destruct r6 as [|q2 r7] eqn:E6; [now split|].
  assert (Hq2 : quote q2 = true).
  { pose proof (head_is_dropWhile (fun x => negb (quote x)) r5) as H.
    fold r6 in H. rewrite E6 in H. cbn in H. now apply negb_false_iff. }
  rewrite Hq2. split; [|discriminate].
  unfold group. cbn [m_caps lookup_cap Nat.eqb]. unfold pos.
  cbn [before]. rewrite length_app, length_rev.
  rewrite (Nat.add_comm (length (l0 :: lit'))).
  cbn [caps lookup_cap Nat.eqb]. f_equal. rewrite <- S5, E5.
  apply slice_between.
Qed.

(** The search for the assignment pattern gives the literal of the first
    assignment of the file. *)
Lemma search_assignment (s pre : str) :
  match search_from code_version_pattern pre s with
  | Some m => group (rev pre ++ s) m 1
  | None => None
  end = first_assignment s.
Proof.
  revert pre; induction s as [|c s IH]; intros pre.
  - destruct (match_at_assignment pre []) as [H1 H2].
    cbn [search_from first_assignment].
    destruct (match_at code_version_pattern pre []) as [m|] eqn:E.
    + rewrite H1. now destruct (assignment_at []).
    + rewrite <- H1. reflexivity.
  - destruct (match_at_assignment pre (c :: s)) as [H1 H2].
    cbn [search_from first_assignment].
    destruct (match_at code_version_pattern pre (c :: s)) as [m|] eqn:E.
    + rewrite H1. destruct (assignment_at (c :: s)) eqn:Ea; [reflexivity|].
      specialize (H2 eq_refl). discriminate.
    + rewrite <- H1. rewrite <- (IH (c :: pre)). cbn [rev].
      now rewrite <- app_assoc.
Qed.

Lemma code_version_first_assignment (content : str) :
  code_version content = first_assignment content.
Proof.
  unfold code_version, search. apply (search_assignment content []).
Qed.

End VersionFacts.

(** C2.  A tag that stands alone on its line takes the next line for
    its value.  The body of this block comment holds the three tags and
    nothing follows the version tag on its line: the trimmed remainder
    of that line, which the claim gives for the version, is empty, and
    the parsed version is the author line that comes next, since the
    white space of the pattern runs over the line feed.  A version tag
    followed by blanks only leaves the version empty, and then the
    assignment of the code is consulted although the three tags are
    there.  Where white space and a payload that is not blank follow
    the first occurrence of a tag on its line, the field is the trimmed
    remainder of that line, whatever the code assigns; and where the
    body has no version tag, the parsed version is the literal of the
    first assignment of a quoted string to the version keyword, in any
    case, that the file holds. *)
Theorem C2_tag_without_payload :
  (Parser.block_of Sample.bare_version_source
   = Some Sample.bare_version_block
   /\ PyStr.contains "@version" Sample.bare_version_block = true
   /\ PyStr.contains "@author" Sample.bare_version_block = true
   /\ PyStr.contains "@license" Sample.bare_version_block = true
   /\ option_map PyStr.strip
        (Claimed.line_after "@version" Sample.bare_version_block)
      = Some []
   /\ Parser.parse_version Sample.bare_version_source
      = Some ("@author Ann" : str))
  /\ (Parser.block_of Sample.blank_version_source
      = Some Sample.blank_version_block
      /\ Claimed.line_after "@version" Sample.blank_version_block
         = Some ("  " : str)
      /\ Parser.parse_version Sample.blank_version_source
         = Some ("2.0" : str))
  /\ (forall content block,
        Parser.block_of content = Some block ->
        (forall r, Claimed.line_after "@version" block = Some r ->
           Re.head_is PyStr.is_space r = true -> PyStr.strip r <> [] ->
           Parser.parse_version content = Some (PyStr.strip r))
        /\ (forall r, Claimed.line_after "@author" block = Some r ->
              Re.head_is PyStr.is_space r = true -> PyStr.strip r <> [] ->
              Parser.parse_author content = Some (PyStr.strip r))
        /\ (forall r, Claimed.line_after "@license" block = Some r ->
              Re.head_is PyStr.is_space r = true -> PyStr.strip r <> [] ->
              Parser.parse_license content = Some (PyStr.strip r))
        /\ (PyStr.contains "@version" block = false ->
            Parser.parse_version content
            = Claimed.first_assignment content))
  /\ (Parser.block_of Sample.tagged_source = Some Sample.tagged_block
      /\ Parser.parse_version Sample.tagged_source = Some ("1.2.3" : str)
      /\ Parser.parse_author Sample.tagged_source = Some ("Ann" : str)
      /\ Parser.parse_license Sample.tagged_source = Some ("MIT" : str)
      /\ Parser.parse_version Sample.untagged_source = Some ("0.9" : str)).
Proof.
  split; [|split; [|split]].
  - repeat (split; [vm_compute; reflexivity|]). vm_compute. reflexivity.
  - repeat (split; [vm_compute; reflexivity|]). vm_compute. reflexivity.
  - intros content block Hb. split; [|split; [|split]].
    + intros r Hl Hs Hn. unfold Parser.parse_version, Parser.block_version.
      rewrite Hb, (TagFacts.tag_value_of_line _ _ _ Hl Hs Hn).
      cbn [given]. now destruct (PyStr.strip r).
    + intros r Hl Hs Hn. unfold Parser.parse_author.
      now rewrite Hb, (TagFacts.tag_value_of_line _ _ _ Hl Hs Hn).
    + intros r Hl Hs Hn. unfold Parser.parse_license.
      now rewrite Hb, (TagFacts.tag_value_of_line _ _ _ Hl Hs Hn).
    + intros H. unfold Parser.parse_version, Parser.block_version.
      rewrite Hb, (TagFacts.tag_value_absent _ _ H). cbn [given].
      rewrite <- VersionFacts.code_version_first_assignment.
      now destruct (Parser.code_version content).
  - repeat (split; [vm_compute; reflexivity|]). vm_compute. reflexivity.
Qed.

(** ** The local keyword of a signature match *)

Module SignatureFacts.
Import PyStr Re Parser ReFacts.

Lemma run_cat (a b : regex) (st : mstate) (k : cont) :
  run (Cat a b) st k = run a st (fun st' => run b st' k).
Proof. reflexivity. Qed.

Lemma run_group (i : nat) (a : regex) (st : mstate) (k : cont) :
  run (Group i a) st k
  = run a st (fun st' => k (set_cap i (pos st) (pos st') st')).
Proof. reflexivity. Qed.

(** An optional part was either passed over or matched once. *)
Lemma run_opt (a : regex) (st : mstate) (k : cont) (sf : mstate) :
  run (opt a) st k = Some sf ->
  k st = Some sf
  \/ exists k', run a st k' = Some sf
                /\ forall st', k' st' = Some sf -> k st' = Some sf.
Proof.
  unfold opt. cbn [run rep_loop below]. unfold orelse.
  destruct (run a st _) as [x|] eqn:E.
  - intros H. injection H as ->. right. eexists. split; [exact E|].
    intros st'. cbv beta.
    destruct (length (rest st') <? length (rest st)); [|auto].
    destruct (length (rest st)); [discriminate|].
    cbn. auto.
  - auto.
Qed.

Lemma lookup_cap_none (i : nat) (l : list (nat * (nat * nat))) :
  Forall (fun e => fst e <> i) l -> lookup_cap i l = None.
Proof.
  induction 1 as [|[j sp] l Hj _ IH]; [reflexivity|]. simpl in *.
  destruct (Nat.eqb_spec i j); [congruence | exact IH].
Qed.

Lemma reaches_within (ids : list nat) (st st' : mstate) :
  reaches ids st st' -> pos st' <= length (subject st).
Proof.
  intros (Hs & _). rewrite <- Hs. unfold subject, pos.
  rewrite length_app, length_rev. lia.
Qed.

Lemma reaches_caps (ids : list nat) (st st' : mstate) :
  reaches ids st st' ->
  exists new, caps st' = new ++ caps st
              /\ Forall (fun e => In (fst e) ids) new.
Proof. now intros (_ & _ & H). Qed.

Lemma reaches_subject (ids : list nat) (st st' : mstate) :
  reaches ids st st' -> subject st' = subject st.
Proof. now intros (H & _). Qed.

(** The groups closed are not the one looked for. *)
Ltac other_groups :=
  let e := fresh "e" in
  let He := fresh "He" in
  let Heq := fresh "Heq" in
  intros e He Heq; cbv beta in He; rewrite Heq in He; vm_compute in He;
  intuition discriminate.

(** Group 2 of a signature match, when it took part, spans at least the
    keyword and one character of white space, within the file. *)
Lemma local_group_span (content : str) (m : rmatch) :
  In m (finditer func_pattern content) ->
  match lookup_cap 2 (m_caps m) with
  | Some (a, b) => a + 6 <= b /\ b <= length content
  | None => True
  end.
Proof.
  intros Hin. apply finditer_match in Hin as (pre & s & Hm & Hs).
  unfold match_at in Hm.
  destruct (run func_pattern (MState pre s []) Some) as [sf|] eqn:E;
    [|discriminate].
  injection Hm as <-. cbn [m_caps].
  set (st0 := MState pre s []) in *.
  assert (Hsub : subject st0 = content) by exact Hs.
  unfold func_pattern in E. cbn [cat] in E.
  rewrite run_cat in E. apply run_calls in E as (st1 & R1 & _ & E).
  rewrite run_cat in E. apply run_calls in E as (st2 & R2 & _ & E).
  rewrite run_cat in E. apply run_calls in E as (st3 & R3 & _ & E).
  rewrite run_cat in E.
  assert (R03 : reaches [1] st0 st3).
  { eapply reaches_trans; [|eapply reaches_incl; [|exact R3]].
    - eapply reaches_trans; [|eapply reaches_incl; [|exact R2]].
      + eapply reaches_incl; [|exact R1]. vm_compute. tauto.
      + vm_compute. tauto.
    - vm_compute. tauto. }
  destruct (reaches_caps _ _ _ R03) as (new03 & Hc03 & Hn03).
  cbn [caps st0] in Hc03. rewrite app_nil_r in Hc03.
  apply run_opt in E as [E | (k' & E & Hk')].
  - apply run_calls in E as (st4 & R4 & _ & E). injection E as <-.
    destruct (reaches_caps _ _ _ R4) as (new & Hc & Hn).
    rewrite Hc, Hc03, lookup_cap_none; [exact I|].
    apply Forall_app. split.
    + eapply Forall_impl; [|exact Hn]. other_groups.
    + eapply Forall_impl; [|exact Hn03]. other_groups.
  - rewrite run_group in E. apply run_calls in E as (st4 & R4 & L4 & E).
    apply Hk' in E. apply run_calls in E as (st5 & R5 & _ & E).
    injection E as <-.
    destruct (reaches_caps _ _ _ R5) as (new & Hc & Hn).
    rewrite Hc. cbn [caps set_cap]. rewrite lookup_cap_skip.
    + cbn [lookup_cap Nat.eqb]. split.
      * vm_compute min_len in L4. exact L4.
      * apply reaches_within in R4. apply reaches_subject in R03.
        rewrite R03, Hsub in R4. exact R4.
    + eapply Forall_impl; [|exact Hn]. other_groups.
Qed.

(** The local group of a signature match is absent or not empty: the
    test of its truth is the test of its presence. *)
Lemma signature_local (content : str) (sg : signature) :
  In sg (signatures content) ->
  (given (is_local sg) = true <-> is_local sg <> None).
Proof.
  unfold signatures. intros H. apply in_map_iff in H as (m & <- & Hin).
  apply local_group_span in Hin. cbn [signature_of is_local].
  unfold group. destruct (lookup_cap 2 (m_caps m)) as [[a b]|];
    [|split; [discriminate | congruence]].
  destruct Hin as [Hab Hb]. split; [discriminate|]. intros _.
  cbn [given]. unfold slice.
  destruct (firstn (b - a) (skipn a content)) eqn:E; [|reflexivity].
  apply (f_equal (@length _)) in E.
  rewrite length_firstn, length_skipn in E. simpl in E. lia.
Qed.

End SignatureFacts.

(** ** The functions that are kept *)

Module FunctionFacts.
Import PyStr Re Parser.

Lemma in_somes {A} (x : A) (l : list (option A)) :
  In x (somes l) <-> In (Some x) l.
Proof.
  induction l as [|[y|] l IH]; simpl.
  - tauto.
  - rewrite IH. split; intros [H | H]; auto; left; congruence.
  - rewrite IH. split; [auto | intros [H | H]; [discriminate | auto]].
Qed.

Lemma truthy_iff (s : str) : truthy s = true <-> s <> [].
Proof. destruct s; simpl; split; congruence. Qed.

Lemma documented_iff (f : func_info) :
  documented f = true <-> Claimed.has_documentation f.
Proof.
  unfold documented, Claimed.has_documentation.
  rewrite !orb_true_iff, !truthy_iff.
  destruct (f_params f); intuition congruence.
Qed.

(** A retained record comes from a signature match that passed both
    tests. *)
Lemma parse_functions_in (content : str) (f : func_info) :
  In f (parse_functions content) <->
  exists sg, In sg (signatures content)
             /\ skipped (is_local sg) (func_name sg) = false
             /\ documented (func_info_of content sg) = true
             /\ f = func_info_of content sg.
Proof.
  unfold parse_functions. rewrite in_somes, in_map_iff. unfold function_of.
  split.
  - intros [sg [H Hin]]. exists sg.
    destruct (skipped _ _); [discriminate|].
    destruct (documented _) eqn:D; [|discriminate].
    injection H as <-. auto.
  - intros [sg (Hin & Hs & Hd & ->)]. exists sg. now rewrite Hs, Hd.
Qed.

End FunctionFacts.

(** ** C3: the privacy heuristics *)

Module PrivacyFacts.
Import PyStr PyStrFacts Parser.

(** The two tests of lines 149 and 151 on the groups of a match. *)
Lemma skipped_iff (is_local : option str) (func_name : str) :
  skipped is_local func_name = true <->
  (given is_local = true
   /\ ~ In "."%char func_name /\ ~ In ":"%char func_name)
  \/ ((exists t, func_name = "_"%char :: t)
      \/ exists a b, func_name = a ++ "._" ++ b).
Proof.
  unfold skipped, local_bare, underscored.
  cbn [list_ascii_of_string].
  rewrite orb_true_iff, !andb_true_iff, !negb_true_iff, orb_true_iff.
  rewrite !contains_char_false, contains_char.
  rewrite startswith_app, contains_iff.
  split.
  - intros [[[Hl Hd] Hc] | [_ H]]; [left; auto | right; exact H].
  - intros [[Hl [Hd Hc]] | H]; [left; auto | right].
    split; [|exact H].
    destruct H as [[t ->] | [a [b ->]]].
    + now left.
    + apply in_or_app. right. right. now left.
Qed.

(** For a signature match of a file the tests pass it over exactly when
    it is private in the words of the specification. *)
Lemma skipped_private (content : str) (sg : signature) :
  In sg (signatures content) ->
  (skipped (is_local sg) (func_name sg) = true <-> Claimed.private sg).
Proof.
  intros Hin. rewrite skipped_iff. unfold Claimed.private.
  now rewrite (SignatureFacts.signature_local content sg Hin).
Qed.

End PrivacyFacts.

(** C3.  A signature match of a file is left out of the module by the
    privacy tests exactly when it carries the local keyword and its
    identifier has neither a dot nor a colon, or its identifier starts
    with an underscore or has an underscore right after a dot: such a
    match gives no record, documented or not; any other match gives its
    record whenever it is documented; and every function of the parsed
    module comes from a match that is not private.  A documented
    foo.bar_baz is kept, and so is a documented local obj.helper; a
    documented ns._internal and a documented local helper are left
    out. *)
Theorem C3_privacy_exclusion (rel_path content : str) :
  (forall sg, In sg (Parser.signatures content) ->
     (Claimed.private sg -> Parser.function_of content sg = None)
     /\ (~ Claimed.private sg ->
         Parser.function_of content sg
         = if Parser.documented (Parser.func_info_of content sg)
           then Some (Parser.func_info_of content sg) else None))
  /\ (forall f, In f (functions (Parser.parse_file rel_path content)) ->
        exists sg, In sg (Parser.signatures content)
                   /\ ~ Claimed.private sg
                   /\ f = Parser.func_info_of content sg)
  /\ (forall sg, In sg (Parser.signatures content) ->
        ~ Claimed.private sg ->
        Parser.documented (Parser.func_info_of content sg) = true ->
        In (Parser.func_info_of content sg)
           (functions (Parser.parse_file rel_path content)))
  /\ map f_name (functions (Parser.parse_file rel_path
                              Sample.underscore_source))
     = [("foo.bar_baz" : str)]
  /\ map f_name (functions (Parser.parse_file rel_path
                              Sample.local_method_source))
     = [("obj.helper" : str)]
  /\ functions (Parser.parse_file rel_path Sample.internal_source) = []
  /\ functions (Parser.parse_file rel_path Sample.local_bare_source) = [].
Proof.
  split; [|split; [|split]].
  - intros sg Hin. pose proof (PrivacyFacts.skipped_private content sg Hin) as H.
    unfold Parser.function_of. split.
    + intros Hp. apply H in Hp. now rewrite Hp.
    + intros Hp. destruct (Parser.skipped _ _); [|reflexivity].
      exfalso. apply Hp. now apply H.
  - intros f Hf. cbn [Parser.parse_file functions] in Hf.
    apply FunctionFacts.parse_functions_in in Hf as (sg & Hin & Hs & _ & ->).
    exists sg. split; [exact Hin|]. split; [|reflexivity].
    intros Hp. apply (PrivacyFacts.skipped_private content sg Hin) in Hp.
    congruence.
  - intros sg Hin Hp Hd. cbn [Parser.parse_file functions].
    apply FunctionFacts.parse_functions_in. exists sg.
    split; [exact Hin|]. split; [|now split].
    destruct (Parser.skipped _ _) eqn:E; [|reflexivity].
    exfalso. apply Hp. now apply (PrivacyFacts.skipped_private content sg Hin).
  - cbn [Parser.parse_file functions]. repeat split; vm_compute; reflexivity.
Qed.

(** ** C4: the functions that are kept *)

(** C4.  Every retained function has a non-empty description, a
    parameter or a non-empty returns string, and every signature match
    that passes the privacy tests and has one of the three is retained.
    The method obj.method whose comment block is the single line of a
    return tag is retained, with returns equal to string. *)
Theorem C4_retained_iff_documented (content : str) :
  (forall f, In f (Parser.parse_functions content) ->
             Claimed.has_documentation f)
  /\ (forall sg, In sg (Parser.signatures content) ->
        Parser.skipped (Parser.is_local sg) (Parser.func_name sg) = false ->
        Claimed.has_documentation (Parser.func_info_of content sg) ->
        In (Parser.func_info_of content sg) (Parser.parse_functions content))
  /\ Parser.parse_functions Sample.return_only_source
     = [FuncInfo "obj.method" [] "string" [] 1].
Proof.
  split; [|split].
  - intros f H. apply FunctionFacts.parse_functions_in in H
      as [sg (_ & _ & Hd & ->)].
    now apply FunctionFacts.documented_iff.
  - intros sg Hin Hs Hd. apply FunctionFacts.parse_functions_in.
    exists sg. split; [exact Hin|]. split; [exact Hs|].
    split; [|reflexivity]. now apply FunctionFacts.documented_iff.
  - vm_compute. reflexivity.
Qed.

(** ** C5: parameters accumulate, the last return wins *)

Module DocFacts.
Import PyStr PyStrFacts Parser.

Lemma last_cons {A} (x d : A) (l : list A) : last (x :: l) d = last l x.
Proof.
  revert x d; induction l as [|y l IH]; intros x d; [reflexivity|].
  change (last (x :: y :: l) d) with (last (y :: l) d).
  now rewrite !IH.
Qed.

Lemma param_not_return (line : str) :
  startswith "@param" line = true -> startswith "@return" line = false.
Proof.
  intros H. apply startswith_app in H as [t ->]. reflexivity.
Qed.

(** The loop of lines 166-186 from any state. *)
Lemma fold_doc_step (ls : list str) (st : doc_state) :
  let lines := somes (map unmark ls) in
  let st' := fold_left doc_step ls st in
  d_params st'
  = d_params st ++ somes (map param_of (filter (startswith "@param") lines))
  /\ d_returns st'
     = last (map return_of (filter (startswith "@return") lines)) (d_returns st).
Proof.
  cbv zeta. revert st; induction ls as [|l ls IH]; intros st.
  - cbn. now rewrite app_nil_r.
  - cbn [fold_left map]. destruct (IH (doc_step st l)) as [IHp IHr].
    rewrite IHp, IHr. clear IH IHp IHr. unfold doc_step.
    destruct (unmark l) as [line|]; cbn [somes]; [|now split].
    cbn [filter].
    destruct (startswith "@param" line) eqn:Hp.
    + rewrite (param_not_return line Hp). cbn [map somes].
      destruct (param_of line) as [p|]; cbn [d_params d_returns];
        [|now split].
      now rewrite <- app_assoc.
    + destruct (startswith "@return" line) eqn:Hr.
      * cbn [d_params d_returns map]. split; [reflexivity|].
        now rewrite last_cons.
      * destruct (startswith "@" line); now split.
Qed.

End DocFacts.

(** C5.  The parameters of a comment block are the triples of its lines
    that start with the parameter tag and match the pattern, in the
    order of the lines; the returns string is the payload of the last
    line that starts with the return tag, and empty when there is none.
    In the sample block both parameters are kept and the second return
    replaces the first. *)
Theorem C5_params_accumulate_last_return_wins (doc_block : str) :
  Parser.d_params (Parser.parse_doc doc_block)
  = Parser.somes (map Parser.param_of (Claimed.param_lines doc_block))
  /\ Parser.d_returns (Parser.parse_doc doc_block)
     = last (map Parser.return_of (Claimed.return_lines doc_block)) []
  /\ Parser.d_params (Parser.parse_doc Sample.two_returns_doc)
     = [Param "a" "number" "first"; Param "b?" "string" []]
  /\ Parser.d_returns (Parser.parse_doc Sample.two_returns_doc) = "y".
Proof.
  destruct (DocFacts.fold_doc_step (PyStr.split PyStr.nl doc_block)
              (Parser.DocState [] [] [])) as [Hp Hr].
  repeat split; [exact Hp | exact Hr | vm_compute; reflexivity..].
Qed.

(** ** C6: examples of the block comment *)

(** C6.  Every stored example is non-empty.  For the block whose example
    has a first line indented by four and a second line indented by two,
    the segment after the tag is those two lines; taking the common
    indentation off and trimming blank lines leaves two spaces before
    the first line, but the stored example has none: the final [strip]
    removes them. *)
Theorem C6_first_line_indentation_lost :
  (forall block example,
      In example (Parser.block_examples block) -> example <> [])
  /\ Re.split Parser.example_split_pattern Sample.example_block
     = [Sample.text ["Title"; ""]; Sample.example_segment]
  /\ Claimed.normalized Sample.example_segment = Sample.text ["  a"; "b"]
  /\ Parser.block_examples Sample.example_block = [Sample.text ["a"; "b"]].
Proof.
  split; [|repeat split; vm_compute; reflexivity].
  intros block example H. unfold Parser.block_examples in H.
  apply FunctionFacts.in_somes, in_map_iff in H as (part & H & _).
  unfold Parser.example_of_part in H.
  destruct (Re.re_match _ _) as [m|]; [|discriminate].
  destruct (Re.group _ _ _) as [t|]; [|discriminate].
  destruct (PyStr.truthy (PyStr.strip t)); [|discriminate].
  destruct (PyStr.truthy _) eqn:E; [|discriminate].
  injection H as <-. now apply FunctionFacts.truthy_iff.
Qed.

(** ** C7: the line of a function *)

(** C7, as the claim states it, fails: for a function documented by one
    comment line the identifier is on line 2 and the line field is 1. *)
Lemma C7_counterexample :
  exists m f,
    Re.finditer Parser.func_pattern Sample.documented_source = [m]
    /\ Parser.parse_functions Sample.documented_source = [f]
    /\ f_line f = 1
    /\ Claimed.definition_line Sample.documented_source m = 2.
Proof.
  exists (Re.RMatch 0 22 [(4, (21, 21)); (3, (17, 20)); (1, (0, 8))]).
  exists (FuncInfo "a.b" [] [] "Doc" 1).
  split; [|split; [|split]]; vm_compute; reflexivity.
Qed.

(** C7, amended.  The line field of a retained function is the number,
    counted from 1, of the line on which its signature match starts: one
    more than the newlines before the offset of the match.  The match
    starts with the attached comment block (group 1 spans from the start
    of the match), so this is the first line of that block. *)
Theorem C7_line_of_match_start (content : str) (f : func_info) :
  In f (Parser.parse_functions content) ->
  exists m,
    In m (Re.finditer Parser.func_pattern content)
    /\ f_name f = Parser.func_name (Parser.signature_of content m)
    /\ f_line f
       = PyStr.count PyStr.nl (firstn (Re.m_start m) content) + 1
    /\ exists e, Re.lookup_cap 1 (Re.m_caps m) = Some (Re.m_start m, e).
Proof.
  intros H. apply FunctionFacts.parse_functions_in in H
    as [sg (Hin & _ & _ & ->)].
  unfold Parser.signatures in Hin. apply in_map_iff in Hin as [m [<- Hin]].
  exists m. split; [exact Hin|]. split; [reflexivity|].
  split; [reflexivity|].
  apply ReFacts.finditer_match in Hin as [pre [s [Hm _]]].
  unfold Parser.func_pattern in Hm. cbn [Re.cat] in Hm.
  apply ReFacts.head_group_span in Hm as [-> He]; [exact He|].
  vm_compute. intuition discriminate.
Qed.

Lemma C7_witness :
  In (FuncInfo "a.b" [] [] "Doc" 1)
     (Parser.parse_functions Sample.documented_source)
  /\ exists m,
       In m (Re.finditer Parser.func_pattern Sample.documented_source)
       /\ f_name (FuncInfo "a.b" [] [] "Doc" 1)
          = Parser.func_name (Parser.signature_of Sample.documented_source m)
       /\ f_line (FuncInfo "a.b" [] [] "Doc" 1)
          = PyStr.count PyStr.nl
              (firstn (Re.m_start m) Sample.documented_source) + 1
       /\ exists e, Re.lookup_cap 1 (Re.m_caps m) = Some (Re.m_start m, e).
Proof.
  assert (Hin : In (FuncInfo "a.b" [] [] "Doc" 1)
                   (Parser.parse_functions Sample.documented_source))
    by (vm_compute; left; reflexivity).
  split; [exact Hin|].
  exact (C7_line_of_match_start Sample.documented_source _ Hin).
Defined.

(** ** C8: escaping on the module page *)

(** Finds the text in the rest of the page when it comes before the
    next variable part, or else in one of the later parts. *)
Ltac in_part :=
  first [ vm_compute; reflexivity
        | apply PyStrFacts.contains_app_l; vm_compute; reflexivity
        | apply PyStrFacts.contains_app_r; in_part ].

(** C8.  On the page of a module whose description, example and function
    texts all carry angle brackets, the description and the example come
    out with the two replacements, while the description, the parameter
    description and the returns text of the function come out as they
    are.  The replacements touch the two angle brackets only. *)
Theorem C8_function_text_not_escaped (page_open page_style bullet arrow : str) :
  let html := Render.generate_html_module page_open page_style bullet arrow
                Sample.angle_module in
  PyStr.contains "<p>x&lt;y</p>" html = true
  /\ PyStr.contains "<code class='language-lua'>p&lt;q</code>" html = true
  /\ PyStr.contains "<p>d <i></p>" html = true
  /\ PyStr.contains "<li><code>x</code> (t): a<b</li>" html = true
  /\ PyStr.contains "<strong>Returns:</strong> table<string></div>" html = true
  /\ Render.escape "table<string>" = "table&lt;string&gt;"
  /\ Render.escape "a & 'b'" = "a & 'b'".
Proof.
  intros html. subst html. unfold Render.generate_html_module.
  repeat split; try reflexivity; in_part.
Qed.

(** ** C9: the file filter *)

Module DiscoverFacts.
Import PyStr PyStrFacts.

Lemma in_removelast {A} (d : A) (l : list A) :
  In d (removelast l) -> exists a b, l = a ++ d :: b /\ b <> [].
Proof.
  induction l as [|x l IH]; simpl; [intros []|].
  destruct l as [|y l]; [intros []|].
  intros [<- | H].
  - exists [], (y :: l). split; [reflexivity | discriminate].
  - destruct (IH H) as [a [b [E Hb]]]. exists (x :: a), b.
    rewrite E. now split.
Qed.

Lemma join_middle (sep d : str) (a b : list str) :
  b <> [] -> exists u v, join sep (a ++ d :: b) = u ++ d ++ sep ++ v.
Proof.
  intros Hb. induction a as [|x a [u [v IH]]]; simpl app.
  - exists [], (join sep b). now rewrite join_cons.
  - rewrite join_cons by (destruct a; discriminate).
    rewrite IH. exists (x ++ sep ++ u), v. now rewrite <- !app_assoc.
Qed.

(** A component that is not the last one is followed by the separator. *)
Lemma directory_in_path (sep : ascii) (s d : str) :
  In d (removelast (split sep s)) -> exists a b, s = a ++ d ++ [sep] ++ b.
Proof.
  intros H. apply in_removelast in H as [a [b [E Hb]]].
  rewrite <- (join_split sep s), E. now apply join_middle.
Qed.

(** Every path the specification excludes by name is skipped by the
    filter. *)
Lemma excluded_is_skipped (rel_path : str) :
  Claimed.excluded rel_path = true -> Discover.skip_file rel_path = true.
Proof.
  unfold Claimed.excluded, Discover.skip_file.
  rewrite !orb_true_iff. intros [H | H]; [left | now right].
  apply existsb_exists in H as [d [Hd Hn]].
  apply directory_in_path in Hd as [a [b ->]].
  rewrite !orb_true_iff, !str_eqb_eq in Hn.
  apply existsb_exists.
  destruct Hn as [[-> | ->] | ->].
  - exists ("data/" : str). split; [now left|].
    apply contains_iff. now exists a, b.
  - exists ("test/" : str). split; [right; now left|].
    apply contains_iff. now exists a, b.
  - exists (".git" : str). split; [right; right; now left|].
    apply contains_iff. exists a, ("/" ++ b). reflexivity.
Qed.

End DiscoverFacts.

(** C9.  The filter skips every file that has a directory named data,
    test or .git, or lies under the top-level lib/; but it tests for the
    substrings data/, test/ and .git, so tac/metadata/x.lua, which has no
    such directory, is skipped as well and never parsed. *)
Theorem C9_filter_by_substring :
  (forall rel_path,
      Claimed.excluded rel_path = true -> Discover.skip_file rel_path = true)
  /\ Discover.skip_file "tac/metadata/x.lua" = true
  /\ Claimed.excluded "tac/metadata/x.lua" = false
  /\ Discover.filtered_files [("tac/metadata/x.lua" : str); ("tac/init.lua" : str)]
     = [("tac/init.lua" : str)].
Proof.
  split; [exact DiscoverFacts.excluded_is_skipped|].
  repeat split; reflexivity.
Qed.

(** ** C10: extension modules without a parent *)

Module IndexFacts.
Import PyStr PyStrFacts Index.

Lemma split_parts_clean (sep : ascii) (s : str) :
  Forall (fun l => ~ In sep l) (split sep s).
Proof.
  induction s as [|c s IH]; simpl.
  - constructor; [intros [] | constructor].
  - destruct (Ascii.eqb_spec c sep) as [->|Hc].
    + constructor; [intros [] | exact IH].
    + destruct (split sep s) as [|l ls]; inversion IH; subst.
      * constructor; [|constructor]. intros [E | []]. congruence.
      * constructor; [|assumption]. intros [E | H]; [congruence | contradiction].
Qed.

Lemma split_one (sep : ascii) (s p0 : str) :
  split sep s = [p0] -> s = p0 /\ ~ In sep p0.
Proof.
  intros E. split.
  - rewrite <- (join_split sep s), E. reflexivity.
  - pose proof (split_parts_clean sep s) as H. rewrite E in H.
    now inversion H.
Qed.

Lemma split_two (sep : ascii) (s p0 p1 : str) :
  split sep s = [p0; p1] ->
  s = p0 ++ [sep] ++ p1 /\ ~ In sep p0 /\ ~ In sep p1.
Proof.
  intros E. split.
  - rewrite <- (join_split sep s), E. reflexivity.
  - pose proof (split_parts_clean sep s) as H. rewrite E in H.
    inversion H as [|? ? H0 H1]; subst. inversion H1; subst. now split.
Qed.

Lemma split_clean (sep : ascii) (s : str) :
  ~ In sep s -> split sep s = [s].
Proof.
  induction s as [|c s IH]; simpl; [reflexivity|]. intros H.
  destruct (Ascii.eqb_spec c sep) as [->|Hc]; [exfalso; auto|].
  rewrite IH by auto. reflexivity.
Qed.

Lemma split_pair (sep : ascii) (x y : str) :
  ~ In sep x -> ~ In sep y -> split sep (x ++ sep :: y) = [x; y].
Proof.
  intros Hx Hy. induction x as [|c x IH]; simpl.
  - rewrite Ascii.eqb_refl. now rewrite split_clean.
  - destruct (Ascii.eqb_spec c sep) as [->|Hc]; [exfalso; apply Hx; now left|].
    rewrite IH; [reflexivity|]. intros H. apply Hx. now right.
Qed.

Lemma in_dict_set {V} (k k' : str) (v v' : V) (d : dict V) :
  In (k, v) (dict_set k' v' d) -> (k = k' /\ v = v') \/ In (k, v) d.
Proof.
  induction d as [|[k0 v0] d IH]; simpl.
  - intros [E | []]. injection E as <- <-. now left.
  - destruct (str_eqb k' k0) eqn:E.
    + intros [H | H]; [injection H as <- <-; now left | right; now right].
    + intros [H | H]; [right; now left|].
      destruct (IH H) as [? | ?]; [now left | right; now right].
Qed.

Lemma dict_set_in {V} (k : str) (v : V) (d : dict V) :
  In (k, v) (dict_set k v d).
Proof.
  induction d as [|[k0 v0] d IH]; simpl; [now left|].
  destruct (str_eqb k k0); [now left | now right].
Qed.

(** Other keys keep their items. *)
Lemma dict_set_keeps {V} (k k' : str) (v v' : V) (d : dict V) :
  In (k, v) d -> k <> k' -> In (k, v) (dict_set k' v' d).
Proof.
  induction d as [|[k0 v0] d IH]; simpl; [intros []|].
  intros [E | H] Hk.
  - injection E as -> ->. destruct (str_eqb k' k) eqn:E'.
    + apply str_eqb_eq in E'. congruence.
    + now left.
  - destruct (str_eqb k' k0); right; auto.
Qed.

Lemma dict_get_in {V} (k : str) (v : V) (d : dict V) :
  dict_get k d = Some v -> In (k, v) d.
Proof.
  induction d as [|[k0 v0] d IH]; simpl; [discriminate|].
  destruct (str_eqb k k0) eqn:E.
  - apply str_eqb_eq in E as ->. intros H. injection H as ->. now left.
  - intros H. right. auto.
Qed.

Lemma in_concat_values {V} (k : str) (l : list V) (x : V) (d : dict (list V)) :
  In (k, l) d -> In x l -> In x (concat (values d)).
Proof.
  intros Hd Hx. apply in_concat. exists l. split; [|exact Hx].
  unfold values. apply in_map_iff. now exists (k, l).
Qed.

Lemma dict_get_set_same {V} (k : str) (v : V) (d : dict V) :
  dict_get k (dict_set k v d) = Some v.
Proof.
  assert (Hkk : str_eqb k k = true) by now apply str_eqb_eq.
  induction d as [|[k0 v0] d IH]; cbn [dict_get dict_set].
  - now rewrite Hkk.
  - destruct (str_eqb k k0) eqn:E; cbn [dict_get]; now rewrite ?E, ?Hkk.
Qed.

Lemma dict_get_set_other {V} (k k' : str) (v : V) (d : dict V) :
  k <> k' -> dict_get k (dict_set k' v d) = dict_get k d.
Proof.
  intros Hk. assert (Hkk : str_eqb k k' = false).
  { destruct (str_eqb k k') eqn:E; [apply str_eqb_eq in E; congruence | auto]. }
  induction d as [|[k0 v0] d IH]; cbn [dict_get dict_set].
  - now rewrite Hkk.
  - destruct (str_eqb k' k0) eqn:E; cbn [dict_get].
    + apply str_eqb_eq in E as <-. now rewrite Hkk.
    + now rewrite IH.
Qed.

Lemma dict_get_ensure {V} (k k' : str) (l : list V) (d : dict (list V)) :
  dict_get k d = Some l -> dict_get k (ensure k' d) = Some l.
Proof.
  intros H. unfold ensure, dict_has.
  destruct (dict_get k' d) eqn:E; [exact H|].
  rewrite dict_get_set_other; [exact H | congruence].
Qed.

Lemma dict_get_ensure_same {V} (k : str) (d : dict (list V)) :
  exists l, dict_get k (ensure k d) = Some l.
Proof.
  unfold ensure, dict_has. destruct (dict_get k d) eqn:E; eauto.
  exists []. apply dict_get_set_same.
Qed.

Lemma in_ensure {V} (k k' : str) (l : list V) (d : dict (list V)) :
  In (k, l) (ensure k' d) -> (k = k' /\ l = []) \/ In (k, l) d.
Proof.
  unfold ensure. destruct (dict_has k' d); [now right|]. apply in_dict_set.
Qed.

Lemma dict_get_append_same {V} (k : str) (x : V) (d : dict (list V)) :
  exists l, dict_get k (append_to k x d) = Some l /\ In x l.
Proof.
  unfold append_to. rewrite dict_get_set_same.
  destruct (dict_get k d); eexists; split; eauto.
  - apply in_or_app. right. now left.
  - now left.
Qed.

Lemma dict_get_append_keeps {V} (k k' : str) (x : V) (l : list V)
  (d : dict (list V)) :
  dict_get k d = Some l ->
  exists l', dict_get k (append_to k' x d) = Some l' /\ incl l l'.
Proof.
  intros H. destruct (list_eq_dec ascii_dec k k') as [<-|Hk].
  - unfold append_to. rewrite dict_get_set_same, H. eexists. split; eauto.
    apply incl_appl, incl_refl.
  - unfold append_to. rewrite dict_get_set_other by exact Hk.
    exists l. split; [exact H | apply incl_refl].
Qed.

Lemma in_append_to {V} (k k' : str) (x : V) (l : list V) (d : dict (list V)) :
  In (k, l) (append_to k' x d) ->
  In (k, l) d
  \/ (k = k' /\ exists l0, l = l0 ++ [x] /\ (l0 = [] \/ In (k', l0) d)).
Proof.
  unfold append_to. intros H. apply in_dict_set in H as [[-> ->] | H]; auto.
  right. split; [reflexivity|]. destruct (dict_get k' d) as [l0|] eqn:E.
  - exists l0. split; [reflexivity|]. right. now apply dict_get_in.
  - exists []. split; [reflexivity | now left].
Qed.

(** The three ways a module passes through the loop body; which one is
    taken depends on its path only. *)
Lemma step_cases (m : module) :
  (exists P,
      path m = "tac/extensions/" ++ P /\ ~ In "/"%char P
      /\ forall e, extension_step e m
         = Extensions
             (dict_set ("tac.extensions." ++ replace ".lua" [] P) m
                (extension_parents e))
             (ensure ("tac.extensions." ++ replace ".lua" [] P)
                (extension_children e)))
  \/ (exists X Y,
         path m = "tac/extensions/" ++ X ++ "/" ++ Y
         /\ ~ In "/"%char X /\ ~ In "/"%char Y
         /\ forall e, extension_step e m
            = Extensions (extension_parents e)
                (append_to ("tac.extensions." ++ X) m
                   (ensure ("tac.extensions." ++ X) (extension_children e))))
  \/ ((forall e, extension_step e m = e)
      /\ forall X Y, ~ In "/"%char X -> ~ In "/"%char Y ->
                     path m <> "tac/extensions/" ++ X ++ "/" ++ Y).
Proof.
  unfold extension_step.
  destruct (startswith "tac/extensions/" (path m)) eqn:Es.
  - apply startswith_skipn in Es.
    change (length (list_ascii_of_string "tac/extensions/")) with 15 in Es.
    set (R := skipn 15 (path m)) in *.
    assert (Hno : forall X Y, ~ In "/"%char X -> ~ In "/"%char Y ->
              path m = "tac/extensions/" ++ X ++ "/" ++ Y ->
              split "/" R = [X; Y]).
    { intros X Y HX HY E. rewrite E in Es. apply app_inv_head in Es.
      rewrite <- Es. now apply split_pair. }
    destruct (split "/" R) as [|p0 [|p1 [|p2 ps]]] eqn:E.
    + right. right. split; [reflexivity|]. intros X Y HX HY HE.
      specialize (Hno X Y HX HY HE). discriminate.
    + left. apply split_one in E as [E Hp]. exists p0.
      rewrite Es, E. auto.
    + right. left. apply split_two in E as (E & H0 & H1). exists p0, p1.
      rewrite Es, E. auto.
    + right. right. split; [reflexivity|]. intros X Y HX HY HE.
      specialize (Hno X Y HX HY HE). discriminate.
  - right. right. split; [reflexivity|]. intros X Y _ _ HE.
    rewrite HE in Es. now rewrite startswith_prefix in Es.
Qed.

Lemma parent_item_more (ms : list module) (m : module) (it : str * module) :
  parent_item ms it -> parent_item (ms ++ [m]) it.
Proof.
  intros (P & H1 & H2 & H3 & H4). exists P. repeat split; auto.
  apply in_or_app. now left.
Qed.

(** A path two segments below the root is not one segment below it. *)
Lemma two_not_one (P X Y : str) :
  ~ In "/"%char P ->
  "tac/extensions/" ++ P <> "tac/extensions/" ++ X ++ "/" ++ Y.
Proof.
  intros HP E. apply app_inv_head in E. apply HP. rewrite E.
  apply in_or_app. right. now left.
Qed.

Lemma two_segments_inj (X Y X' Y' : str) :
  ~ In "/"%char X -> ~ In "/"%char Y -> ~ In "/"%char X' -> ~ In "/"%char Y' ->
  "tac/extensions/" ++ X ++ "/" ++ Y = "tac/extensions/" ++ X' ++ "/" ++ Y' ->
  X = X'.
Proof.
  intros HX HY HX' HY' E. apply app_inv_head in E.
  assert (H : split "/" (X ++ "/" ++ Y) = split "/" (X' ++ "/" ++ Y'))
    by now rewrite E.
  change (X ++ "/" ++ Y) with (X ++ "/"%char :: Y) in H.
  change (X' ++ "/" ++ Y') with (X' ++ "/"%char :: Y') in H.
  rewrite !split_pair in H by assumption. congruence.
Qed.

(** The loop body keeps what the dictionaries hold. *)
Lemma organized_step (ms : list module) (e : extensions) (m : module) :
  organized ms e -> organized (ms ++ [m]) (extension_step e m).
Proof.
  intros (HP & HC & HM).
  assert (HP' : Forall (parent_item (ms ++ [m])) (extension_parents e)).
  { eapply Forall_impl; [|exact HP]. intros it. apply parent_item_more. }
  destruct (step_cases m)
    as [(P & Hp & HnP & He) | [(X & Y & Hp & HX & HY & He) | [He Hno]]];
    rewrite He; clear He.
  - split; [|split]; cbn [extension_parents extension_children].
    + apply Forall_forall. intros [k p] H.
      apply in_dict_set in H as [[-> ->] | H].
      * exists P. repeat split; auto. apply in_or_app. right. now left.
      * rewrite Forall_forall in HP'. now apply HP'.
    + apply Forall_forall. intros [k l] H.
      apply in_ensure in H as [[-> ->] | H].
      * intros c [].
      * rewrite Forall_forall in HC. now apply HC.
    + intros m' X Y Hin Hm' HX HY. apply in_app_or in Hin as [Hin | [<- | []]].
      * destruct (HM m' X Y Hin Hm' HX HY) as (k & l & Hg & Hl).
        exists k, l. split; [|exact Hl]. now apply dict_get_ensure.
      * exfalso. rewrite Hp in Hm'. now apply two_not_one in Hm'.
  - split; [|split]; cbn [extension_parents extension_children].
    + exact HP'.
    + apply Forall_forall. intros [k l] H.
      assert (Hens : forall k0 l0,
                In (k0, l0) (ensure ("tac.extensions." ++ X)
                               (extension_children e)) ->
                child_item (k0, l0)).
      { intros k0 l0 H0. apply in_ensure in H0 as [[-> ->] | H0].
        - intros c [].
        - rewrite Forall_forall in HC. now apply HC. }
      apply in_append_to in H as [H | [-> (l0 & -> & Hl0)]].
      * now apply Hens.
      * intros c Hc. cbn [snd fst] in *.
        apply in_app_or in Hc as [Hc | [<- | []]].
        -- destruct Hl0 as [-> | Hl0]; [destruct Hc|].
           now apply (Hens _ _ Hl0 c).
        -- exists X, Y. auto.
    + intros m' X' Y' Hin Hm' HX' HY'.
      apply in_app_or in Hin as [Hin | [<- | []]].
      * destruct (HM m' X' Y' Hin Hm' HX' HY') as (k & l & Hg & Hl).
        apply (dict_get_ensure k ("tac.extensions." ++ X)) in Hg.
        apply (dict_get_append_keeps k ("tac.extensions." ++ X) m) in Hg
          as (l' & Hg & Hi).
        exists k, l'. split; [exact Hg | now apply Hi].
      * destruct (dict_get_append_same ("tac.extensions." ++ X) m
                    (ensure ("tac.extensions." ++ X) (extension_children e)))
          as (l & Hg & Hl).
        now exists ("tac.extensions." ++ X), l.
  - split; [exact HP' | split; [exact HC|]].
    intros m' X Y Hin Hm' HX HY. apply in_app_or in Hin as [Hin | [<- | []]].
    + now apply (HM m' X Y).
    + exfalso. now apply (Hno X Y).
Qed.

Lemma organized_fold (ms ms0 : list module) (e : extensions) :
  organized ms0 e -> organized (ms0 ++ ms) (fold_left extension_step ms e).
Proof.
  revert ms0 e; induction ms as [|m ms IH]; intros ms0 e H; simpl.
  - now rewrite app_nil_r.
  - replace (ms0 ++ m :: ms) with ((ms0 ++ [m]) ++ ms)
      by now rewrite <- app_assoc.
    apply IH. now apply organized_step.
Qed.

Lemma organized_organize (ms : list module) : organized ms (organize ms).
Proof.
  apply (organized_fold ms [] (Extensions [] [])).
  split; [constructor | split; [constructor|]]. intros m X Y [].
Qed.

Lemma in_insert_by {A} (key : A -> str) (x y : A) (l : list A) :
  In y (insert_by key x l) <-> y = x \/ In y l.
Proof.
  induction l as [|z l IH]; simpl.
  - intuition congruence.
  - destruct (str_ltb (key x) (key z)); simpl; [intuition congruence|].
    rewrite IH. intuition congruence.
Qed.

(** Sorting keeps the elements. *)
Lemma in_sorted_by {A} (key : A -> str) (y : A) (l : list A) :
  In y (sorted_by key l) <-> In y l.
Proof.
  unfold sorted_by.
  assert (H : forall acc, In y (fold_left (fun a x => insert_by key x a) l acc)
                          <-> In y l \/ In y acc).
  { induction l as [|x l IH]; intros acc; simpl; [tauto|].
    rewrite IH, in_insert_by. intuition congruence. }
  rewrite H. simpl. tauto.
Qed.

End IndexFacts.

(** C10, as the claim states it, fails: no module of this list has the
    path tac/extensions/foo.lua, and yet the module at
    tac/extensions/foo/bar.lua is listed, as a child of the module at
    tac/extensions/foo.lua.lua, whose key is made by taking every .lua
    off its file name. *)
Lemma C10_counterexample :
  let modules := [Sample.twice_lua; Sample.orphan] in
  path Sample.orphan = "tac/extensions/" ++ "foo" ++ "/" ++ "bar.lua"
  /\ existsb (fun p => PyStr.str_eqb (path p) "tac/extensions/foo.lua") modules
     = false
  /\ Index.extension_tree modules = [(Sample.twice_lua, [Sample.orphan])]
  /\ In Sample.orphan (Index.listed modules)
  /\ PyStr.contains "tac_extensions_foo_bar.html"
       (Index.generate_html_index [] [] modules) = true.
Proof.
  cbv zeta. split; [|split; [|split; [|split]]].
  - vm_compute. reflexivity.
  - vm_compute. reflexivity.
  - vm_compute. reflexivity.
  - right. left. vm_compute. reflexivity.
  - vm_compute. reflexivity.
Qed.

Module IndexPageFacts.
Import PyStr PyStrFacts Index IndexFacts.

Lemma dict_get_ensure_other {V} (k k' : str) (d : dict (list V)) :
  k <> k' -> dict_get k (ensure k' d) = dict_get k d.
Proof.
  intros Hk. unfold ensure. destruct (dict_has k' d); [reflexivity|].
  now apply dict_get_set_other.
Qed.

Lemma dict_get_ensure_here {V} (k : str) (d : dict (list V)) :
  dict_get k (ensure k d)
  = Some (match dict_get k d with Some l => l | None => [] end).
Proof.
  unfold ensure, dict_has. destruct (dict_get k d) eqn:E; [exact E|].
  apply dict_get_set_same.
Qed.

Lemma dict_get_append_other {V} (k k' : str) (x : V) (d : dict (list V)) :
  k <> k' -> dict_get k (append_to k' x d) = dict_get k d.
Proof. intros Hk. unfold append_to. now apply dict_get_set_other. Qed.

Lemma dict_get_append_here {V} (k : str) (x : V) (d : dict (list V)) :
  dict_get k (append_to k x d)
  = Some (match dict_get k d with Some l => l ++ [x] | None => [x] end).
Proof. unfold append_to. apply dict_get_set_same. Qed.

Lemma in_values_set_new {V} (k : str) (l : list V) (x : V)
  (d : dict (list V)) :
  dict_get k d = None ->
  In x (concat (values (dict_set k l d)))
  <-> In x l \/ In x (concat (values d)).
Proof.
  induction d as [|[k0 v0] d IH]; cbn [dict_get dict_set].
  - intros _. cbn. rewrite app_nil_r. tauto.
  - destruct (str_eqb k k0); [discriminate|]. intros H.
    cbn [values map snd concat] in *. rewrite !in_app_iff.
    unfold values in IH. rewrite (IH H). tauto.
Qed.

Lemma in_values_set_append {V} (k : str) (l0 : list V) (a x : V)
  (d : dict (list V)) :
  dict_get k d = Some l0 ->
  In x (concat (values (dict_set k (l0 ++ [a]) d)))
  <-> x = a \/ In x (concat (values d)).
Proof.
  induction d as [|[k0 v0] d IH]; cbn [dict_get dict_set]; [discriminate|].
  destruct (str_eqb k k0).
  - intros H. injection H as ->. cbn [values map snd concat].
    rewrite !in_app_iff. cbn [In]. intuition congruence.
  - intros H. cbn [values map snd concat] in *. rewrite !in_app_iff.
    unfold values in IH. rewrite (IH H). tauto.
Qed.

Lemma in_values_ensure {V} (k : str) (x : V) (d : dict (list V)) :
  In x (concat (values (ensure k d))) <-> In x (concat (values d)).
Proof.
  unfold ensure, dict_has. destruct (dict_get k d) eqn:E; [tauto|].
  rewrite (in_values_set_new k [] x d E). cbn [In]. tauto.
Qed.

Lemma in_values_append {V} (k : str) (a x : V) (d : dict (list V)) :
  In x (concat (values (append_to k a d)))
  <-> x = a \/ In x (concat (values d)).
Proof.
  unfold append_to. destruct (dict_get k d) as [l0|] eqn:E.
  - now apply in_values_set_append.
  - rewrite (in_values_set_new k [a] x d E). cbn [In]. intuition congruence.
Qed.

Section Orphan.

(** A module two segments below the extensions root, and the key of its
    directory. *)
Variables (m : module) (X Y : str).
Hypothesis path_m : path m = "tac/extensions/" ++ X ++ "/" ++ Y.
Hypothesis clean_X : ~ In "/"%char X.
Hypothesis clean_Y : ~ In "/"%char Y.

Let k0 : str := "tac.extensions." ++ X.

(** The loop body on the module itself changes only what is filed under
    its key. *)
Lemma agree_step_orphan (e e' : extensions) :
  agree_but k0 m e e' -> agree_but k0 m (extension_step e m) e'.
Proof.
  intros (Hpar & Hget & Hin).
  destruct (step_cases m)
    as [(P & Hp & HnP & _) | [(X' & Y' & Hp & HX' & HY' & He) | [He _]]].
  - exfalso. rewrite Hp in path_m. now apply two_not_one in path_m.
  - rewrite He. clear He. rewrite path_m in Hp.
    apply two_segments_inj in Hp; auto. subst X'. fold k0.
    split; [exact Hpar | split]; cbn [extension_children].
    + intros k Hk.
      rewrite dict_get_append_other, dict_get_ensure_other by exact Hk.
      now apply Hget.
    + intros x Hx. rewrite in_values_append, in_values_ensure.
      rewrite <- (Hin x Hx). intuition congruence.
  - rewrite He. now split.
Qed.

(** The loop body on another module, which is not a parent under that
    key, keeps the agreement. *)
Lemma agree_step_other (a : module) (e e' : extensions) :
  (forall P, path a = "tac/extensions/" ++ P -> ~ In "/"%char P ->
             replace ".lua" [] P <> X) ->
  agree_but k0 m e e' ->
  agree_but k0 m (extension_step e a) (extension_step e' a).
Proof.
  intros Hno (Hpar & Hget & Hin).
  destruct (step_cases a)
    as [(P & Hp & HnP & He) | [(X' & Y' & Hp & HX' & HY' & He) | [He _]]];
    rewrite !He; clear He.
  - set (kP := "tac.extensions." ++ replace ".lua" [] P).
    assert (HkP : kP <> k0).
    { intros E. apply app_inv_head in E. now apply (Hno P). }
    split; [|split]; cbn [extension_parents extension_children].
    + now rewrite Hpar.
    + intros k Hk. destruct (list_eq_dec ascii_dec k kP) as [->|Hne].
      * rewrite !dict_get_ensure_here. now rewrite (Hget kP HkP).
      * rewrite !dict_get_ensure_other by exact Hne. now apply Hget.
    + intros x Hx. rewrite !in_values_ensure. now apply Hin.
  - set (kX := "tac.extensions." ++ X').
    split; [|split]; cbn [extension_parents extension_children].
    + exact Hpar.
    + intros k Hk. destruct (list_eq_dec ascii_dec k kX) as [->|Hne].
      * rewrite !dict_get_append_here, !dict_get_ensure_here.
        now rewrite (Hget kX Hk).
      * rewrite !dict_get_append_other, !dict_get_ensure_other by exact Hne.
        now apply Hget.
    + intros x Hx. rewrite !in_values_append, !in_values_ensure.
      now rewrite (Hin x Hx).
  - now split.
Qed.

(** The loop over a list, and over the list without the module. *)
Lemma agree_fold (ms : list module) (e e' : extensions) :
  (forall p P, In p ms -> path p = "tac/extensions/" ++ P ->
               ~ In "/"%char P -> replace ".lua" [] P <> X) ->
  agree_but k0 m e e' ->
  agree_but k0 m (fold_left extension_step ms e)
    (fold_left extension_step (remove module_eq_dec m ms) e').
Proof.
  revert e e'; induction ms as [|a ms IH]; intros e e' Hno H; [exact H|].
  cbn [fold_left remove]. destruct (module_eq_dec m a) as [<-|Hne].
  - apply IH; [intros p P Hp; apply Hno; now right|].
    now apply agree_step_orphan.
  - cbn [fold_left]. apply IH; [intros p P Hp; apply Hno; now right|].
    apply agree_step_other; [|exact H]. intros P. apply Hno. now left.
Qed.

Lemma agree_organize (ms : list module) :
  (forall p P, In p ms -> path p = "tac/extensions/" ++ P ->
               ~ In "/"%char P -> replace ".lua" [] P <> X) ->
  agree_but k0 m (organize ms) (organize (remove module_eq_dec m ms)).
Proof.
  intros Hno. apply agree_fold; [exact Hno|]. repeat split; tauto.
Qed.

End Orphan.

Lemma filter_remove_ext {A} (dec : forall x y : A, {x = y} + {x <> y})
  (f g : A -> bool) (m : A) (l : list A) :
  (forall x, In x l -> x <> m -> f x = g x) -> g m = false ->
  filter f (remove dec m l) = filter g l.
Proof.
  intros Hfg Hm. induction l as [|a l IH]; [reflexivity|].
  cbn [remove filter]. destruct (dec m a) as [<-|Hne].
  - rewrite Hm. apply IH. intros x Hx. apply Hfg. now right.
  - cbn [filter]. rewrite (Hfg a) by (auto; now left).
    rewrite IH; [reflexivity|]. intros x Hx. apply Hfg. now right.
Qed.

Lemma mem_iff (x : module) (l : list module) : mem x l = true <-> In x l.
Proof. unfold mem. destruct (in_dec module_eq_dec x l); split; auto; discriminate. Qed.

Lemma mem_ext (x : module) (l l' : list module) :
  (In x l <-> In x l') -> mem x l = mem x l'.
Proof.
  intros H. destruct (mem x l) eqn:E, (mem x l') eqn:E'; auto.
  - apply mem_iff, H, mem_iff in E. congruence.
  - apply mem_iff, H, mem_iff in E'. congruence.
Qed.

End IndexPageFacts.

(** C10, amended.  A module of the list whose path is two segments below
    the extensions root, tac/extensions/X/Y, appears nowhere in the
    index when no module of the list one segment below the root has a
    file name that gives X once every .lua is taken off it (the key
    under which the loop files a parent): no entry, in a category or in
    the extension tree, is rendered from it, and the page is the same
    as the page of the list without it. *)
Theorem C10_orphan_not_listed (modules : list module) (m : module)
  (X Y : str) :
  In m modules ->
  path m = "tac/extensions/" ++ X ++ "/" ++ Y ->
  ~ In "/"%char X -> ~ In "/"%char Y ->
  (forall p P, In p modules -> path p = "tac/extensions/" ++ P ->
               ~ In "/"%char P -> PyStr.replace ".lua" [] P <> X) ->
  ~ In m (Index.listed modules)
  /\ forall index_open index_close,
       Index.generate_html_index index_open index_close modules
       = Index.generate_html_index index_open index_close
           (remove Index.module_eq_dec m modules).
Proof.
  intros Hin Hp HX HY Hno.
  destruct (IndexFacts.organized_organize modules) as (HP & HC & HM).
  rewrite Forall_forall in HP, HC.
  assert (Hcat : In m (Index.categorized modules)).
  { unfold Index.categorized.
    destruct (HM m X Y Hin Hp HX HY) as (k & l & Hg & Hml).
    apply in_or_app. right. apply in_or_app. right.
    apply in_or_app. right.
    eapply IndexFacts.in_concat_values; [|exact Hml].
    apply IndexFacts.dict_get_in. exact Hg. }
  assert (Hkey : forall k pm,
            In (k, pm) (Index.extension_parents (Index.organize modules)) ->
            k <> "tac.extensions." ++ X
            /\ exists P, path pm = "tac/extensions/" ++ P /\ ~ In "/"%char P).
  { intros k pm Hk. destruct (HP _ Hk) as (P & Hpp & HnP & Hkk & Hpin).
    cbn [fst snd] in *. split; [|now exists P].
    rewrite Hkk. intros E. apply app_inv_head in E. now apply (Hno pm P). }
  split.
  - intros Hl. unfold Index.listed in Hl. apply in_app_or in Hl as [Hl | Hl].
    + unfold Index.categories in Hl. rewrite map_app, concat_app in Hl.
      apply in_app_or in Hl as [Hl | Hl].
      * cbn [map snd concat] in Hl. rewrite app_nil_r in Hl.
        apply in_app_or in Hl as [Hl | Hl];
          [|apply in_app_or in Hl as [Hl | Hl]];
          apply filter_In in Hl as [_ Hl]; rewrite Hp in Hl; cbn in Hl;
          discriminate.
      * assert (Ho : In m (Index.other_modules modules)).
        { destruct (Index.other_modules modules); [destruct Hl|].
          cbn [map snd concat] in Hl. now rewrite app_nil_r in Hl. }
        apply filter_In in Ho as [_ Ho].
        apply IndexPageFacts.mem_iff in Hcat. now rewrite Hcat in Ho.
    + apply in_concat in Hl as (l & Hl & Hml).
      apply in_map_iff in Hl as ([pm cs] & <- & Hl).
      unfold Index.extension_tree in Hl.
      apply in_map_iff in Hl as ([k pm'] & E & Hl). injection E as -> <-.
      unfold Index.sorted_parents in Hl. apply IndexFacts.in_sorted_by in Hl.
      destruct (Hkey _ _ Hl) as (Hk & P & Hpp & HnP).
      cbn [fst snd] in *. destruct Hml as [<- | Hml].
      * rewrite Hpp in Hp. now apply IndexFacts.two_not_one in Hp.
      * apply IndexFacts.in_sorted_by in Hml.
        destruct (Index.dict_get k (Index.extension_children
                                     (Index.organize modules)))
          as [l|] eqn:Hg; [|destruct Hml].
        apply IndexFacts.dict_get_in in Hg.
        destruct (HC _ Hg m Hml) as (X' & Y' & Hp' & HX' & HY' & Hk').
        cbn [fst] in Hk'. rewrite Hp in Hp'.
        apply IndexFacts.two_segments_inj in Hp'; auto. subst X'.
        contradiction.
  - intros index_open index_close.
    destruct (IndexPageFacts.agree_organize m X Y Hp HX HY modules Hno)
      as (Hpar & Hget & Hval).
    set (rest := remove Index.module_eq_dec m modules) in *.
    assert (Hcore : Index.core_modules rest = Index.core_modules modules).
    { apply IndexPageFacts.filter_remove_ext; [reflexivity|].
      rewrite Hp. reflexivity. }
    assert (Hlib : Index.library_modules rest = Index.library_modules modules).
    { apply IndexPageFacts.filter_remove_ext; [reflexivity|].
      rewrite Hp. reflexivity. }
    assert (Hcmd : Index.command_modules rest = Index.command_modules modules).
    { apply IndexPageFacts.filter_remove_ext; [reflexivity|].
      rewrite Hp. reflexivity. }
    assert (Hother : Index.other_modules rest = Index.other_modules modules).
    { apply IndexPageFacts.filter_remove_ext.
      - intros x _ Hx. f_equal. apply IndexPageFacts.mem_ext.
        unfold Index.categorized. rewrite Hcore, Hcmd, <- Hpar.
        rewrite !in_app_iff. rewrite (Hval x Hx). tauto.
      - apply IndexPageFacts.mem_iff in Hcat. now rewrite Hcat. }
    assert (Htree : Index.extension_tree rest = Index.extension_tree modules).
    { unfold Index.extension_tree, Index.sorted_parents. rewrite <- Hpar.
      apply map_ext_in. intros [k pm] Hk.
      apply IndexFacts.in_sorted_by in Hk. destruct (Hkey _ _ Hk) as [Hne _].
      now rewrite (Hget k Hne). }
    unfold Index.generate_html_index, Index.categories.
    now rewrite Hcore, Hlib, Hcmd, Hother, Htree.
Qed.

Lemma C10_witness :
  In Sample.orphan [Sample.orphan; Sample.other_extension]
  /\ ~ In Sample.orphan
         (Index.listed [Sample.orphan; Sample.other_extension])
  /\ forall index_open index_close,
       Index.generate_html_index index_open index_close
         [Sample.orphan; Sample.other_extension]
       = Index.generate_html_index index_open index_close
           (remove Index.module_eq_dec Sample.orphan
              [Sample.orphan; Sample.other_extension]).
Proof.
  split; [now left|].
  apply (C10_orphan_not_listed [Sample.orphan; Sample.other_extension]
           Sample.orphan "foo" "bar.lua").
  - now left.
  - vm_compute. reflexivity.
  - vm_compute. intuition discriminate.
  - vm_compute. intuition discriminate.
  - intros p P [<- | [<- | []]] HP HnP.
    + change (path Sample.orphan)
        with ("tac/extensions/" ++ ("foo/bar.lua" : str)) in HP.
      apply app_inv_head in HP. subst P. exfalso. apply HnP.
      vm_compute. tauto.
    + change (path Sample.other_extension)
        with ("tac/extensions/" ++ ("other.lua" : str)) in HP.
      apply app_inv_head in HP. subst P. vm_compute. discriminate.
Defined.

(** * Further properties *)

(** ** The description of a module *)

Module ModuleTextFacts.
Import PyStr PyStrFacts Parser Claimed Shape.

Lemma dropWhile_in {A} (p : A -> bool) (x : A) (l : list A) :
  In x (dropWhile p l) -> In x l.
Proof.
  destruct (DescriptionFacts.dropWhile_suffix p l) as [a E].
  intros H. rewrite E. apply in_or_app. now right.
Qed.

Lemma takeWhile_in {A} (p : A -> bool) (x : A) (l : list A) :
  In x (takeWhile p l) -> In x l.
Proof.
  induction l as [|y l IH]; simpl; [auto|].
  destruct (p y); [|intros []]. intros [E | H]; auto.
Qed.

Lemma strip_in (c : ascii) (s : str) : In c (strip s) -> In c s.
Proof.
  unfold strip, rstrip, lstrip. intros H. apply in_rev in H.
  apply dropWhile_in in H. apply in_rev in H. now apply dropWhile_in in H.
Qed.

Lemma skipn_in {A} (n : nat) (x : A) (l : list A) :
  In x (skipn n l) -> In x l.
Proof.
  intros H. rewrite <- (firstn_skipn n l). apply in_or_app. now right.
Qed.

Lemma join_in (c : ascii) (sep : str) (l : list str) :
  In c (join sep l) -> In c sep \/ exists p, In p l /\ In c p.
Proof.
  induction l as [|p ps IH]; [intros []|].
  destruct ps as [|p' ps].
  - intros H. right. exists p. split; [now left | exact H].
  - rewrite join_cons by discriminate. intros H.
    apply in_app_or in H as [H | H]; [right; exists p; split; [now left | exact H]|].
    apply in_app_or in H as [H | H]; [now left|].
    destruct (IH H) as [? | (q & Hq & Hc)]; [now left|].
    right. exists q. split; [now right | exact Hc].
Qed.

(** The lines kept by the loop of the fallback are texts of comment
    lines. *)
Lemma line_desc_lines_in (x : str) (ls : list str) (started : bool) :
  In x (line_desc_lines started ls) ->
  x <> [] /\ exists l, In l ls /\ x = comment_text l.
Proof.
  revert started; induction ls as [|l ls IH]; intros started;
    cbn [line_desc_lines]; [intros []|].
  fold (comment_text l).
  assert (Hrec : forall b, In x (line_desc_lines b ls) ->
            x <> [] /\ exists l0, In l0 (l :: ls) /\ x = comment_text l0).
  { intros b H. destruct (IH b H) as (Hx & l0 & Hl0 & E).
    split; [exact Hx|]. exists l0. split; [now right | exact E]. }
  destruct (startswith "---" l).
  - destruct (startswith "@" (comment_text l)); [intros []|].
    destruct (truthy (comment_text l)) eqn:E; [|apply Hrec].
    intros [<- | H]; [|now apply (Hrec true)].
    split; [now apply FunctionFacts.truthy_iff|].
    exists l. split; [now left | reflexivity].
  - destruct started; [intros [] | apply Hrec].
Qed.

(** The loop of the fallback once the description has begun, and from
    its start. *)
Lemma line_desc_lines_started (ls : list str) :
  line_desc_lines true ls
  = filter truthy (map comment_text (takeWhile carries_on ls)).
Proof.
  induction ls as [|l ls IH]; [reflexivity|].
  cbn [line_desc_lines takeWhile]. unfold carries_on at 1.
  fold (comment_text l).
  destruct (startswith "---" l); cbn [andb]; [|reflexivity].
  destruct (startswith "@" (comment_text l)); cbn [negb]; [reflexivity|].
  cbn [map filter]. rewrite IH. now destruct (truthy (comment_text l)).
Qed.

Lemma line_desc_lines_start (ls : list str) :
  line_desc_lines false ls
  = filter truthy
      (map comment_text (takeWhile carries_on (dropWhile passed_over ls))).
Proof.
  induction ls as [|l ls IH]; [reflexivity|].
  cbn [line_desc_lines dropWhile]. unfold passed_over at 1.
  fold (comment_text l).
  destruct (startswith "---" l) eqn:Ec; cbn [negb orb]; [|exact IH].
  destruct (startswith "@" (comment_text l)) eqn:Et.
  - assert (Ht : truthy (comment_text l) = true).
    { apply startswith_app in Et as [t Et]. now rewrite Et. }
    rewrite Ht. cbn [negb takeWhile]. unfold carries_on.
    fold (comment_text l). now rewrite Ec, Et.
  - destruct (truthy (comment_text l)) eqn:Ht; cbn [negb]; [|exact IH].
    cbn [takeWhile]. unfold carries_on at 1. rewrite Ec, Et.
    cbn [andb negb map filter]. rewrite Ht. f_equal.
    apply line_desc_lines_started.
Qed.

Lemma no_newline_in_lines (x : str) (content : str) :
  In x (map strip (split nl content)) -> ~ In nl x.
Proof.
  intros H Hc. apply in_map_iff in H as (l & <- & Hl).
  apply strip_in in Hc.
  pose proof (IndexFacts.split_parts_clean nl content) as Hs.
  rewrite Forall_forall in Hs. now apply (Hs l).
Qed.

End ModuleTextFacts.

(** X1.  The description of a parsed module is one line without
    surrounding white space: it holds no newline, and neither starts nor
    ends with a white-space character. *)
Theorem X1_description_one_trimmed_line (content : str) :
  ~ In PyStr.nl (Parser.parse_description content)
  /\ Claimed.trimmed (Parser.parse_description content).
Proof.
  assert (Hline : ~ In PyStr.nl (Parser.line_description content)
                  /\ Claimed.trimmed (Parser.line_description content)).
  { unfold Parser.line_description. split.
    - intros H. apply ModuleTextFacts.join_in in H as [[H | []] | (p & Hp & Hc)];
        [discriminate|].
      apply ModuleTextFacts.line_desc_lines_in in Hp as (_ & l & Hl & ->).
      apply ModuleTextFacts.strip_in, ModuleTextFacts.skipn_in in Hc.
      pose proof (IndexFacts.split_parts_clean PyStr.nl content) as Hs.
      rewrite Forall_forall in Hs. now apply (Hs l).
    - apply DescriptionFacts.join_trimmed; apply Forall_forall; intros x Hx;
        apply ModuleTextFacts.line_desc_lines_in in Hx as (Hn & l & _ & ->);
        [apply DescriptionFacts.strip_trimmed | exact Hn]. }
  unfold Parser.parse_description.
  destruct (Parser.block_of content) as [block|]; [|exact Hline].
  destruct (PyStr.truthy (Parser.block_description block)); [|exact Hline].
  rewrite DescriptionFacts.block_description_described.
  unfold Claimed.described. split.
  - intros H. apply ModuleTextFacts.join_in in H as [[H | []] | (p & Hp & Hc)];
      [discriminate|].
    apply filter_In in Hp as [Hp _].
    apply ModuleTextFacts.takeWhile_in in Hp.
    assert (Hin : In p (Claimed.trimmed_lines block)).
    { destruct (PyStr.dropWhile Claimed.untitled (Claimed.trimmed_lines block))
        as [|t ts] eqn:E; [destruct Hp|].
      apply (ModuleTextFacts.dropWhile_in Claimed.untitled). rewrite E.
      now right. }
    now apply (ModuleTextFacts.no_newline_in_lines p block).
  - apply DescriptionFacts.join_trimmed;
      [apply DescriptionFacts.collected_trimmed
      | apply DescriptionFacts.filter_truthy_nonempty].
Qed.

(** X2.  The description taken from the line comments is made of the
    run of triple-dash comments that starts at the first one with text
    and ends before the first tag line or the first line that is no such
    comment; lines before that run are passed over wherever the run
    starts, and comments without text inside it add nothing.  It is the
    description of every file without a block comment. *)
Theorem X2_line_comment_description (content : str) :
  Parser.line_description content = Shape.line_described content
  /\ (Parser.block_of content = None ->
      Parser.parse_description content = Shape.line_described content).
Proof.
  assert (H : Parser.line_description content = Shape.line_described content).
  { unfold Parser.line_description, Shape.line_described.
    now rewrite ModuleTextFacts.line_desc_lines_start. }
  split; [exact H|]. intros Hb. unfold Parser.parse_description.
  now rewrite Hb.
Qed.

(** ** The functions and examples of a module *)

Module KeptFacts.
Import PyStr PyStrFacts Parser Claimed Shape.

(** The description lines gathered by the loop of lines 166-186. *)
Lemma fold_doc_desc (ls : list str) (st : doc_state) :
  d_desc_lines (fold_left doc_step ls st)
  = d_desc_lines st
    ++ filter (fun l => negb (startswith "@" l)) (somes (map unmark ls)).
Proof.
  revert st; induction ls as [|l ls IH]; intros st.
  - cbn. now rewrite app_nil_r.
  - cbn [fold_left map]. rewrite IH. clear IH. unfold doc_step.
    destruct (unmark l) as [line|]; cbn [somes]; [|reflexivity].
    cbn [filter].
    destruct (startswith "@param" line) eqn:Hp.
    + assert (Ha : startswith "@" line = true).
      { apply startswith_app in Hp as [t ->]. reflexivity. }
      rewrite Ha. cbn [negb]. now destruct (param_of line).
    + destruct (startswith "@return" line) eqn:Hr.
      * assert (Ha : startswith "@" line = true).
        { apply startswith_app in Hr as [t ->]. reflexivity. }
        now rewrite Ha.
      * destruct (startswith "@" line); cbn [negb d_desc_lines];
          [reflexivity|]. now rewrite <- app_assoc.
Qed.

Lemma Forall_somes {A B} (P : B -> Prop) (f : A -> option B) (l : list A) :
  (forall a b, In a l -> f a = Some b -> P b) ->
  Forall P (somes (map f l)).
Proof.
  intros H. apply Forall_forall. intros b Hb.
  apply FunctionFacts.in_somes, in_map_iff in Hb as (a & E & Ha). eauto.
Qed.

Lemma usage_line_nonempty (line x : str) :
  usage_line line = Some x -> x <> [].
Proof.
  unfold usage_line. destruct (startswith "---" line); [|discriminate].
  set (c := if startswith " " (skipn 3 line) then _ else _).
  destruct (truthy c) eqn:E; [|discriminate]. cbn [andb].
  destruct (negb _); [|discriminate]. intros H. injection H as <-.
  now apply FunctionFacts.truthy_iff.
Qed.

End KeptFacts.

(** X3.  No private function is kept: the name of a retained function
    does not start with an underscore and has no underscore right after
    a dot, and a signature match that carries the local keyword is kept
    only when its name has a dot or a colon. *)
Theorem X3_no_private_function_kept (content : str) :
  Forall (fun f => PyStr.startswith "_" (f_name f) = false
                   /\ PyStr.contains "._" (f_name f) = false)
         (Parser.parse_functions content)
  /\ (forall sg f, In sg (Parser.signatures content) ->
        Parser.function_of content sg = Some f ->
        Parser.is_local sg <> None ->
        In "."%char (f_name f) \/ In ":"%char (f_name f)).
Proof.
  split.
  - apply Forall_forall. intros f H.
    apply FunctionFacts.parse_functions_in in H as (sg & _ & Hs & _ & ->).
    cbn [Parser.func_info_of f_name].
    unfold Parser.skipped, Parser.underscored in Hs.
    apply orb_false_iff in Hs as [_ Hs].
    destruct (PyStr.startswith "_" (Parser.func_name sg)) eqn:E1.
    + exfalso. apply PyStrFacts.startswith_app in E1 as [t E1].
      rewrite E1 in Hs. cbn in Hs. discriminate.
    + destruct (PyStr.contains "._" (Parser.func_name sg)) eqn:E2; auto.
      exfalso. cbn [orb] in Hs. rewrite andb_true_r in Hs.
      apply PyStrFacts.contains_iff in E2 as (a & b & E2).
      assert (Hu : PyStr.contains "_" (Parser.func_name sg) = true).
      { apply PyStrFacts.contains_iff. exists (a ++ "."), b.
        rewrite E2. now rewrite <- !app_assoc. }
      congruence.
  - intros sg f Hsg Hf Hloc. unfold Parser.function_of in Hf.
    destruct (Parser.skipped _ _) eqn:Hs; [discriminate|].
    destruct (Parser.documented _); [|discriminate]. injection Hf as <-.
    cbn [Parser.func_info_of f_name].
    apply (SignatureFacts.signature_local content sg Hsg) in Hloc.
    unfold Parser.skipped, Parser.local_bare in Hs.
    apply orb_false_iff in Hs as [Hs _]. rewrite Hloc in Hs.
    cbn [andb list_ascii_of_string] in Hs.
    destruct (PyStr.contains ["."%char] (Parser.func_name sg)) eqn:Ed.
    + left. now apply PyStrFacts.contains_char.
    + right. cbn [negb andb] in Hs. apply negb_false_iff in Hs.
      now apply PyStrFacts.contains_char.
Qed.

(** X4.  The description of a function is made of the comment lines of
    its block that do not start with the tag sign, markers taken off,
    joined with single spaces in the order of the block; a comment line
    without text counts as an empty line of it. *)
Theorem X4_function_description (content : str) (sg : Parser.signature) :
  f_description (Parser.func_info_of content sg)
  = PyStr.join " " (Shape.description_lines (Parser.doc_block sg))
  /\ Forall (fun l => PyStr.startswith "@" l = false)
            (Shape.description_lines (Parser.doc_block sg)).
Proof.
  split.
  - cbn [Parser.func_info_of f_description]. unfold Parser.parse_doc.
    now rewrite KeptFacts.fold_doc_desc.
  - apply Forall_forall. intros l H. apply filter_In in H as [_ H].
    now apply negb_true_iff.
Qed.

(** X5.  Every example of a parsed module is non-empty, and an example
    taken from the block comment neither starts nor ends with white
    space. *)
Theorem X5_examples_non_empty (content : str) :
  Forall (fun e => e <> []) (Parser.parse_examples content)
  /\ (forall block, Forall Claimed.trimmed (Parser.block_examples block)).
Proof.
  assert (Hblock : forall block,
            Forall (fun e => e <> [] /\ Claimed.trimmed e)
                   (Parser.block_examples block)).
  { intros block. apply KeptFacts.Forall_somes. intros part e _.
    unfold Parser.example_of_part.
    destruct (Re.re_match _ _) as [m|]; [|discriminate].
    destruct (Re.group _ _ _) as [t|]; [|discriminate].
    destruct (PyStr.truthy (PyStr.strip t)); [|discriminate].
    destruct (PyStr.truthy _) eqn:E; [|discriminate].
    intros H. injection H as <-. split.
    - now apply FunctionFacts.truthy_iff.
    - apply DescriptionFacts.strip_trimmed. }
  split.
  - unfold Parser.parse_examples. apply Forall_app. split.
    + destruct (Parser.block_of content) as [block|]; [|constructor].
      eapply Forall_impl; [|apply Hblock]. now intros e [He _].
    + unfold Parser.usage_examples. apply KeptFacts.Forall_somes.
      intros m e _. destruct (Re.group content m 1) as [b|]; [|discriminate].
      destruct (Parser.somes (map Parser.usage_line (PyStr.split PyStr.nl b)))
        as [|x xs] eqn:E; [discriminate|].
      intros H. injection H as <-.
      assert (Hx : x <> []).
      { assert (Hin : In x (Parser.somes
                              (map Parser.usage_line (PyStr.split PyStr.nl b))))
          by (rewrite E; now left).
        apply FunctionFacts.in_somes, in_map_iff in Hin as (l & Hl & _).
        now apply KeptFacts.usage_line_nonempty in Hl. }
      destruct xs; cbn; [exact Hx|]. destruct x; [congruence | discriminate].
  - intros block. eapply Forall_impl; [|apply Hblock]. now intros e [_ He].
Qed.

(** ** What the groups of the patterns hold *)

Module GroupFacts.
Import PyStr PyStrFacts Re Parser ReFacts SignatureFacts.

(** A repeat of one class passes characters of the class only. *)
Lemma rep_loop_class (p : ascii -> bool) (g : bool) (lo : nat)
  (hi : option nat) (k : cont) (sf : mstate) :
  forall fuel n st,
    rep_loop (run (Cls p)) g lo hi k fuel n st = Some sf ->
    exists w t,
      forallb p w = true /\ rest st = w ++ t /\ lo <= n + length w
      /\ k (MState (rev w ++ before st) t (caps st)) = Some sf.
Proof.
  induction fuel as [|fuel IH]; intros n st; cbn [rep_loop]; [discriminate|].
  assert (Hstop : (if lo <=? n then k st else None) = Some sf ->
            exists w t,
              forallb p w = true /\ rest st = w ++ t /\ lo <= n + length w
              /\ k (MState (rev w ++ before st) t (caps st)) = Some sf).
  { destruct (lo <=? n) eqn:E; [|discriminate]. intros H.
    exists [], (rest st). cbn. rewrite TagFacts.mstate_eta.
    apply Nat.leb_le in E. repeat split; auto. lia. }
  assert (Hmore :
    (if below n hi
     then run (Cls p) st (fun st' =>
            if length (rest st') <? length (rest st)
            then rep_loop (run (Cls p)) g lo hi k fuel (S n) st'
            else k st')
     else None) = Some sf ->
    exists w t,
      forallb p w = true /\ rest st = w ++ t /\ lo <= n + length w
      /\ k (MState (rev w ++ before st) t (caps st)) = Some sf).
  { destruct (below n hi); [|discriminate]. cbn [run]. unfold advance.
    destruct (rest st) as [|x t] eqn:Er; [discriminate|].
    destruct (p x) eqn:Ex; [|discriminate]. cbn [rest].
    replace (length t <? length (x :: t)) with true
      by (symmetry; apply Nat.ltb_lt; simpl; lia).
    intros H. apply IH in H as (w & t' & Hw & Ht & Hlo & Hk).
    cbn [rest before caps] in *. exists (x :: w), t'. repeat split.
    - cbn. now rewrite Ex.
    - cbn. now rewrite Ht.
    - cbn. lia.
    - cbn [rev]. now rewrite <- app_assoc. }
  unfold orelse. destruct g.
  - destruct (if below n hi then _ else None) eqn:E.
    + intros H. apply Hmore. now rewrite <- H.
    + exact Hstop.
  - destruct (if lo <=? n then k st else None) eqn:E.
    + intros H. apply Hstop. now rewrite <- H.
    + exact Hmore.
Qed.

(** A group of one or more characters of a class holds such characters,
    and at least one. *)
Lemma run_group_plus (i : nat) (p : ascii -> bool) (st : mstate) (k : cont)
  (sf : mstate) :
  run (Group i (plus (Cls p))) st k = Some sf ->
  exists w t,
    w <> [] /\ forallb p w = true /\ rest st = w ++ t
    /\ k (MState (rev w ++ before st) t
            ((i, (pos st, pos st + length w)) :: caps st)) = Some sf.
Proof.
  rewrite run_group. unfold plus. cbn [run]. intros H.
  apply rep_loop_class in H as (w & t & Hw & Ht & Hlo & Hk).
  exists w, t. split; [destruct w; [simpl in Hlo; lia | discriminate]|].
  split; [exact Hw|]. split; [exact Ht|].
  unfold set_cap, pos in Hk. cbn [before rest caps] in Hk.
  rewrite length_app, length_rev in Hk.
  now rewrite (Nat.add_comm (length w)) in Hk.
Qed.

(** The text between two places of the subject. *)
Lemma slice_subject (b w t : str) :
  slice (length b) (length b + length w) (rev b ++ w ++ t) = w.
Proof.
  unfold slice. rewrite TagFacts.skipn_length_app by apply length_rev.
  replace (length b + length w - length b) with (length w) by lia.
  now apply TagFacts.firstn_length_app.
Qed.

(** Group 3 of a signature match: the identifier. *)
Lemma signature_name (content : str) (sg : signature) :
  In sg (signatures content) ->
  func_name sg <> [] /\ forallb name_char (func_name sg) = true.
Proof.
  unfold signatures. intros H. apply in_map_iff in H as (m & <- & Hin).
  cbn [signature_of func_name].
  apply finditer_match in Hin as (pre & s & Hm & Hs).
  unfold match_at in Hm.
  destruct (run func_pattern (MState pre s []) Some) as [sf|] eqn:E;
    [|discriminate].
  injection Hm as <-. unfold group. cbn [m_caps].
  set (st0 := MState pre s []) in *.
  assert (Hsub : subject st0 = content) by exact Hs.
  unfold func_pattern in E. cbn [cat] in E.
  rewrite run_cat in E. apply run_calls in E as (st1 & R1 & _ & E).
  rewrite run_cat in E. apply run_calls in E as (st2 & R2 & _ & E).
  rewrite run_cat in E. apply run_calls in E as (st3 & R3 & _ & E).
  rewrite run_cat in E. apply run_calls in E as (st4 & R4 & _ & E).
  rewrite run_cat in E. apply run_calls in E as (st5 & R5 & _ & E).
  rewrite run_cat in E. apply run_calls in E as (st6 & R6 & _ & E).
  rewrite run_cat in E.
  apply run_group_plus in E as (w & t & Hw & Hp & Hr & E).
  apply run_calls in E as (st7 & R7 & _ & E). injection E as <-.
  destruct (reaches_caps _ _ _ R7) as (new & Hc & Hn).
  rewrite Hc. cbn [caps]. rewrite lookup_cap_skip.
  2:{ eapply Forall_impl; [|exact Hn]. other_groups. }
  cbn [lookup_cap Nat.eqb].
  assert (Hs6 : subject st6 = content).
  { rewrite <- Hsub.
    rewrite (reaches_subject _ _ _ R6), (reaches_subject _ _ _ R5),
      (reaches_subject _ _ _ R4), (reaches_subject _ _ _ R3),
      (reaches_subject _ _ _ R2), (reaches_subject _ _ _ R1). reflexivity. }
  unfold subject in Hs6. rewrite Hr in Hs6. rewrite <- Hs6.
  unfold pos. rewrite slice_subject. now split.
Qed.

End GroupFacts.

(** X6. Every function of the parsed list has a name that is not empty
    and is made of word characters, dots and colons only: the text of
    group 3 of the signature pattern. *)
Theorem X6_function_names_are_identifiers (content : str) :
  Forall (fun f => f_name f <> []
                   /\ forallb Parser.name_char (f_name f) = true)
         (Parser.parse_functions content).
Proof.
  apply Forall_forall. intros f Hf.
  apply FunctionFacts.parse_functions_in in Hf as (sg & Hsg & _ & _ & ->).
  cbn [Parser.func_info_of f_name].
  now apply (GroupFacts.signature_name content).
Qed.

(** ** The order of the matches *)

Module OrderFacts.
Import PyStr PyStrFacts Re Parser ReFacts SignatureFacts.

Lemma match_at_bounds (r : regex) (pre s : str) (m : rmatch) :
  match_at r pre s = Some m ->
  m_start m = length pre
  /\ length pre <= m_end m /\ m_end m <= length pre + length s.
Proof.
  unfold match_at. destruct (run r _ Some) as [sf|] eqn:E; [|discriminate].
  intros H. injection H as <-. cbn [m_start m_end].
  apply run_calls in E as (st' & R & _ & E). injection E as <-.
  split; [reflexivity|]. split.
  - apply reaches_pos in R. exact R.
  - apply reaches_within in R. unfold subject in R. cbn [before rest] in R.
    rewrite length_app, length_rev in R. exact R.
Qed.

Lemma search_from_bounds (r : regex) (s pre : str) (m : rmatch) :
  search_from r pre s = Some m ->
  length pre <= m_start m /\ m_start m <= m_end m
  /\ m_end m <= length pre + length s.
Proof.
  revert pre; induction s as [|c s IH]; intros pre; cbn [search_from].
  - destruct (match_at r pre []) eqn:E; [|discriminate].
    intros H. injection H as <-. apply match_at_bounds in E. lia.
  - destruct (match_at r pre (c :: s)) eqn:E.
    + intros H. injection H as <-. apply match_at_bounds in E. lia.
    + intros H. apply IH in H. cbn [length] in *. lia.
Qed.

(** The matches of [finditer] come in the order of the subject and do
    not overlap. *)
Lemma finditer_go_ordered (r : regex) (fuel : nat) :
  forall pre s,
    Forall (fun m => length pre <= m_start m) (finditer_go fuel r pre s)
    /\ StronglySorted (fun a b => m_end a <= m_start b)
         (finditer_go fuel r pre s).
Proof.
  induction fuel as [|fuel IH]; intros pre s; cbn [finditer_go].
  - split; constructor.
  - destruct (search_from r pre s) as [m|] eqn:E; [|split; constructor].
    apply search_from_bounds in E as (H1 & H2 & H3).
    set (n := Nat.max 1 (m_end m - length pre)).
    destruct (IH (rev (firstn n s) ++ pre) (skipn n s)) as [F S].
    assert (Hlen : m_end m <= length (rev (firstn n s) ++ pre)
                   /\ length pre <= length (rev (firstn n s) ++ pre)).
    { rewrite length_app, length_rev, length_firstn. unfold n. lia. }
    split.
    + constructor; [exact H1|].
      eapply Forall_impl; [|exact F]. cbv beta. intros a Ha. lia.
    + constructor; [exact S|].
      eapply Forall_impl; [|exact F]. cbv beta. intros a Ha. lia.
Qed.

Lemma finditer_ordered (r : regex) (s : str) :
  StronglySorted (fun a b => m_end a <= m_start b) (finditer r s).
Proof. apply finditer_go_ordered. Qed.

Lemma crossed_then (c : ascii) (ids : list nat) (x y z : mstate) :
  crossed c x y -> reaches ids y z -> crossed c x z.
Proof.
  intros (w & Hw & Hin) (_ & [d Hd] & _). exists (d ++ w).
  split; [now rewrite Hd, Hw, app_assoc | apply in_or_app; now right].
Qed.

Lemma after_then (c : ascii) (ids : list nat) (x y z : mstate) :
  reaches ids x y -> crossed c y z -> crossed c x z.
Proof.
  intros (_ & [d Hd] & _) (w & Hw & Hin). exists (w ++ d).
  split; [now rewrite Hw, Hd, app_assoc | apply in_or_app; now left].
Qed.

Lemma run_chr_crossed (c : ascii) (st : mstate) (k : cont) (sf : mstate) :
  run (chr c) st k = Some sf ->
  exists st', reaches [] st st' /\ crossed c st st' /\ k st' = Some sf.
Proof.
  unfold chr. cbn [run].
  destruct (advance st) as [[x st']|] eqn:E; [|discriminate].
  unfold only. destruct (Ascii.eqb_spec c x) as [<-|]; [|discriminate].
  intros H. exists st'. split; [eapply reaches_advance; eauto|].
  split; [|exact H]. unfold advance in E.
  destruct (rest st); [discriminate|]. injection E as -> <-.
  exists [c]. split; [reflexivity | now left].
Qed.

(** A repeat of at least one iteration whose body passes [c] passes
    [c]. *)
Lemma plus_crossed (c : ascii) (ids : list nat) (n : nat)
  (body : mstate -> cont -> option mstate) (g : bool) (hi : option nat)
  (k : cont) (fuel : nat) (st sf : mstate) :
  calls ids n body ->
  (forall st k sf, body st k = Some sf ->
     exists st', reaches ids st st' /\ crossed c st st' /\ k st' = Some sf) ->
  rep_loop body g 1 hi k fuel 0 st = Some sf ->
  exists st', reaches ids st st' /\ crossed c st st' /\ k st' = Some sf.
Proof.
  intros Hcalls Hbody. destruct fuel as [|fuel]; cbn [rep_loop];
    [discriminate|].
  cbn [Nat.leb]. unfold orelse.
  assert (Hmore :
    (if below 0 hi
     then body st (fun st' =>
            if length (rest st') <? length (rest st)
            then rep_loop body g 1 hi k fuel 1 st'
            else k st')
     else None) = Some sf ->
    exists st', reaches ids st st' /\ crossed c st st' /\ k st' = Some sf).
  { destruct (below 0 hi); [|discriminate]. intros H.
    apply Hbody in H as (st1 & R1 & C1 & H).
    destruct (length (rest st1) <? length (rest st)).
    - apply (rep_loop_calls _ _ _ _ _ _ Hcalls) in H as (st2 & R2 & _ & H).
      exists st2. split; [eapply reaches_trans; eauto|].
      split; [eapply crossed_then; eauto | exact H].
    - exists st1. auto. }
  destruct g.
  - destruct (if below 0 hi then _ else None) eqn:E.
    + intros H. apply Hmore. now rewrite <- H.
    + discriminate.
  - exact Hmore.
Qed.

Lemma run_plus_crossed (c : ascii) (a : regex) (st : mstate) (k : cont)
  (sf : mstate) :
  (forall st k sf, run a st k = Some sf ->
     exists st', reaches (groups a) st st' /\ crossed c st st'
                 /\ k st' = Some sf) ->
  run (plus a) st k = Some sf ->
  exists st', reaches (groups a) st st' /\ crossed c st st'
              /\ k st' = Some sf.
Proof.
  intros Ha. unfold plus. cbn [run]. intros E.
  eapply plus_crossed in E; [exact E | apply run_calls | exact Ha].
Qed.

Lemma count_app (c : ascii) (a b : str) :
  count c (a ++ b) = count c a + count c b.
Proof. unfold count. now rewrite filter_app, length_app. Qed.

Lemma count_in (c : ascii) (w : str) : In c w -> 1 <= count c w.
Proof.
  unfold count. induction w as [|x w IH]; [intros []|].
  cbn [filter]. destruct (Ascii.eqb_spec c x) as [->|Hx].
  - intros _. cbn. lia.
  - intros [H|H]; [congruence | auto].
Qed.

Lemma count_firstn_le (c : ascii) (n : nat) (s : str) :
  count c (firstn n s) <= count c s.
Proof.
  rewrite <- (firstn_skipn n s) at 2. rewrite count_app. lia.
Qed.

(** A comment line of a signature match passes a line feed. *)
Lemma comment_line_crossed (st : mstate) (k : cont) (sf : mstate) :
  run (cat [star (Cls blank); lit "--"; opt (chr "-"); lazy_star dot;
            chr nl]) st k = Some sf ->
  exists st', reaches [] st st' /\ crossed nl st st' /\ k st' = Some sf.
Proof.
  cbn [cat]. intros E.
  rewrite run_cat in E. apply run_calls in E as (st1 & R1 & _ & E).
  rewrite run_cat in E. apply run_calls in E as (st2 & R2 & _ & E).
  rewrite run_cat in E. apply run_calls in E as (st3 & R3 & _ & E).
  rewrite run_cat in E. apply run_calls in E as (st4 & R4 & _ & E).
  apply run_chr_crossed in E as (st5 & R5 & C5 & E).
  assert (R04 : reaches [] st st4).
  { eapply reaches_trans; [|exact R4].
    eapply reaches_trans; [|exact R3].
    eapply reaches_trans; [exact R1 | exact R2]. }
  exists st5. split; [|split; [|exact E]].
  - eapply reaches_trans; [exact R04 | exact R5].
  - eapply after_then; [exact R04 | exact C5].
Qed.

(** A signature match passes a line feed: it ends on a later line than
    the one it starts on. *)
Lemma signature_crosses_line (content : str) (m : rmatch) :
  In m (finditer func_pattern content) ->
  count nl (firstn (m_start m) content)
  < count nl (firstn (m_end m) content).
Proof.
  intros Hin. apply finditer_match in Hin as (pre & s & Hm & Hs).
  unfold match_at in Hm.
  destruct (run func_pattern (MState pre s []) Some) as [sf|] eqn:E;
    [|discriminate].
  injection Hm as <-. cbn [m_start m_end].
  set (st0 := MState pre s []) in *.
  assert (Hsub : subject st0 = content) by exact Hs.
  unfold func_pattern in E. cbn [cat] in E.
  rewrite run_cat, run_group in E.
  apply (run_plus_crossed nl) in E; [|exact comment_line_crossed].
  destruct E as (st1 & R1 & C1 & E).
  apply run_calls in E as (st2 & R2 & _ & E). injection E as <-.
  assert (C : crossed nl st0 st2).
  { eapply crossed_then; [|exact R2]. exact C1. }
  destruct C as (w & Hw & Hnl). cbn [before st0] in Hw.
  assert (Hc : content = rev pre ++ rev w ++ rest st2).
  { rewrite <- Hsub, <- (reaches_subject _ _ _ R1).
    change (subject st1)
      with (subject (set_cap 1 (pos st0) (pos st1) st1)).
    rewrite <- (reaches_subject _ _ _ R2). unfold subject.
    now rewrite Hw, rev_app_distr, <- app_assoc. }
  unfold pos. rewrite Hw, length_app. rewrite Hc.
  rewrite TagFacts.firstn_length_app by apply length_rev.
  rewrite app_assoc.
  rewrite TagFacts.firstn_length_app
    by (rewrite length_app, !length_rev; lia).
  rewrite count_app. apply in_rev in Hnl. apply count_in in Hnl. lia.
Qed.

Lemma count_firstn_mono (c : ascii) (a b : nat) (s : str) :
  a <= b -> count c (firstn a s) <= count c (firstn b s).
Proof.
  intros H. replace a with (Nat.min a b) by lia.
  rewrite <- firstn_firstn. apply count_firstn_le.
Qed.

Lemma function_of_line (content : str) (m : rmatch) (f : func_info) :
  function_of content (signature_of content m) = Some f ->
  f_line f = count nl (firstn (m_start m) content) + 1.
Proof.
  unfold function_of. destruct (skipped _ _); [discriminate|].
  destruct (documented _); [|discriminate]. intros H. injection H as <-.
  reflexivity.
Qed.

Lemma lines_increase (content : str) (ms : list rmatch) :
  Forall (fun m => count nl (firstn (m_start m) content)
                   < count nl (firstn (m_end m) content)) ms ->
  StronglySorted (fun a b => m_end a <= m_start b) ms ->
  StronglySorted lt
    (map f_line
       (somes (map (fun m => function_of content (signature_of content m))
                   ms))).
Proof.
  intros Hx Hs. induction Hs as [|m ms Hs IH Hm]; [constructor|].
  inversion Hx as [|? ? Hm1 Hx1]; subst. specialize (IH Hx1).
  cbn [map somes].
  destruct (function_of content (signature_of content m)) as [f|] eqn:E;
    [|exact IH].
  cbn [map]. constructor; [exact IH|].
  apply Forall_forall. intros n Hn.
  apply in_map_iff in Hn as (f' & <- & Hf').
  apply FunctionFacts.in_somes, in_map_iff in Hf' as (m' & Hf' & Hin).
  rewrite Forall_forall in Hm. specialize (Hm m' Hin).
  rewrite (function_of_line _ _ _ E), (function_of_line _ _ _ Hf').
  pose proof (count_firstn_mono nl _ _ content Hm). lia.
Qed.

End OrderFacts.

(** X7. The functions of a module are listed in the order of the file,
    no two of them on one line: the line numbers grow strictly along the
    list, and each lies between 1 and the number of line feeds of the
    file. *)
Theorem X7_functions_in_source_order (content : str) :
  StronglySorted lt (map f_line (Parser.parse_functions content))
  /\ Forall (fun f => 1 <= f_line f <= PyStr.count PyStr.nl content)
            (Parser.parse_functions content).
Proof.
  split.
  - unfold Parser.parse_functions, Parser.signatures. rewrite map_map.
    apply OrderFacts.lines_increase.
    + apply Forall_forall. intros m Hm.
      now apply OrderFacts.signature_crosses_line.
    + apply OrderFacts.finditer_ordered.
  - apply Forall_forall. intros f Hf.
    apply FunctionFacts.parse_functions_in in Hf as (sg & Hsg & _ & _ & ->).
    unfold Parser.signatures in Hsg.
    apply in_map_iff in Hsg as (m & <- & Hm).
    cbn [Parser.func_info_of f_line Parser.signature_of Parser.start].
    unfold Parser.line_num.
    apply OrderFacts.signature_crosses_line in Hm.
    pose proof (OrderFacts.count_firstn_le PyStr.nl (Re.m_end m) content).
    lia.
Qed.

(** ** The tag values and the parameters *)

Module FieldFacts.
Import PyStr PyStrFacts Re Parser ReFacts SignatureFacts GroupFacts.

(** One or more characters of a class, outside a group. *)
Lemma run_plus_class (p : ascii -> bool) (st : mstate) (k : cont)
  (sf : mstate) :
  run (plus (Cls p)) st k = Some sf ->
  exists w t,
    w <> [] /\ forallb p w = true /\ rest st = w ++ t
    /\ k (MState (rev w ++ before st) t (caps st)) = Some sf.
Proof.
  unfold plus. cbn [run]. intros H.
  apply rep_loop_class in H as (w & t & Hw & Ht & Hlo & Hk).
  exists w, t. split; [destruct w; [simpl in Hlo; lia | discriminate]|].
  auto.
Qed.

(** The text of a group that is looked up in the groups of the final
    state. *)
Lemma group_text (content : str) (i : nat) (b w t : str)
  (new l : list (nat * (nat * nat))) :
  rev b ++ w ++ t = content ->
  Forall (fun e => fst e <> i) new ->
  match lookup_cap i (new ++ (i, (length b, length b + length w)) :: l) with
  | Some (x, y) => Some (slice x y content)
  | None => None
  end = Some w.
Proof.
  intros <- Hn. rewrite lookup_cap_skip by exact Hn.
  cbn [lookup_cap]. rewrite Nat.eqb_refl. now rewrite slice_subject.
Qed.

Lemma forallb_in {A} (p : A -> bool) (l : list A) (x : A) :
  forallb p l = true -> In x l -> p x = true.
Proof. intros H. now apply forallb_forall. Qed.

(** The value of a tag is one line without white space around it. *)
Lemma tag_value_one_line (tag block : str) :
  Shape.one_line (tag_value tag block).
Proof.
  unfold tag_value, Shape.one_line.
  destruct (search (tag_pattern tag) block) as [m|] eqn:E; [|exact I].
  apply search_from_match in E as (pre & s & Hm & Hs).
  cbn [rev app] in Hs. unfold match_at in Hm.
  destruct (run (tag_pattern tag) (MState pre s []) Some) as [sf|] eqn:E;
    [|discriminate].
  injection Hm as <-. unfold group. cbn [m_caps].
  set (st0 := MState pre s []) in *.
  unfold tag_pattern in E. cbn [cat] in E.
  rewrite run_cat in E. apply run_calls in E as (st1 & R1 & _ & E).
  rewrite run_cat in E. apply run_calls in E as (st2 & R2 & _ & E).
  apply run_group_plus in E as (w & t & Hw & Hp & Hr & E).
  injection E as <-. cbn [caps].
  assert (Hsub : subject st2 = block).
  { rewrite (reaches_subject _ _ _ R2), (reaches_subject _ _ _ R1).
    exact Hs. }
  unfold subject in Hsub. rewrite Hr in Hsub.
  unfold pos.
  pose proof (group_text block 1 (before st2) w t [] (caps st2) Hsub
                (Forall_nil _)) as G.
  cbn [app] in G. rewrite G. clear G.
  cbn [option_map]. split.
  - intros Hin. apply ModuleTextFacts.strip_in in Hin.
    apply (forallb_in _ _ _ Hp) in Hin. unfold except in Hin.
    now rewrite Ascii.eqb_refl in Hin.
  - apply DescriptionFacts.strip_trimmed.
Qed.

(** The literal of the version assignment is not empty and holds no
    quote. *)
Lemma code_version_literal (content v : str) :
  code_version content = Some v ->
  v <> [] /\ forallb (fun c => negb (quote c)) v = true.
Proof.
  unfold code_version.
  destruct (search code_version_pattern content) as [m|] eqn:E;
    [|discriminate].
  apply search_from_match in E as (pre & s & Hm & Hs).
  cbn [rev app] in Hs. unfold match_at in Hm.
  destruct (run code_version_pattern (MState pre s []) Some) as [sf|] eqn:E;
    [|discriminate].
  injection Hm as <-. unfold group. cbn [m_caps].
  set (st0 := MState pre s []) in *.
  unfold code_version_pattern in E. cbn [cat] in E.
  rewrite run_cat in E. apply run_calls in E as (st1 & R1 & _ & E).
  rewrite run_cat in E. apply run_calls in E as (st2 & R2 & _ & E).
  rewrite run_cat in E. apply run_calls in E as (st3 & R3 & _ & E).
  rewrite run_cat in E. apply run_calls in E as (st4 & R4 & _ & E).
  rewrite run_cat in E. apply run_calls in E as (st5 & R5 & _ & E).
  rewrite run_cat in E.
  apply run_group_plus in E as (w & t & Hw & Hp & Hr & E).
  apply run_calls in E as (st6 & R6 & _ & E). injection E as <-.
  destruct (reaches_caps _ _ _ R6) as (new & Hc & Hn).
  rewrite Hc. cbn [caps].
  assert (Hsub : subject st5 = content).
  { rewrite (reaches_subject _ _ _ R5), (reaches_subject _ _ _ R4),
      (reaches_subject _ _ _ R3), (reaches_subject _ _ _ R2),
      (reaches_subject _ _ _ R1). exact Hs. }
  unfold subject in Hsub. rewrite Hr in Hsub.
  unfold pos. rewrite (group_text content 1 (before st5) w t new _ Hsub).
  - intros H. injection H as <-. now split.
  - eapply Forall_impl; [|exact Hn]. intros e He. cbv beta in He.
    cbn in He. tauto.
Qed.

(** An optional character after a state. *)
Lemma run_opt_chr (c : ascii) (st : mstate) (k : cont) (sf : mstate) :
  run (opt (chr c)) st k = Some sf ->
  exists o t,
    (o = [] \/ o = [c]) /\ rest st = o ++ t
    /\ k (MState (rev o ++ before st) t (caps st)) = Some sf.
Proof.
  intros H. apply run_opt in H as [H | (k' & H & Hk')].
  - exists [], (rest st). cbn. rewrite TagFacts.mstate_eta. auto.
  - unfold chr in H. cbn [run] in H. unfold advance in H.
    destruct (rest st) as [|x t] eqn:Er; [discriminate|].
    unfold only in H. destruct (Ascii.eqb_spec c x) as [<-|]; [|discriminate].
    apply Hk' in H. exists [c], t. cbn. auto.
Qed.

Lemma no_groups (new : list (nat * (nat * nat))) :
  Forall (fun e => In (fst e) []) new -> new = [].
Proof. destruct 1 as [|e new []]. reflexivity. Qed.

(** The name and the type taken from a parameter line. *)
Lemma param_of_shape (line : str) (p : param) :
  param_of line = Some p ->
  Shape.param_name (p_name p)
  /\ p_type p <> []
  /\ forallb (fun c => negb (is_space c)) (p_type p) = true.
Proof.
  unfold param_of, re_match, match_at.
  destruct (run param_pattern (MState [] line []) Some) as [sf|] eqn:E;
    [|discriminate].
  intros H. injection H as <-. cbn [p_name p_type]. unfold group.
  cbn [m_caps].
  set (st0 := MState [] line []) in *.
  assert (Hs : subject st0 = line) by reflexivity.
  unfold param_pattern in E. cbn [cat] in E.
  rewrite run_cat in E. apply run_calls in E as (st1 & R1 & _ & E).
  rewrite run_cat in E. apply run_calls in E as (st2 & R2 & _ & E).
  rewrite run_cat, run_group, run_cat in E. unfold word in E.
  apply run_plus_class in E as (w1 & t1 & Hw1 & Hp1 & Hr1 & E).
  apply run_opt_chr in E as (o & t1' & Ho & Hr1' & E).
  cbn [rest before caps] in Hr1', E. cbv beta in E.
  rewrite run_cat in E. apply run_calls in E as (st3 & R3 & _ & E).
  rewrite run_cat in E.
  apply run_group_plus in E as (w2 & t2 & Hw2 & Hp2 & Hr2 & E).
  apply run_calls in E as (st5 & R5 & _ & E). injection E as <-.
  destruct (reaches_caps _ _ _ R5) as (new5 & Hc5 & Hn5).
  destruct (reaches_caps _ _ _ R3) as (new3 & Hc3 & Hn3).
  apply no_groups in Hn3. subst new3.
  cbn [caps set_cap app] in Hc3, Hc5. rewrite Hc3 in Hc5. rewrite Hc5.
  assert (Hsub2 : subject st2 = line).
  { now rewrite (reaches_subject _ _ _ R2), (reaches_subject _ _ _ R1). }
  assert (Hsub3 : subject st3 = line).
  { rewrite (reaches_subject _ _ _ R3). unfold subject, set_cap.
    cbn [before rest]. rewrite <- Hsub2. unfold subject.
    rewrite Hr1, Hr1', !rev_app_distr, !rev_involutive, <- !app_assoc.
    reflexivity. }
  unfold subject in Hsub2, Hsub3. rewrite Hr1, Hr1' in Hsub2.
  rewrite Hr2 in Hsub3.
  rewrite (app_assoc w1 o t1') in Hsub2.
  unfold pos. cbn [before].
  replace (length (rev o ++ rev w1 ++ before st2))
    with (length (before st2) + length (w1 ++ o))
    by (rewrite !length_app, !length_rev; lia).
  pose proof (group_text line 1 (before st2) (w1 ++ o) t1'
                (new5 ++ [(2, (length (before st3),
                               length (before st3) + length w2))])
                (caps st2) Hsub2) as G1.
  rewrite <- app_assoc in G1. cbn [app] in G1. rewrite G1.
  2:{ apply Forall_app. split.
      - eapply Forall_impl; [|exact Hn5]. other_groups.
      - constructor; [cbn; discriminate | constructor]. }
  rewrite (group_text line 2 (before st3) w2 t2 new5 _ Hsub3).
  2:{ eapply Forall_impl; [|exact Hn5]. other_groups. }
  split; [|now split].
  exists w1, o. auto.
Qed.

End FieldFacts.

(** X8.  The author and the license of a module, when given, are one
    line each, without white space around it; so is a version taken
    from the version tag, and a version taken from the code is the text
    between two quotes: not empty, and without a quote. *)
Theorem X8_metadata_fields_shape (content : str) :
  Shape.one_line (Parser.parse_author content)
  /\ Shape.one_line (Parser.parse_license content)
  /\ (forall v, Parser.parse_version content = Some v ->
        Shape.one_line (Some v)
        \/ (v <> []
            /\ forallb (fun c => negb (Parser.quote c)) v = true)).
Proof.
  split; [|split].
  - unfold Parser.parse_author.
    destruct (Parser.block_of content); [|exact I].
    apply FieldFacts.tag_value_one_line.
  - unfold Parser.parse_license.
    destruct (Parser.block_of content); [|exact I].
    apply FieldFacts.tag_value_one_line.
  - intros v. unfold Parser.parse_version.
    assert (Hb : Shape.one_line (Parser.block_version content)).
    { unfold Parser.block_version.
      destruct (Parser.block_of content); [|exact I].
      apply FieldFacts.tag_value_one_line. }
    destruct (given (Parser.block_version content)).
    + intros E. rewrite E in Hb. now left.
    + destruct (Parser.code_version content) as [c|] eqn:Ec.
      * intros E. injection E as <-. right.
        now apply (FieldFacts.code_version_literal content).
      * intros E. rewrite E in Hb. now left.
Qed.

(** X9.  Every parameter of a listed function has a name made of word
    characters, with or without a question mark after them, and a type
    that is not empty and holds no white space. *)
Theorem X9_parameters_shape (content : str) :
  Forall (fun f =>
            Forall (fun p =>
                      Shape.param_name (p_name p)
                      /\ p_type p <> []
                      /\ forallb (fun c => negb (PyStr.is_space c))
                           (p_type p) = true)
                   (f_params f))
         (Parser.parse_functions content).
Proof.
  apply Forall_forall. intros f Hf.
  apply FunctionFacts.parse_functions_in in Hf as (sg & _ & _ & _ & ->).
  cbn [Parser.func_info_of f_params]. unfold Parser.parse_doc.
  destruct (DocFacts.fold_doc_step
              (PyStr.split PyStr.nl (Parser.doc_block sg))
              (Parser.DocState [] [] [])) as [Hp _].
  rewrite Hp. cbn [Parser.d_params app].
  apply Forall_forall. intros p Hin.
  apply FunctionFacts.in_somes, in_map_iff in Hin as (line & Hl & _).
  now apply FieldFacts.param_of_shape in Hl.
Qed.

(** ** Replacing one character *)

Module ReplaceFacts.
Import PyStr PyStrFacts.

(** Replacing a single character works character by character. *)
Lemma replace_char (c : ascii) (new s : str) :
  replace [c] new s
  = flat_map (fun x => if Ascii.eqb c x then new else [x]) s.
Proof.
  unfold replace. induction s as [|x s IH]; [reflexivity|].
  cbn [replace_go startswith flat_map length Nat.sub].
  rewrite andb_true_r. destruct (Ascii.eqb c x); now rewrite IH.
Qed.

Lemma replace_char_app (c : ascii) (new a b : str) :
  replace [c] new (a ++ b) = replace [c] new a ++ replace [c] new b.
Proof. rewrite !replace_char. apply flat_map_app. Qed.

(** The character replaced is gone, unless the new text brings it. *)
Lemma replace_char_gone (c : ascii) (new s : str) :
  ~ In c new -> ~ In c (replace [c] new s).
Proof.
  intros Hn. rewrite replace_char. intros H.
  apply in_flat_map in H as (x & _ & H).
  destruct (Ascii.eqb_spec c x) as [->|Hx]; [contradiction|].
  destruct H as [H | []]. congruence.
Qed.

(** A character that was absent and is not brought stays absent. *)
Lemma replace_char_keeps_out (c d : ascii) (new s : str) :
  ~ In d new -> ~ In d s -> ~ In d (replace [c] new s).
Proof.
  intros Hn Hs. rewrite replace_char. intros H.
  apply in_flat_map in H as (x & Hx & H).
  destruct (Ascii.eqb c x); [contradiction|].
  destruct H as [<- | []]. contradiction.
Qed.

Lemma replace_char_absent (c : ascii) (new s : str) :
  ~ In c s -> replace [c] new s = s.
Proof.
  rewrite replace_char. induction s as [|x s IH]; [reflexivity|].
  intros H. cbn [flat_map].
  destruct (Ascii.eqb_spec c x) as [->|Hx]; [exfalso; apply H; now left|].
  cbn. rewrite IH; [reflexivity|]. intros Hin. apply H. now right.
Qed.

Lemma escape_chars (s : str) :
  Render.escape s = flat_map Shape.escape_char s.
Proof.
  unfold Render.escape.
  change (list_ascii_of_string ">") with [">"%char].
  change (list_ascii_of_string "<") with ["<"%char].
  rewrite !replace_char. induction s as [|x s IH]; [reflexivity|].
  cbn [flat_map]. rewrite flat_map_app, IH. f_equal.
  unfold Shape.escape_char. rewrite (Ascii.eqb_sym x "<"), (Ascii.eqb_sym x ">").
  destruct (Ascii.eqb_spec "<" x) as [<-|H1]; [reflexivity|].
  cbn [flat_map]. rewrite app_nil_r. reflexivity.
Qed.

End ReplaceFacts.

(** X10.  Escaping works character by character: the text of two parts
    is the two escaped parts; the result holds no angle bracket; and a
    text is left as it is exactly when it holds none.  The ampersand is
    not escaped. *)
Theorem X10_escape_angle_brackets (s t : str) :
  Render.escape (s ++ t) = Render.escape s ++ Render.escape t
  /\ ~ In "<"%char (Render.escape s)
  /\ ~ In ">"%char (Render.escape s)
  /\ (Render.escape s = s <-> ~ In "<"%char s /\ ~ In ">"%char s)
  /\ Render.escape ("&" ++ s) = "&" ++ Render.escape s.
Proof.
  split; [|split; [|split; [|split]]].
  - rewrite !ReplaceFacts.escape_chars. apply flat_map_app.
  - unfold Render.escape.
    apply (ReplaceFacts.replace_char_keeps_out ">" "<" "&gt;").
    + cbn. intuition discriminate.
    + apply (ReplaceFacts.replace_char_gone "<" "&lt;").
      cbn. intuition discriminate.
  - unfold Render.escape.
    apply (ReplaceFacts.replace_char_gone ">" "&gt;").
    cbn. intuition discriminate.
  - split.
    + intros E. rewrite <- E. split.
      * unfold Render.escape.
        apply (ReplaceFacts.replace_char_keeps_out ">" "<" "&gt;").
        -- cbn. intuition discriminate.
        -- apply (ReplaceFacts.replace_char_gone "<" "&lt;").
           cbn. intuition discriminate.
      * unfold Render.escape.
        apply (ReplaceFacts.replace_char_gone ">" "&gt;").
        cbn. intuition discriminate.
    + intros [H1 H2]. unfold Render.escape.
      change (list_ascii_of_string "<") with ["<"%char].
      rewrite (ReplaceFacts.replace_char_absent "<" _ s H1).
      now apply (ReplaceFacts.replace_char_absent ">").
  - rewrite !ReplaceFacts.escape_chars. reflexivity.
Qed.

(** ** The names of the modules and of their pages *)

Module NameFacts.
Import PyStr PyStrFacts.

Lemma name_flat (rel_path content : str) :
  ~ In "/"%char (name (Parser.parse_file rel_path content)).
Proof.
  cbn [Parser.parse_file name].
  apply (ReplaceFacts.replace_char_gone "/" ".").
  cbn. intuition discriminate.
Qed.

Lemma page_name_flat (m : module) :
  exists n, Index.page_name m = n ++ ".html"
            /\ ~ In "."%char n
            /\ (~ In "/"%char (name m) -> ~ In "/"%char n).
Proof.
  exists (replace "." "_" (name m)). split; [reflexivity|]. split.
  - apply (ReplaceFacts.replace_char_gone "." "_").
    cbn. intuition discriminate.
  - apply (ReplaceFacts.replace_char_keeps_out "." "/" "_").
    cbn. intuition discriminate.
Qed.

End NameFacts.

(** ** The order of the files *)

Module OrderTheory.
Import PyStr PyStrFacts.

Section Lex.

Variables (A : Type) (ltb eqb : A -> A -> bool).
Hypothesis eqb_eq : forall a b, eqb a b = true <-> a = b.
Hypothesis lt_irrefl : forall a, ltb a a = false.
Hypothesis lt_trans :
  forall a b c, ltb a b = true -> ltb b c = true -> ltb a c = true.
Hypothesis lt_total :
  forall a b, ltb a b = false -> ltb b a = false -> a = b.

Local Abbreviation lex := (Order.lex ltb eqb).

Lemma eqb_refl (a : A) : eqb a a = true.
Proof. now apply eqb_eq. Qed.

Lemma lt_neq (a b : A) : ltb a b = true -> eqb a b = false.
Proof.
  intros H. destruct (eqb a b) eqn:E; [|reflexivity].
  apply eqb_eq in E. subst b. now rewrite lt_irrefl in H.
Qed.

Lemma lt_asym (a b : A) : ltb a b = true -> ltb b a = false.
Proof.
  intros H. destruct (ltb b a) eqn:E; [|reflexivity].
  now rewrite <- (lt_irrefl a), <- (lt_trans a b a H E).
Qed.

Lemma lex_irrefl (a : list A) : lex a a = false.
Proof.
  induction a as [|x a IH]; [reflexivity|].
  cbn [Order.lex]. now rewrite lt_irrefl, eqb_refl.
Qed.

Lemma lex_trans (a b c : list A) :
  lex a b = true -> lex b c = true -> lex a c = true.
Proof.
  revert b c; induction a as [|x a IH]; intros [|y b] [|z c]; cbn [Order.lex];
    try discriminate; auto.
  destruct (ltb x y) eqn:Hxy.
  - intros _. destruct (ltb y z) eqn:Hyz.
    + intros _. now rewrite (lt_trans x y z).
    + destruct (eqb y z) eqn:Eyz; [|discriminate].
      apply eqb_eq in Eyz. subst z. now rewrite Hxy.
  - destruct (eqb x y) eqn:Exy; [|discriminate].
    apply eqb_eq in Exy. subst y. intros Hab.
    destruct (ltb x z); [reflexivity|].
    destruct (eqb x z); [|discriminate]. now apply IH.
Qed.

Lemma lex_total (a b : list A) :
  lex a b = false -> lex b a = false -> a = b.
Proof.
  revert b; induction a as [|x a IH]; intros [|y b]; cbn [Order.lex];
    try discriminate; auto.
  destruct (ltb x y) eqn:Hxy; [discriminate|].
  destruct (ltb y x) eqn:Hyx; [discriminate|].
  rewrite (lt_total x y Hxy Hyx), eqb_refl. intros H1 H2.
  f_equal. now apply IH.
Qed.

End Lex.

Section Sort.

Variables (B K : Type) (ltb : K -> K -> bool) (key : B -> K).
Hypothesis lt_irrefl : forall a, ltb a a = false.
Hypothesis lt_trans :
  forall a b c, ltb a b = true -> ltb b c = true -> ltb a c = true.
Hypothesis lt_total :
  forall a b, ltb a b = false -> ltb b a = false -> a = b.

Local Abbreviation upto := (Order.upto ltb key).
Local Abbreviation ins := (Order.ins ltb key).

Lemma upto_trans (a b c : B) : upto a b -> upto b c -> upto a c.
Proof.
  unfold Order.upto. intros Hab Hbc.
  destruct (ltb (key c) (key a)) eqn:Hca; [|reflexivity].
  destruct (ltb (key a) (key b)) eqn:E.
  - now rewrite (lt_trans _ _ _ Hca E) in Hbc.
  - rewrite (lt_total _ _ E Hab) in Hca. congruence.
Qed.

Lemma in_ins (x y : B) (l : list B) : In y (ins x l) <-> y = x \/ In y l.
Proof.
  induction l as [|z l IH]; simpl.
  - intuition congruence.
  - destruct (ltb (key x) (key z)); simpl; [intuition congruence|].
    rewrite IH. intuition congruence.
Qed.

Lemma ins_sorted (x : B) (l : list B) :
  StronglySorted upto l -> StronglySorted upto (ins x l).
Proof.
  induction 1 as [|y t Ht IH Hy]; cbn [Order.ins].
  - constructor; constructor.
  - destruct (ltb (key x) (key y)) eqn:E.
    + assert (Hxy : upto x y).
      { unfold Order.upto. destruct (ltb (key y) (key x)) eqn:E'; [|reflexivity].
        now rewrite <- (lt_irrefl (key x)), <- (lt_trans _ _ _ E E'). }
      constructor; [now constructor|].
      constructor; [exact Hxy|].
      eapply Forall_impl; [|exact Hy]. intros z. now apply upto_trans.
    + constructor; [exact IH|].
      apply Forall_forall. intros z Hz. apply in_ins in Hz as [-> | Hz].
      * exact E.
      * rewrite Forall_forall in Hy. now apply Hy.
Qed.

Lemma fold_ins_sorted (l acc : list B) :
  StronglySorted upto acc ->
  StronglySorted upto (fold_left (fun a x => ins x a) l acc).
Proof.
  revert acc; induction l as [|x l IH]; intros acc H; [exact H|].
  cbn [fold_left]. apply IH. now apply ins_sorted.
Qed.

Lemma in_fold_ins (y : B) (l acc : list B) :
  In y (fold_left (fun a x => ins x a) l acc) <-> In y l \/ In y acc.
Proof.
  revert acc; induction l as [|x l IH]; intros acc; simpl; [tauto|].
  rewrite IH, in_ins. intuition congruence.
Qed.

End Sort.

Lemma sorted_filter {B} (R : B -> B -> Prop) (p : B -> bool) (l : list B) :
  StronglySorted R l -> StronglySorted R (filter p l).
Proof.
  induction 1 as [|x l Hl IH Hx]; cbn [filter]; [constructor|].
  destruct (p x); [|exact IH]. constructor; [exact IH|].
  apply Forall_forall. intros y Hy. apply filter_In in Hy as [Hy _].
  rewrite Forall_forall in Hx. now apply Hx.
Qed.

(** The order of the characters. *)
Lemma ascii_ltb_lt (a b : ascii) :
  Ascii.ltb a b = true <-> (N_of_ascii a < N_of_ascii b)%N.
Proof.
  unfold Ascii.ltb, Ascii.compare, N.lt.
  destruct (N_of_ascii a ?= N_of_ascii b)%N; split; congruence.
Qed.

Lemma ascii_ltb_ge (a b : ascii) :
  Ascii.ltb a b = false <-> (N_of_ascii b <= N_of_ascii a)%N.
Proof.
  rewrite <- not_true_iff_false, ascii_ltb_lt. lia.
Qed.

Lemma ascii_lt_irrefl (a : ascii) : Ascii.ltb a a = false.
Proof. apply ascii_ltb_ge. lia. Qed.

Lemma ascii_lt_trans (a b c : ascii) :
  Ascii.ltb a b = true -> Ascii.ltb b c = true -> Ascii.ltb a c = true.
Proof. rewrite !ascii_ltb_lt. lia. Qed.

Lemma ascii_lt_total (a b : ascii) :
  Ascii.ltb a b = false -> Ascii.ltb b a = false -> a = b.
Proof.
  rewrite !ascii_ltb_ge. intros H1 H2.
  rewrite <- (ascii_N_embedding a), <- (ascii_N_embedding b).
  f_equal. lia.
Qed.

Lemma str_ltb_lex (a b : str) : str_ltb a b = Order.lex Ascii.ltb Ascii.eqb a b.
Proof.
  revert b; induction a as [|x a IH]; intros [|y b]; cbn; auto;
    try now rewrite IH.
Qed.

Lemma str_lt_irrefl (a : str) : str_ltb a a = false.
Proof.
  rewrite str_ltb_lex.
  apply lex_irrefl; first [apply Ascii.eqb_eq | apply ascii_lt_irrefl].
Qed.

Lemma str_lt_trans (a b c : str) :
  str_ltb a b = true -> str_ltb b c = true -> str_ltb a c = true.
Proof.
  rewrite !str_ltb_lex.
  apply lex_trans;
    first [apply Ascii.eqb_eq | apply ascii_lt_irrefl
          | apply ascii_lt_trans].
Qed.

Lemma str_lt_total (a b : str) :
  str_ltb a b = false -> str_ltb b a = false -> a = b.
Proof.
  rewrite !str_ltb_lex.
  apply lex_total; first [apply Ascii.eqb_eq | apply ascii_lt_total].
Qed.

Lemma parts_ltb_lex (a b : list str) :
  Generate.parts_ltb a b = Order.lex str_ltb str_eqb a b.
Proof.
  revert b; induction a as [|x a IH]; intros [|y b]; cbn; auto;
    try now rewrite IH.
Qed.

Lemma parts_lt_irrefl (a : list str) : Generate.parts_ltb a a = false.
Proof.
  rewrite parts_ltb_lex.
  apply lex_irrefl; first [apply str_eqb_eq | apply str_lt_irrefl].
Qed.

Lemma parts_lt_trans (a b c : list str) :
  Generate.parts_ltb a b = true -> Generate.parts_ltb b c = true ->
  Generate.parts_ltb a c = true.
Proof.
  rewrite !parts_ltb_lex.
  apply lex_trans;
    first [apply str_eqb_eq | apply str_lt_irrefl | apply str_lt_trans].
Qed.

Lemma parts_lt_total (a b : list str) :
  Generate.parts_ltb a b = false -> Generate.parts_ltb b a = false -> a = b.
Proof.
  rewrite !parts_ltb_lex.
  apply lex_total; first [apply str_eqb_eq | apply str_lt_total].
Qed.

Lemma insert_file_ins (x : str * option str) (l : list (str * option str)) :
  Generate.insert_file x l
  = Order.ins Generate.parts_ltb (fun f => split "/" (fst f)) x l.
Proof.
  induction l as [|y l IH]; [reflexivity|].
  cbn [Generate.insert_file Order.ins]. unfold Generate.path_ltb. now rewrite IH.
Qed.

Lemma sorted_files_fold (l acc : list (str * option str)) :
  fold_left (fun a x => Generate.insert_file x a) l acc
  = fold_left
      (fun a x =>
         Order.ins Generate.parts_ltb (fun f => split "/" (fst f)) x a)
      l acc.
Proof.
  revert acc; induction l as [|x l IH]; intros acc; [reflexivity|].
  cbn [fold_left]. now rewrite IH, insert_file_ins.
Qed.

(** The sorted files are the files, in the order of their paths. *)
Lemma in_sorted_files (f : str * option str) (l : list (str * option str)) :
  In f (Generate.sorted_files l) <-> In f l.
Proof.
  unfold Generate.sorted_files. rewrite sorted_files_fold, in_fold_ins.
  simpl. tauto.
Qed.

Lemma sorted_files_sorted (l : list (str * option str)) :
  StronglySorted (fun a b => Generate.path_ltb (fst b) (fst a) = false)
                 (Generate.sorted_files l).
Proof.
  unfold Generate.sorted_files. rewrite sorted_files_fold.
  apply (fold_ins_sorted _ _ Generate.parts_ltb
           (fun f => split "/" (fst f))
           parts_lt_irrefl parts_lt_trans parts_lt_total).
  constructor.
Qed.

End OrderTheory.

(** ** The modules that [generate] keeps *)

Module GenerateFacts.
Import PyStr PyStrFacts.


(** A module of the list is the record of a file that the filter lets
    through, that can be read and that documents something. *)
Lemma in_modules_of (files : list (str * option str)) (m : module) :
  In m (Generate.modules_of files) <->
  exists p c, In (p, Some c) files
              /\ Discover.skip_file p = false
              /\ m = Parser.parse_file p c
              /\ Generate.kept m = true.
Proof.
  unfold Generate.modules_of.
  rewrite filter_In, FunctionFacts.in_somes, in_map_iff. split.
  - intros [([p o] & E & Hin) Hk]. cbn [fst snd] in E.
    destruct o as [c|]; [|discriminate]. injection E as <-.
    apply OrderTheory.in_sorted_files, filter_In in Hin as [Hin Hs].
    cbn [fst] in Hs. apply negb_true_iff in Hs. now exists p, c.
  - intros (p & c & Hin & Hs & -> & Hk). split; [|exact Hk].
    exists (p, Some c). split; [reflexivity|].
    apply OrderTheory.in_sorted_files, filter_In. split; [exact Hin|].
    cbn [fst]. now rewrite Hs.
Qed.

Lemma sorted_somes {A B} (R : A -> A -> Prop) (R' : B -> B -> Prop)
  (g : A -> option B) (l : list A) :
  (forall a b x y, R a b -> g a = Some x -> g b = Some y -> R' x y) ->
  StronglySorted R l -> StronglySorted R' (Parser.somes (map g l)).
Proof.
  intros Hg. induction 1 as [|a l Hl IH Ha]; [constructor|].
  cbn [map Parser.somes]. destruct (g a) as [x|] eqn:E; [|exact IH].
  constructor; [exact IH|]. apply Forall_forall. intros y Hy.
  apply FunctionFacts.in_somes, in_map_iff in Hy as (b & Hb & Hin).
  rewrite Forall_forall in Ha. eapply Hg; eauto.
Qed.

Lemma modules_of_sorted (files : list (str * option str)) :
  StronglySorted (fun a b => Generate.path_ltb (path b) (path a) = false)
                 (Generate.modules_of files).
Proof.
  unfold Generate.modules_of. apply OrderTheory.sorted_filter.
  eapply sorted_somes; [|apply OrderTheory.sorted_files_sorted].
  intros [p o] [p' o'] x y H Hx Hy. cbn [fst snd] in *.
  destruct o as [c|]; [|discriminate]. destruct o' as [c'|]; [|discriminate].
  injection Hx as <-. injection Hy as <-. exact H.
Qed.

End GenerateFacts.

(** X11.  Every page is written under a name of its own making: the
    name of the module with every dot turned into an underscore, and
    the suffix .html; the name holds no slash, so the pages lie side by
    side in the output directory whatever the depth of the sources. *)
Theorem X11_pages_lie_flat (page_open page_style bullet arrow : str)
  (files : list (str * option str)) :
  Forall (fun pg => exists n, fst pg = n ++ ".html"
                              /\ ~ In "."%char n /\ ~ In "/"%char n)
         (Generate.pages page_open page_style bullet arrow files).
Proof.
  unfold Generate.pages. apply Forall_forall. intros pg Hpg.
  apply in_map_iff in Hpg as (m & <- & Hm). cbn [fst].
  apply GenerateFacts.in_modules_of in Hm as (p & c & _ & _ & -> & _).
  destruct (NameFacts.page_name_flat (Parser.parse_file p c))
    as (n & Hn & Hdot & Hslash).
  exists n. split; [exact Hn|]. split; [exact Hdot|].
  apply Hslash, NameFacts.name_flat.
Qed.


(** X13.  The modules are kept in the order of their paths, compared
    component by component, and each of the categories that the loop of
    line 654 renders (core, library, commands and the other modules)
    lists its modules in that order.  The extension entries are no such
    category: they come in the order of their keys. *)
Theorem X13_modules_in_path_order (files : list (str * option str)) :
  StronglySorted (fun a b => Generate.path_ltb (path b) (path a) = false)
                 (Generate.modules_of files)
  /\ Forall (fun c =>
               StronglySorted
                 (fun a b => Generate.path_ltb (path b) (path a) = false)
                 (snd c))
            (Index.categories (Generate.modules_of files)).
Proof.
  pose proof (GenerateFacts.modules_of_sorted files) as H.
  split; [exact H|]. unfold Index.categories.
  apply Forall_app. split.
  - repeat constructor; cbn [snd]; now apply OrderTheory.sorted_filter.
  - destruct (Index.other_modules (Generate.modules_of files)) eqn:E;
      constructor; [|constructor].
    cbn [snd]. rewrite <- E. now apply OrderTheory.sorted_filter.
Qed.

(** ** The entries of the index *)

Module IndexEntryFacts.
Import PyStr PyStrFacts Index IndexFacts IndexPageFacts.

Lemma one_segment_inj (P P' : str) :
  "tac/extensions/" ++ P = "tac/extensions/" ++ P' -> P = P'.
Proof. apply app_inv_head. Qed.

Lemma filed_step (ms : list module) (e : extensions) (m : module) :
  filed ms e -> filed (ms ++ [m]) (extension_step e m).
Proof.
  intros (HC & HP).
  destruct (step_cases m)
    as [(P & Hp & HnP & He) | [(X & Y & Hp & HX & HY & He) | [He Hno]]];
    rewrite He; cbn [extension_parents extension_children].
  - split; cbn [extension_parents extension_children].
    + intros x Hx. apply in_values_ensure in Hx.
      apply in_or_app. left. now apply HC.
    + intros m' P' Hin Hp' HnP'.
      destruct (list_eq_dec ascii_dec
                  ("tac.extensions." ++ replace ".lua" [] P')
                  ("tac.extensions." ++ replace ".lua" [] P)) as [E | E].
      * rewrite E. exists m. apply dict_get_set_same.
      * rewrite dict_get_set_other by exact E.
        apply in_app_or in Hin as [Hin | [<- | []]].
        -- now apply (HP m' P').
        -- rewrite Hp in Hp'. apply one_segment_inj in Hp'. subst P'.
           congruence.
  - split; cbn [extension_parents extension_children].
    + intros x Hx. apply in_values_append in Hx as [-> | Hx].
      * apply in_or_app. right. now left.
      * apply in_values_ensure in Hx. apply in_or_app. left. now apply HC.
    + intros m' P' Hin Hp' HnP'.
      apply in_app_or in Hin as [Hin | [<- | []]].
      * now apply (HP m' P').
      * exfalso. rewrite Hp' in Hp. now apply two_not_one in Hp.
  - split.
    + intros x Hx. apply in_or_app. left. now apply HC.
    + intros m' P' Hin Hp' HnP'.
      apply in_app_or in Hin as [Hin | [<- | []]].
      * now apply (HP m' P').
      * exfalso.
        assert (E : extension_step (Extensions [] []) m = Extensions [] [])
          by apply He.
        unfold extension_step in E. rewrite Hp' in E.
        rewrite startswith_prefix in E.
        change (skipn 15 ("tac/extensions/" ++ P')) with P' in E.
        rewrite split_clean in E by exact HnP'. discriminate.
Qed.

Lemma filed_fold (ms ms0 : list module) (e : extensions) :
  filed ms0 e -> filed (ms0 ++ ms) (fold_left extension_step ms e).
Proof.
  revert ms0 e; induction ms as [|m ms IH]; intros ms0 e H; simpl.
  - now rewrite app_nil_r.
  - replace (ms0 ++ m :: ms) with ((ms0 ++ [m]) ++ ms)
      by now rewrite <- app_assoc.
    apply IH. now apply filed_step.
Qed.

Lemma filed_organize (ms : list module) : filed ms (organize ms).
Proof.
  apply (filed_fold ms [] (Extensions [] [])). split.
  - intros x [].
  - intros m P [].
Qed.

(** A module of a category is listed. *)
Lemma listed_category (ms : list module) (c : str * list module)
  (m : module) :
  In c (categories ms) -> In m (snd c) -> In m (listed ms).
Proof.
  intros Hc Hm. unfold listed. apply in_or_app. left.
  apply in_concat. exists (snd c). split; [|exact Hm].
  apply in_map_iff. now exists c.
Qed.

(** A module of an entry of the extension tree is listed. *)
Lemma listed_tree (ms : list module) (e : module * list module)
  (m : module) :
  In e (extension_tree ms) -> m = fst e \/ In m (snd e) -> In m (listed ms).
Proof.
  intros He Hm. unfold listed. apply in_or_app. right.
  apply in_concat. exists (fst e :: snd e). split.
  - apply in_map_iff. now exists e.
  - destruct Hm as [-> | Hm]; [now left | now right].
Qed.

Lemma in_other (ms : list module) (m : module) :
  In m (other_modules ms) ->
  exists c, In c (categories ms) /\ fst c = "Other Modules" /\ In m (snd c).
Proof.
  intros H. exists ("Other Modules" : str, other_modules ms).
  split; [|now split]. unfold categories. apply in_or_app. right.
  destruct (other_modules ms); [destruct H | now left].
Qed.

(** Every entry of the index is rendered from a module of the list. *)
Lemma listed_in (ms : list module) (m : module) :
  In m (listed ms) -> In m ms.
Proof.
  destruct (organized_organize ms) as (HP & HC & HM).
  destruct (filed_organize ms) as (HF & _).
  rewrite Forall_forall in HP.
  unfold listed. intros H. apply in_app_or in H as [H | H].
  - apply in_concat in H as (l & Hl & Hm).
    apply in_map_iff in Hl as (c & <- & Hc). unfold categories in Hc.
    apply in_app_or in Hc as [Hc | Hc].
    + destruct Hc as [<- | [<- | [<- | []]]]; cbn [snd] in Hm;
        now apply filter_In in Hm.
    + destruct (other_modules ms) eqn:E; [destruct Hc|].
      destruct Hc as [<- | []]. cbn [snd] in Hm. rewrite <- E in Hm.
      now apply filter_In in Hm.
  - apply in_concat in H as (l & Hl & Hm).
    apply in_map_iff in Hl as ([pm cs] & <- & Hl).
    unfold extension_tree in Hl.
    apply in_map_iff in Hl as ([k pm'] & E & Hl). injection E as -> <-.
    unfold sorted_parents in Hl. apply in_sorted_by in Hl.
    cbn [fst snd] in Hm. destruct Hm as [<- | Hm].
    + destruct (HP _ Hl) as (P & _ & _ & _ & Hin). exact Hin.
    + apply in_sorted_by in Hm.
      destruct (dict_get k (extension_children (organize ms))) as [l|] eqn:Hg;
        [|destruct Hm].
      apply HF. apply (in_concat_values k l); [|exact Hm].
      apply dict_get_in. exact Hg.
Qed.

(** A module of the list is listed, unless it is two segments below the
    extensions root and no parent is filed under the key of its
    directory. *)
Lemma in_listed (ms : list module) (m : module) :
  In m ms ->
  In m (listed ms)
  \/ exists X Y,
       path m = "tac/extensions/" ++ X ++ "/" ++ Y
       /\ ~ In "/"%char X /\ ~ In "/"%char Y
       /\ forall p P, In p ms -> path p = "tac/extensions/" ++ P ->
                      ~ In "/"%char P -> replace ".lua" [] P <> X.
Proof.
  intros Hin.
  destruct (organized_organize ms) as (HP & HC & HM).
  destruct (filed_organize ms) as (_ & HF).
  rewrite Forall_forall in HP, HC.
  destruct (mem m (categorized ms)) eqn:Hmem.
  - apply mem_iff in Hmem. unfold categorized in Hmem.
    apply in_app_or in Hmem as [H | H].
    { left. apply (listed_category ms ("Core Modules" : str, core_modules ms));
        [|exact H]. unfold categories. apply in_or_app. left. now left. }
    apply in_app_or in H as [H | H].
    { left.
      apply (listed_category ms ("Command Modules" : str, command_modules ms));
        [|exact H]. unfold categories. apply in_or_app. left.
      right. right. now left. }
    apply in_app_or in H as [H | H].
    { left. unfold values in H. apply in_map_iff in H as ([k pm] & E & H).
      cbn [snd] in E. subst pm.
      apply (listed_tree ms
               (m, sorted_by name
                     (match dict_get k (extension_children (organize ms)) with
                      | Some l => l
                      | None => []
                      end))); [|now left].
      unfold extension_tree. apply in_map_iff. exists (k, m).
      split; [reflexivity|]. unfold sorted_parents. now apply in_sorted_by. }
    apply in_concat in H as (l & Hl & Hml). unfold values in Hl.
    apply in_map_iff in Hl as ([k l'] & E & Hl). cbn [snd] in E. subst l'.
    destruct (HC _ Hl m Hml) as (X & Y & Hp & HX & HY & Hk).
    cbn [fst] in Hk. subst k.
    destruct (dict_get ("tac.extensions." ++ X)
                       (extension_parents (organize ms))) as [pm|] eqn:Hg.
    + left. destruct (HM m X Y Hin Hp HX HY) as (k' & l' & Hg' & Hml').
      pose proof (dict_get_in _ _ _ Hg') as Hin'.
      destruct (HC _ Hin' m Hml') as (X' & Y' & Hp' & HX' & HY' & Hk').
      cbn [fst] in Hk'. rewrite Hp in Hp'.
      apply two_segments_inj in Hp'; auto. subst X' k'.
      apply (listed_tree ms (pm, sorted_by name l')).
      * unfold extension_tree. apply in_map_iff.
        exists ("tac.extensions." ++ X, pm). rewrite Hg'.
        split; [reflexivity|]. unfold sorted_parents.
        apply in_sorted_by. now apply dict_get_in.
      * right. cbn [snd]. now apply in_sorted_by.
    + right. exists X, Y. repeat split; auto.
      intros p P Hp_in Hpp HnP E.
      destruct (HF p P Hp_in Hpp HnP) as (pm & Hpm).
      rewrite E in Hpm. congruence.
  - left. assert (Ho : In m (other_modules ms)).
    { unfold other_modules. apply filter_In. split; [exact Hin|].
      now rewrite Hmem. }
    apply in_other in Ho as (c & Hc & _ & Hm).
    now apply (listed_category ms c).
Qed.

(** A module under tac/lib/ is in no list that the loop for the other
    modules looks into. *)
Lemma library_not_categorized (ms : list module) (m : module) :
  startswith "tac/lib/" (path m) = true -> ~ In m (categorized ms).
Proof.
  intros Hlib H.
  destruct (organized_organize ms) as (HP & HC & _).
  rewrite Forall_forall in HP, HC.
  apply startswith_app in Hlib as [t Ht].
  unfold categorized in H.
  apply in_app_or in H as [H | H].
  { apply filter_In in H as [_ H]. rewrite Ht in H. discriminate. }
  apply in_app_or in H as [H | H].
  { apply filter_In in H as [_ H]. rewrite Ht in H. discriminate. }
  apply in_app_or in H as [H | H].
  - unfold values in H. apply in_map_iff in H as ([k pm] & E & H).
    cbn [snd] in E. subst pm.
    destruct (HP _ H) as (P & Hp & _). cbn [snd] in Hp.
    rewrite Ht in Hp. discriminate.
  - apply in_concat in H as (l & Hl & Hml). unfold values in Hl.
    apply in_map_iff in Hl as ([k l'] & E & Hl). cbn [snd] in E. subst l'.
    destruct (HC _ Hl m Hml) as (X & Y & Hp & _).
    rewrite Ht in Hp. discriminate.
Qed.

End IndexEntryFacts.

(** X14.  The index lists none but the modules it is given, and all of
    them but the extension files two segments below the root whose
    directory has no parent file: each of the others has an entry, in a
    category or in the extension tree. *)
Theorem X14_index_lists_the_modules (modules : list module) :
  (forall m, In m (Index.listed modules) -> In m modules)
  /\ (forall m, In m modules ->
        In m (Index.listed modules)
        \/ exists X Y,
             path m = "tac/extensions/" ++ X ++ "/" ++ Y
             /\ ~ In "/"%char X /\ ~ In "/"%char Y
             /\ forall p P, In p modules ->
                  path p = "tac/extensions/" ++ P ->
                  ~ In "/"%char P -> PyStr.replace ".lua" [] P <> X).
Proof.
  split.
  - intros m. apply IndexEntryFacts.listed_in.
  - intros m. apply IndexEntryFacts.in_listed.
Qed.

(** X15.  A module under tac/lib/ is listed twice: under the library
    heading and again under the heading of the other modules, since the
    list of the modules already placed leaves the library out. *)
Theorem X15_library_modules_listed_twice (modules : list module)
  (m : module) :
  In m modules ->
  PyStr.startswith "tac/lib/" (path m) = true ->
  In m (Index.library_modules modules)
  /\ In ("Library Modules" : str, Index.library_modules modules)
        (Index.categories modules)
  /\ In m (Index.other_modules modules)
  /\ In ("Other Modules" : str, Index.other_modules modules)
        (Index.categories modules).
Proof.
  intros Hin Hlib.
  assert (Ho : In m (Index.other_modules modules)).
  { unfold Index.other_modules. apply filter_In. split; [exact Hin|].
    destruct (Index.mem m (Index.categorized modules)) eqn:E; [|reflexivity].
    apply IndexPageFacts.mem_iff in E.
    now apply IndexEntryFacts.library_not_categorized in E. }
  split; [|split; [|split]].
  - apply filter_In. now split.
  - unfold Index.categories. apply in_or_app. left. right. now left.
  - exact Ho.
  - unfold Index.categories. apply in_or_app. right.
    destruct (Index.other_modules modules); [destruct Ho | now left].
Qed.

Lemma X15_witness :
  In Sample.library_module
     (Index.library_modules [Sample.library_module])
  /\ In ("Library Modules" : str,
         Index.library_modules [Sample.library_module])
        (Index.categories [Sample.library_module])
  /\ In Sample.library_module
        (Index.other_modules [Sample.library_module])
  /\ In ("Other Modules" : str,
         Index.other_modules [Sample.library_module])
        (Index.categories [Sample.library_module]).
Proof.
  apply X15_library_modules_listed_twice.
  - now left.
  - reflexivity.
Defined.

(** ** The version manifest *)

Module ManifestFacts.
Import PyStr PyStrFacts Index IndexFacts Manifest.

Lemma dict_has_get {V} (k : str) (d : dict V) :
  dict_has k d = true <-> exists v, dict_get k d = Some v.
Proof.
  unfold dict_has. destruct (dict_get k d) as [v|]; split.
  - eauto.
  - reflexivity.
  - discriminate.
  - intros [v H]. discriminate.
Qed.

Lemma dict_has_none {V} (k : str) (d : dict V) :
  dict_has k d = false <-> dict_get k d = None.
Proof.
  unfold dict_has. destruct (dict_get k d); split; congruence.
Qed.

(** *** The scan of the commands directory *)

Lemma scan_step_get (d : dict entry) (f k : str) :
  dict_get k (scan_step d f)
  = match dict_get k d with
    | Some e => Some e
    | None => if str_eqb k (Parser.stem f) then Some (scanned f) else None
    end.
Proof.
  unfold scan_step. destruct (dict_has (Parser.stem f) d) eqn:Hh.
  - destruct (dict_get k d) as [e|] eqn:Hg; [reflexivity|].
    destruct (str_eqb k (Parser.stem f)) eqn:E; [|reflexivity].
    apply str_eqb_eq in E. subst k. apply dict_has_get in Hh as [v Hv].
    congruence.
  - apply dict_has_none in Hh.
    destruct (str_eqb k (Parser.stem f)) eqn:E.
    + apply str_eqb_eq in E. subst k. rewrite dict_get_set_same.
      now rewrite Hh.
    + assert (Hne : k <> Parser.stem f).
      { intros ->. unfold str_eqb in E.
        destruct (list_eq_dec ascii_dec (Parser.stem f) (Parser.stem f));
          congruence. }
      rewrite dict_get_set_other by exact Hne.
      now destruct (dict_get k d).
Qed.

(** An entry that a module gave stays through the scan. *)
Lemma scan_keeps (fs : list str) (d : dict entry) (k : str) (e : entry) :
  dict_get k d = Some e -> dict_get k (fold_left scan_step fs d) = Some e.
Proof.
  revert d; induction fs as [|f fs IH]; intros d H; [exact H|].
  cbn [fold_left]. apply IH. rewrite scan_step_get. now rewrite H.
Qed.

(** After the scan every file of the directory has an entry. *)
Lemma scan_covers (fs : list str) (d : dict entry) (f : str) :
  In f fs -> dict_has (Parser.stem f) (fold_left scan_step fs d) = true.
Proof.
  revert d; induction fs as [|g fs IH]; intros d; [intros []|].
  cbn [fold_left]. intros [-> | H]; [|now apply IH].
  apply dict_has_get.
  destruct (dict_get (Parser.stem f) (scan_step d f)) as [e|] eqn:E.
  - exists e. now apply scan_keeps.
  - rewrite scan_step_get in E.
    destruct (dict_get (Parser.stem f) d); [discriminate|].
    destruct (str_eqb (Parser.stem f) (Parser.stem f)) eqn:E'; [discriminate|].
    unfold str_eqb in E'.
    destruct (list_eq_dec ascii_dec (Parser.stem f) (Parser.stem f));
      congruence.
Qed.

(** An entry after the scan was there before, or is the entry of a file
    of the directory. *)
Lemma scan_origin (fs : list str) (d : dict entry) (k : str) (e : entry) :
  dict_get k (fold_left scan_step fs d) = Some e ->
  dict_get k d = Some e
  \/ (dict_get k d = None
      /\ exists f, In f fs /\ k = Parser.stem f /\ e = scanned f).
Proof.
  revert d; induction fs as [|f fs IH]; intros d; [now left|].
  cbn [fold_left]. intros H. apply IH in H as [H | (H & g & Hg & Hk & He)].
  - rewrite scan_step_get in H. destruct (dict_get k d) as [e'|]; [now left|].
    destruct (str_eqb k (Parser.stem f)) eqn:E; [|discriminate].
    apply str_eqb_eq in E. injection H as <-. right. split; [reflexivity|].
    exists f. split; [now left | now split].
  - rewrite scan_step_get in H. destruct (dict_get k d); [discriminate|].
    right. split; [reflexivity|]. exists g. split; [now right | now split].
Qed.

(** *** The categories *)

Lemma under_set (prefix : str) (d : dict entry) (k : str) (m : module) :
  startswith prefix (path m) = true ->
  under prefix d -> under prefix (dict_set k (entry_of m) d).
Proof.
  intros Hp Hd. unfold under in *. apply Forall_forall. intros [k' e] H.
  apply in_dict_set in H as [[-> ->] | H].
  - cbn. now split.
  - rewrite Forall_forall in Hd. now apply (Hd (k', e)).
Qed.

Lemma under_dict_set (prefix : str) (d : dict entry) (k : str) (e : entry) :
  startswith prefix (e_path e) = true ->
  e_download_url e = base_url ++ e_path e ->
  under prefix d -> under prefix (dict_set k e d).
Proof.
  intros Hp Hu Hd. unfold under in *. apply Forall_forall. intros [k' e'] H.
  apply in_dict_set in H as [[-> ->] | H].
  - cbn. now split.
  - rewrite Forall_forall in Hd. now apply (Hd (k', e')).
Qed.

Lemma sorted_out_step (v : versions) (m : module) :
  sorted_out v -> sorted_out (categorize_step v m).
Proof.
  intros (Hc & Hl & Hm & He & Hf). unfold categorize_step.
  destruct (startswith "tac/core/" (path m)) eqn:E1.
  { repeat split; cbn; auto. now apply under_set. }
  destruct (startswith "tac/lib/" (path m)) eqn:E2.
  { repeat split; cbn; auto. now apply under_set. }
  destruct (startswith "tac/commands/" (path m)) eqn:E3.
  { repeat split; cbn; auto. now apply under_set. }
  destruct (startswith "tac/extensions/" (path m)) eqn:E4;
    [|repeat split; auto].
  destruct (contains "/" (skipn 15 (path m))) eqn:E5;
    [repeat split; auto|].
  cbn [negb]. repeat split; cbn; auto; [now apply under_set|].
  apply Forall_forall. intros [k e] H.
  apply in_dict_set in H as [[-> ->] | H].
  - cbn. now apply contains_char_false.
  - rewrite Forall_forall in Hf. now apply (Hf (k, e)).
Qed.

Lemma sorted_out_fold (ms : list module) (v : versions) :
  sorted_out v -> sorted_out (fold_left categorize_step ms v).
Proof.
  revert v; induction ms as [|m ms IH]; intros v H; [exact H|].
  cbn [fold_left]. apply IH. now apply sorted_out_step.
Qed.

Lemma sorted_out_categorized (ms : list module) : sorted_out (categorized ms).
Proof.
  apply sorted_out_fold. repeat split; constructor.
Qed.

Lemma under_scan (fs : list str) (d : dict entry) :
  under "tac/commands/" d -> under "tac/commands/" (fold_left scan_step fs d).
Proof.
  revert d; induction fs as [|f fs IH]; intros d H; [exact H|].
  cbn [fold_left]. apply IH. unfold scan_step.
  destruct (dict_has (Parser.stem f) d); [exact H|].
  apply under_dict_set; [reflexivity | reflexivity | exact H].
Qed.

(** *** The extensions *)

Lemma top_level_path (m : module) :
  top_level m = true <->
  exists P, path m = "tac/extensions/" ++ P /\ ~ In "/"%char P.
Proof.
  unfold top_level. rewrite andb_true_iff, negb_true_iff. split.
  - intros [H1 H2]. apply startswith_skipn in H1.
    change (length (list_ascii_of_string "tac/extensions/")) with 15 in H1.
    exists (skipn 15 (path m)). split; [exact H1|].
    now apply contains_char_false.
  - intros (P & -> & HP). split; [apply startswith_prefix|].
    change (skipn 15 ("tac/extensions/" ++ P)) with P.
    now apply contains_char_false.
Qed.

(** The loop body changes the extensions for the files of the root of
    the extensions directory, and for no other. *)
Lemma extensions_step (v : versions) (m : module) :
  v_extensions (categorize_step v m)
  = if top_level m
    then dict_set (module_name m) (entry_of m) (v_extensions v)
    else v_extensions v.
Proof.
  unfold categorize_step, top_level.
  destruct (startswith "tac/extensions/" (path m)) eqn:E.
  - apply startswith_app in E as [t ->]. cbn [app startswith Ascii.eqb].
    change (startswith "tac/core/" ("tac/extensions/" ++ t)) with false.
    change (startswith "tac/lib/" ("tac/extensions/" ++ t)) with false.
    change (startswith "tac/commands/" ("tac/extensions/" ++ t)) with false.
    cbn [andb]. now destruct (negb _).
  - cbn [andb].
    destruct (startswith "tac/core/" (path m)); [reflexivity|].
    destruct (startswith "tac/lib/" (path m)); [reflexivity|].
    now destruct (startswith "tac/commands/" (path m)).
Qed.

Lemma extensions_fold (ms : list module) (v : versions) (k : str) (e : entry) :
  dict_get k (v_extensions (fold_left categorize_step ms v)) = Some e ->
  dict_get k (v_extensions v) = Some e
  \/ exists m, In m ms /\ top_level m = true /\ k = module_name m
               /\ e = entry_of m.
Proof.
  revert v; induction ms as [|m ms IH]; intros v; [now left|].
  cbn [fold_left]. intros H. apply IH in H as [H | (m' & Hin & Ht & Hk & He)].
  - rewrite extensions_step in H. destruct (top_level m) eqn:Ht; [|now left].
    destruct (list_eq_dec ascii_dec k (module_name m)) as [->|Hne].
    + rewrite dict_get_set_same in H. injection H as <-. right.
      exists m. repeat split; auto. now left.
    + rewrite dict_get_set_other in H by exact Hne. now left.
  - right. exists m'. repeat split; auto. now right.
Qed.

Lemma extensions_has (ms : list module) (v : versions) (m : module) :
  In m ms -> top_level m = true ->
  dict_has (module_name m) (v_extensions (fold_left categorize_step ms v))
  = true.
Proof.
  assert (Hkeep : forall ms v k,
            dict_has k (v_extensions v) = true ->
            dict_has k (v_extensions (fold_left categorize_step ms v)) = true).
  { clear. induction ms as [|m ms IH]; intros v k H; [exact H|].
    cbn [fold_left]. apply IH. rewrite extensions_step.
    destruct (top_level m); [|exact H].
    apply dict_has_get. apply dict_has_get in H as [e He].
    destruct (list_eq_dec ascii_dec k (module_name m)) as [->|Hne].
    - rewrite dict_get_set_same. eauto.
    - rewrite dict_get_set_other by exact Hne. eauto. }
  revert v; induction ms as [|m' ms IH]; intros v; [intros []|].
  cbn [fold_left]. intros [-> | Hin] Ht; [|now apply IH].
  apply Hkeep. rewrite extensions_step, Ht. apply dict_has_get.
  rewrite dict_get_set_same. eauto.
Qed.

(** Taking the suffix off the path of a file of the extensions
    directory leaves the directory as it is. *)
Lemma extension_dir (P : str) :
  replace ".lua" [] ("tac/extensions/" ++ P)
  = "tac/extensions/" ++ replace ".lua" [] P.
Proof. reflexivity. Qed.

End ManifestFacts.

(** X17.  The scan of the commands directory fills the gaps and nothing
    else: after it every file of the directory has an entry under its
    stem, every entry that a parsed module gave is still the same, and
    any other entry is the one of a file of the directory, with version
    0.0.0. *)
Theorem X17_command_files_reconciled (modules : list module)
  (command_files : list str) :
  (forall f, In f command_files ->
     Index.dict_has (Parser.stem f)
       (Manifest.v_commands (Manifest.versions_of modules command_files))
     = true)
  /\ (forall k e,
        Index.dict_get k (Manifest.v_commands (Manifest.categorized modules))
        = Some e ->
        Index.dict_get k
          (Manifest.v_commands (Manifest.versions_of modules command_files))
        = Some e)
  /\ (forall k e,
        Index.dict_get k
          (Manifest.v_commands (Manifest.versions_of modules command_files))
        = Some e ->
        Index.dict_get k (Manifest.v_commands (Manifest.categorized modules))
        = Some e
        \/ (Index.dict_get k
              (Manifest.v_commands (Manifest.categorized modules)) = None
            /\ exists f, In f command_files /\ k = Parser.stem f
                         /\ e = Manifest.scanned f
                         /\ Manifest.e_version e = Some ("0.0.0" : str))).
Proof.
  cbn [Manifest.versions_of Manifest.v_commands]. split; [|split].
  - intros f. apply ManifestFacts.scan_covers.
  - intros k e. apply ManifestFacts.scan_keeps.
  - intros k e H.
    apply ManifestFacts.scan_origin in H as [H | (H & f & Hf & Hk & He)];
      [now left|].
    right. split; [exact H|]. exists f. repeat split; auto. now subst e.
Qed.

(** X18.  Every entry of versions.json lies in the category of its
    directory and is fetched from the place of its file; the extension
    entries are files of the root of the extensions directory; and the
    version of TAC is the same in versions.json, in its init entry and
    in latest.json, and is never empty. *)
Theorem X18_manifest_sorted_by_directory (modules : list module)
  (command_files : list str) (date_output : str) :
  Manifest.sorted_out (Manifest.versions_of modules command_files)
  /\ Manifest.e_version
       (Manifest.v_init (Manifest.versions_of modules command_files))
     = Some (Manifest.v_version
               (Manifest.versions_of modules command_files))
  /\ Manifest.l_version (Manifest.latest_of modules date_output)
     = Manifest.v_version (Manifest.versions_of modules command_files)
  /\ Manifest.v_version (Manifest.versions_of modules command_files) <> [].
Proof.
  destruct (ManifestFacts.sorted_out_categorized modules)
    as (Hc & Hl & Hm & He & Hf).
  assert (Hfix : forall ms v,
            Manifest.v_version (fold_left Manifest.categorize_step ms v)
            = Manifest.v_version v
            /\ Manifest.v_init (fold_left Manifest.categorize_step ms v)
               = Manifest.v_init v).
  { induction ms as [|m ms IH]; intros v; [now split|].
    cbn [fold_left]. destruct (IH (Manifest.categorize_step v m)) as [-> ->].
    unfold Manifest.categorize_step.
    destruct (PyStr.startswith "tac/core/" (path m)); [now split|].
    destruct (PyStr.startswith "tac/lib/" (path m)); [now split|].
    destruct (PyStr.startswith "tac/commands/" (path m)); [now split|].
    destruct (PyStr.startswith "tac/extensions/" (path m)); [|now split].
    now destruct (negb _). }
  destruct (Hfix modules (Manifest.initial modules)) as [Hv Hi].
  cbn [Manifest.versions_of Manifest.v_version Manifest.v_init
       Manifest.v_core Manifest.v_lib Manifest.v_commands
       Manifest.v_extensions].
  unfold Manifest.categorized in *. rewrite Hv, Hi.
  split; [|split; [|split]].
  - repeat split; cbn; auto. now apply ManifestFacts.under_scan.
  - reflexivity.
  - reflexivity.
  - cbn [Manifest.initial Manifest.v_version]. unfold Manifest.or_default.
    destruct (Manifest.tac_version modules) as [s|]; [|discriminate].
    destruct s; cbn; discriminate.
Qed.

(** X19.  The extensions of versions.json and the manifests go
    together: a name is a key of the extensions exactly when a manifest
    is written under it, and the entry of a key agrees with a manifest
    of that name on version, file and address.  No manifest has an
    empty list of submodules: without any the field is absent. *)
Theorem X19_extensions_have_manifests (modules : list module)
  (command_files : list str) :
  (forall k,
     Index.dict_has k
       (Manifest.v_extensions (Manifest.versions_of modules command_files))
     = true
     <-> In k (map fst (Manifest.extension_manifests modules)))
  /\ (forall k e,
        Index.dict_get k
          (Manifest.v_extensions (Manifest.versions_of modules command_files))
        = Some e ->
        exists x, In (k, x) (Manifest.extension_manifests modules)
                  /\ Manifest.x_version x = Manifest.e_version e
                  /\ Manifest.x_main_file x = Manifest.e_path e
                  /\ Manifest.x_download_url x = Manifest.e_download_url e)
  /\ Forall (fun it => Manifest.x_submodules (snd it) <> Some [])
            (Manifest.extension_manifests modules).
Proof.
  cbn [Manifest.versions_of Manifest.v_extensions].
  unfold Manifest.categorized.
  assert (Hget : forall k e,
            Index.dict_get k
              (Manifest.v_extensions
                 (fold_left Manifest.categorize_step modules
                    (Manifest.initial modules))) = Some e ->
            exists m, In m modules /\ Manifest.top_level m = true
                      /\ k = Manifest.module_name m
                      /\ e = Manifest.entry_of m).
  { intros k e H. apply ManifestFacts.extensions_fold in H as [H | H];
      [discriminate | exact H]. }
  split; [|split].
  - intros k. split.
    + intros H. apply ManifestFacts.dict_has_get in H as [e He].
      apply Hget in He as (m & Hin & Ht & -> & _).
      apply in_map_iff.
      exists (Manifest.module_name m, Manifest.module_manifest modules m).
      split; [reflexivity|]. unfold Manifest.extension_manifests.
      apply in_map_iff. exists m. split; [reflexivity|].
      apply filter_In. now split.
    + intros H. apply in_map_iff in H as ([k' x] & <- & H).
      unfold Manifest.extension_manifests in H.
      apply in_map_iff in H as (m & E & H). injection E as <- <-.
      apply filter_In in H as [Hin Ht]. cbn [fst].
      now apply ManifestFacts.extensions_has.
  - intros k e H. apply Hget in H as (m & Hin & Ht & -> & ->).
    exists (Manifest.module_manifest modules m). split.
    + unfold Manifest.extension_manifests. apply in_map_iff. exists m.
      split; [reflexivity|]. apply filter_In. now split.
    + repeat split.
  - apply Forall_forall. intros [k x] H.
    unfold Manifest.extension_manifests in H.
    apply in_map_iff in H as (m & E & _). injection E as <- <-.
    cbn [snd Manifest.module_manifest Manifest.x_submodules].
    destruct (Manifest.submodules_of modules m); discriminate.
Qed.

(** X20.  The index and the manifests agree on the submodules: a module
    that the index shows under an extension is among the submodules of
    the manifest of that extension, with its path and its version; and
    that manifest is one of those written. *)
Theorem X20_index_children_are_submodules (modules : list module)
  (parent child : module) (children : list module) :
  In (parent, children) (Index.extension_tree modules) ->
  In child children ->
  In (Manifest.module_name parent, Manifest.module_manifest modules parent)
     (Manifest.extension_manifests modules)
  /\ exists subs s,
       Manifest.x_submodules (Manifest.module_manifest modules parent)
       = Some subs
       /\ In s subs
       /\ Manifest.s_path s = path child
       /\ Manifest.s_version s = version child.
Proof.
  intros Ht Hc.
  destruct (IndexFacts.organized_organize modules) as (HP & HC & _).
  destruct (IndexEntryFacts.filed_organize modules) as (HF & _).
  rewrite Forall_forall in HP, HC.
  unfold Index.extension_tree in Ht.
  apply in_map_iff in Ht as ([k pm] & E & Hk). injection E as -> <-.
  unfold Index.sorted_parents in Hk. apply IndexFacts.in_sorted_by in Hk.
  destruct (HP _ Hk) as (P & Hp & HnP & Hkey & Hin). cbn [fst snd] in *.
  apply IndexFacts.in_sorted_by in Hc.
  destruct (Index.dict_get k (Index.extension_children
                                (Index.organize modules)))
    as [l|] eqn:Hg; [|destruct Hc].
  apply IndexFacts.dict_get_in in Hg.
  destruct (HC _ Hg child Hc) as (X & Y & Hpc & HX & HY & Hkc).
  cbn [fst] in Hkc. rewrite Hkey in Hkc. apply app_inv_head in Hkc.
  assert (Hcin : In child modules).
  { apply HF. now apply (IndexFacts.in_concat_values k l). }
  assert (Htop : Manifest.top_level parent = true).
  { apply ManifestFacts.top_level_path. now exists P. }
  split.
  - unfold Manifest.extension_manifests. apply in_map_iff. exists parent.
    split; [reflexivity|]. apply filter_In. now split.
  - set (s := Manifest.Submodule
                (last (PyStr.split "." (name child)) [])
                (path child) (version child)
                (Manifest.base_url ++ path child)).
    assert (Hs : In s (Manifest.submodules_of modules parent)).
    { unfold Manifest.submodules_of. apply in_map_iff. exists child.
      split; [reflexivity|]. apply filter_In. split; [exact Hcin|].
      rewrite Hp, ManifestFacts.extension_dir, Hkc, Hpc.
      rewrite <- app_assoc. apply PyStrFacts.startswith_app.
      exists Y. now rewrite <- !app_assoc. }
    cbn [Manifest.module_manifest Manifest.x_submodules].
    destruct (Manifest.submodules_of modules parent) as [|s0 subs] eqn:E;
      [destruct Hs|].
    exists (s0 :: subs), s. repeat split. exact Hs.
Qed.

Lemma X20_witness :
  In (Manifest.module_name Manifest.shop,
      Manifest.module_manifest [Manifest.shop; Manifest.shop_ui]
        Manifest.shop)
     (Manifest.extension_manifests [Manifest.shop; Manifest.shop_ui])
  /\ exists subs s,
       Manifest.x_submodules
         (Manifest.module_manifest [Manifest.shop; Manifest.shop_ui]
            Manifest.shop)
       = Some subs
       /\ In s subs
       /\ Manifest.s_path s = path Manifest.shop_ui
       /\ Manifest.s_version s = version Manifest.shop_ui.
Proof.
  apply (X20_index_children_are_submodules
           [Manifest.shop; Manifest.shop_ui]
           Manifest.shop Manifest.shop_ui [Manifest.shop_ui]).
  - vm_compute. now left.
  - now left.
Defined.

(** X21.  The filter skips a file exactly when its path holds data/,
    test/ or .git, or starts with lib/: the exemption of tac/lib/ in
    the second test never decides anything, since no path starts with
    both.  So a file under tac/lib/ is skipped by the first test only,
    and a file under the top-level lib/ always. *)
Theorem X21_filter_rule (rel_path : str) :
  Discover.skip_file rel_path
  = (PyStr.contains "data/" rel_path || PyStr.contains "test/" rel_path
     || PyStr.contains ".git" rel_path || PyStr.startswith "lib/" rel_path)
  /\ (PyStr.startswith "tac/lib/" rel_path = true ->
      Discover.skip_file rel_path
      = (PyStr.contains "data/" rel_path || PyStr.contains "test/" rel_path
         || PyStr.contains ".git" rel_path)).
Proof.
  unfold Discover.skip_file. cbn [existsb]. rewrite orb_false_r.
  split.
  - destruct (PyStr.startswith "lib/" rel_path) eqn:E.
    + apply PyStrFacts.startswith_app in E as [t ->].
      change (PyStr.startswith "tac/lib/" ("lib/" ++ t)) with false.
      cbn [negb andb]. now rewrite !orb_assoc.
    + cbn [andb]. now rewrite !orb_assoc.
  - intros H. apply PyStrFacts.startswith_app in H as [t ->].
    change (PyStr.startswith "lib/" ("tac/lib/" ++ t)) with false.
    cbn [andb]. now rewrite orb_false_r, !orb_assoc.
Qed.

(** ** The order of the extension entries *)

Module TreeOrderFacts.
Import PyStr Index OrderTheory.

Lemma insert_by_ins {A} (key : A -> str) (x : A) (l : list A) :
  insert_by key x l = Order.ins str_ltb key x l.
Proof.
  induction l as [|y l IH]; [reflexivity|].
  cbn [insert_by Order.ins]. now rewrite IH.
Qed.

Lemma sorted_by_fold {A} (key : A -> str) (l acc : list A) :
  fold_left (fun a x => insert_by key x a) l acc
  = fold_left (fun a x => Order.ins str_ltb key x a) l acc.
Proof.
  revert acc; induction l as [|x l IH]; intros acc; [reflexivity|].
  cbn [fold_left]. now rewrite IH, insert_by_ins.
Qed.

(** [sorted] gives its items by ascending key. *)
Lemma sorted_by_sorted {A} (key : A -> str) (l : list A) :
  StronglySorted (fun a b => str_ltb (key b) (key a) = false)
                 (sorted_by key l).
Proof.
  unfold sorted_by. rewrite sorted_by_fold.
  apply (fold_ins_sorted _ _ str_ltb key
           str_lt_irrefl str_lt_trans str_lt_total).
  constructor.
Qed.

(** The keys of a dictionary filled by assignments are distinct. *)
Lemma dict_set_keys {V} (k : str) (v : V) (d : dict V) :
  NoDup (map fst d) -> NoDup (map fst (dict_set k v d)).
Proof.
  induction d as [|[k' v'] d IH]; cbn [dict_set map fst].
  - intros _. constructor; [intros [] | constructor].
  - intros H. inversion H as [|? ? Hn Hd]; subst.
    destruct (str_eqb k k') eqn:E.
    + apply PyStrFacts.str_eqb_eq in E. subst k'. cbn [map fst].
      now constructor.
    + cbn [map fst]. constructor; [|now apply IH].
      intros Hin. apply in_map_iff in Hin as ([k2 v2] & Ek & Hin).
      cbn [fst] in Ek. subst k2.
      apply IndexFacts.in_dict_set in Hin as [[-> _] | Hin].
      * unfold str_eqb in E.
        destruct (list_eq_dec ascii_dec k k); congruence.
      * apply Hn. apply in_map_iff. now exists (k', v2).
Qed.

Lemma parents_keys (ms : list module) (e : extensions) :
  NoDup (map fst (extension_parents e)) ->
  NoDup (map fst (extension_parents (fold_left extension_step ms e))).
Proof.
  revert e; induction ms as [|m ms IH]; intros e H; [exact H|].
  cbn [fold_left]. apply IH.
  destruct (IndexFacts.step_cases m)
    as [(P & _ & _ & He) | [(X & Y & _ & _ & _ & He) | [He _]]];
    rewrite He; cbn [extension_parents]; auto.
  now apply dict_set_keys.
Qed.

Lemma sorted_strict {A} (key : A -> str) (l : list A) :
  NoDup (map key l) ->
  StronglySorted (fun a b => str_ltb (key b) (key a) = false) l ->
  StronglySorted (fun a b => str_ltb (key a) (key b) = true) l.
Proof.
  intros Hn Hs. induction Hs as [|x l Hl IH Hx]; [constructor|].
  cbn [map] in Hn. inversion Hn as [|? ? Hnx Hnl]; subst.
  constructor; [now apply IH|].
  apply Forall_forall. intros y Hy. rewrite Forall_forall in Hx.
  specialize (Hx y Hy). cbv beta in Hx.
  destruct (str_ltb (key x) (key y)) eqn:E; [reflexivity|].
  exfalso. apply Hnx. rewrite (str_lt_total _ _ E Hx).
  now apply in_map.
Qed.

Lemma nodup_insert_by {A} (key : A -> str) (x : A) (acc : list A) :
  NoDup (map key (x :: acc)) -> NoDup (map key (insert_by key x acc)).
Proof.
  induction acc as [|y acc IH]; intros H; [exact H|].
  cbn [insert_by]. destruct (str_ltb (key x) (key y)); [exact H|].
  cbn [map] in *. inversion H as [|? ? Hx Hr]; subst.
  inversion Hr as [|? ? Hy Hacc]; subst.
  constructor.
  - intros Hin. apply in_map_iff in Hin as (z & Ez & Hz).
    apply IndexFacts.in_insert_by in Hz as [-> | Hz].
    + apply Hx. left. congruence.
    + apply Hy. rewrite <- Ez. now apply in_map.
  - apply IH. cbn [map]. constructor; [|exact Hacc].
    intros Hin. apply Hx. now right.
Qed.

Lemma nodup_fold_insert {A} (key : A -> str) (l acc : list A) :
  NoDup (map key l ++ map key acc) ->
  NoDup (map key (fold_left (fun a x => insert_by key x a) l acc)).
Proof.
  revert acc; induction l as [|x l IH]; intros acc H; [exact H|].
  cbn [fold_left]. apply IH. cbn [map app] in H.
  inversion H as [|? ? Hx Hr]; subst. clear H IH.
  assert (Hi : NoDup (map key (insert_by key x acc))).
  { apply nodup_insert_by. cbn [map]. constructor.
    - intros Hin. apply Hx. apply in_or_app. now right.
    - now apply NoDup_app_remove_l in Hr. }
  revert Hx Hr. generalize (map key l) as kl.
  induction kl as [|a kl IHk]; intros Hx Hr; [exact Hi|].
  cbn [app] in *. inversion Hr as [|? ? Ha Hr']; subst.
  constructor.
  - intros Hin. apply in_app_or in Hin as [Hin | Hin].
    + apply Ha. apply in_or_app. now left.
    + apply in_map_iff in Hin as (z & Ez & Hz).
      apply IndexFacts.in_insert_by in Hz as [-> | Hz].
      * apply Hx. now left.
      * apply Ha. apply in_or_app. right. rewrite <- Ez.
        now apply in_map.
  - apply IHk; [|exact Hr']. intros Hin. apply Hx. now right.
Qed.

Lemma nodup_sorted_by {A} (key : A -> str) (l : list A) :
  NoDup (map key l) -> NoDup (map key (sorted_by key l)).
Proof.
  intros H. apply nodup_fold_insert. now rewrite app_nil_r.
Qed.

End TreeOrderFacts.

(** X22.  The extensions of the index come by ascending key, each key
    once, and the submodules under an extension by ascending name. *)
Theorem X22_extension_tree_in_order (modules : list module) :
  StronglySorted (fun a b => PyStr.str_ltb (fst a) (fst b) = true)
                 (Index.sorted_parents (Index.organize modules))
  /\ Forall (fun e =>
               StronglySorted
                 (fun a b => PyStr.str_ltb (name b) (name a) = false)
                 (snd e))
            (Index.extension_tree modules).
Proof.
  split.
  - unfold Index.sorted_parents. apply TreeOrderFacts.sorted_strict.
    + apply TreeOrderFacts.nodup_sorted_by.
      apply (TreeOrderFacts.parents_keys modules (Index.Extensions [] [])).
      constructor.
    + apply TreeOrderFacts.sorted_by_sorted.
  - apply Forall_forall. intros [pm cs] H. unfold Index.extension_tree in H.
    apply in_map_iff in H as ([k pm'] & E & _). injection E as _ <-.
    cbn [snd]. apply TreeOrderFacts.sorted_by_sorted.
Qed.

(** ** The names that the paths give *)

Module PathNameFacts.
Import PyStr PyStrFacts Index IndexFacts Manifest.

(** A text without some character of the old text has no occurrence of
    it. *)
Lemma replace_absent (c : ascii) (old new s : str) :
  In c old -> ~ In c s -> replace old new s = s.
Proof.
  intros Hc. unfold replace. induction s as [|x s IH]; [reflexivity|].
  intros Hs. cbn [replace_go].
  destruct (startswith old (x :: s)) eqn:E.
  - exfalso. apply startswith_app in E as [t E]. apply Hs. rewrite E.
    apply in_or_app. now left.
  - rewrite IH; [reflexivity|]. intros H. apply Hs. now right.
Qed.

(** The replacement passes over a text without the first character of
    the old text. *)
Lemma replace_past (h : ascii) (old new u s : str) :
  ~ In h u ->
  replace (h :: old) new (u ++ s) = u ++ replace (h :: old) new s.
Proof.
  unfold replace. induction u as [|x u IH]; [reflexivity|].
  intros Hu. cbn [app replace_go startswith].
  destruct (Ascii.eqb_spec h x) as [->|Hx]; [exfalso; apply Hu; now left|].
  cbn [andb]. rewrite IH; [reflexivity|]. intros H. apply Hu. now right.
Qed.

(** Taking occurrences off brings no character. *)
Lemma replace_go_drops (c : ascii) (old s : str) :
  forall k, In c (replace_go old [] k s) -> In c s.
Proof.
  induction s as [|x s IH]; intros k; [intros []|].
  cbn [replace_go]. destruct k as [|k].
  - destruct (startswith old (x :: s)).
    + cbn [app]. intros H. right. eapply IH. exact H.
    + intros [-> | H]; [now left | right; eapply IH; exact H].
  - intros H. right. eapply IH. exact H.
Qed.

Lemma last_index_absent (c : ascii) (s : str) :
  forall n acc,
    ~ In c s ->
    fold_left (fun acc '(i, x) => if Ascii.eqb x c then Some i else acc)
              (combine (seq n (length s)) s) acc = acc.
Proof.
  induction s as [|x s IH]; intros n acc Hs; [reflexivity|].
  cbn [length seq combine fold_left].
  destruct (Ascii.eqb_spec x c) as [->|Hx]; [exfalso; apply Hs; now left|].
  apply IH. intros H. apply Hs. now right.
Qed.

Lemma last_index_found (c : ascii) (u v : str) :
  ~ In c v -> Parser.last_index c (u ++ c :: v) = Some (length u).
Proof.
  intros Hv. unfold Parser.last_index.
  assert (H : forall n acc,
            fold_left
              (fun acc '(i, x) => if Ascii.eqb x c then Some i else acc)
              (combine (seq n (length (u ++ c :: v))) (u ++ c :: v)) acc
            = Some (n + length u)).
  { induction u as [|x u IH]; intros n acc.
    - cbn [app length seq combine fold_left]. rewrite Ascii.eqb_refl.
      rewrite last_index_absent by exact Hv. f_equal. cbn. lia.
    - cbn [app length seq combine fold_left]. rewrite IH. f_equal.
      cbn [length]. lia. }
  now rewrite H.
Qed.

(** The stem of a plain file name with the suffix of the sources. *)
Lemma stem_plain (b : str) :
  b <> [] -> ~ In "."%char b -> ~ In "/"%char b ->
  Parser.stem (b ++ ".lua") = b.
Proof.
  intros Hb Hdot Hslash. unfold Parser.stem.
  rewrite split_clean.
  2:{ intros H. apply in_app_or in H as [H | H]; [contradiction|].
      cbn in H. intuition discriminate. }
  cbn [last].
  change (b ++ ".lua") with (b ++ "."%char :: ("lua" : str)).
  rewrite last_index_found by (cbn; intuition discriminate).
  rewrite length_app.
  change (length ("."%char :: ("lua" : str))) with 4.
  replace (0 <? length b) with true
    by (symmetry; apply Nat.ltb_lt; destruct b; [congruence | cbn; lia]).
  replace (length b <? length b + 4 - 1) with true
    by (symmetry; apply Nat.ltb_lt; lia).
  cbn [andb]. now apply TagFacts.firstn_length_app.
Qed.

(** The name of the module of a plain file of a directory. *)
Lemma name_plain (dir b content : str) :
  ~ In "."%char dir -> ~ In "."%char b -> ~ In "/"%char b ->
  name (Parser.parse_file (dir ++ b ++ ".lua") content)
  = replace "/" "." dir ++ b.
Proof.
  intros Hdir Hdot Hslash. cbn [Parser.parse_file name].
  rewrite app_assoc.
  change (list_ascii_of_string ".lua") with ("."%char :: ("lua" : str)).
  rewrite replace_past.
  2:{ intros H. apply in_app_or in H as [H | H]; contradiction. }
  change (replace ("."%char :: ("lua" : str)) [] ("."%char :: ("lua" : str)))
    with (@nil ascii).
  rewrite app_nil_r.
  change (list_ascii_of_string "/") with ["/"%char].
  rewrite ReplaceFacts.replace_char_app.
  now rewrite (ReplaceFacts.replace_char_absent "/" _ b).
Qed.

(** *** The commands of the manifest *)

Lemma commands_step (v : versions) (m : module) :
  startswith "tac/commands/" (path m) = true ->
  v_commands (categorize_step v m)
  = dict_set (replace "tac.commands." [] (name m)) (entry_of m)
             (v_commands v).
Proof.
  intros H. unfold categorize_step. rewrite H.
  apply startswith_app in H as [t ->].
  change (startswith "tac/core/" ("tac/commands/" ++ t)) with false.
  change (startswith "tac/lib/" ("tac/commands/" ++ t)) with false.
  reflexivity.
Qed.

Lemma commands_step_other (v : versions) (m : module) :
  startswith "tac/commands/" (path m) = false ->
  v_commands (categorize_step v m) = v_commands v.
Proof.
  intros H. unfold categorize_step. rewrite H.
  destruct (startswith "tac/core/" (path m)); [reflexivity|].
  destruct (startswith "tac/lib/" (path m)); [reflexivity|].
  destruct (startswith "tac/extensions/" (path m)); [|reflexivity].
  now destruct (negb _).
Qed.

(** An entry of the commands after the loop is the entry of a module
    under the commands directory, or was there before. *)
Lemma commands_fold (ms : list module) (v : versions) (k : str) (e : entry) :
  dict_get k (v_commands (fold_left categorize_step ms v)) = Some e ->
  dict_get k (v_commands v) = Some e
  \/ exists m, In m ms /\ startswith "tac/commands/" (path m) = true
               /\ e = entry_of m.
Proof.
  revert v; induction ms as [|m ms IH]; intros v; [now left|].
  cbn [fold_left]. intros H. apply IH in H as [H | (m' & Hin & Ht & He)].
  - destruct (startswith "tac/commands/" (path m)) eqn:Hc.
    + rewrite commands_step in H by exact Hc.
      destruct (list_eq_dec ascii_dec k
                  (replace "tac.commands." [] (name m))) as [->|Hne].
      * rewrite dict_get_set_same in H. injection H as <-. right.
        exists m. repeat split; auto. now left.
      * rewrite dict_get_set_other in H by exact Hne. now left.
    + rewrite commands_step_other in H by exact Hc. now left.
  - right. exists m'. repeat split; auto. now right.
Qed.

(** A module under the commands directory has an entry under its key
    after the loop. *)
Lemma commands_has (ms : list module) (v : versions) (m : module) :
  In m ms -> startswith "tac/commands/" (path m) = true ->
  dict_has (replace "tac.commands." [] (name m))
           (v_commands (fold_left categorize_step ms v)) = true.
Proof.
  assert (Hkeep : forall ms v k,
            dict_has k (v_commands v) = true ->
            dict_has k (v_commands (fold_left categorize_step ms v)) = true).
  { clear. induction ms as [|m ms IH]; intros v k H; [exact H|].
    cbn [fold_left]. apply IH.
    destruct (startswith "tac/commands/" (path m)) eqn:Hc.
    - rewrite commands_step by exact Hc.
      apply ManifestFacts.dict_has_get.
      apply ManifestFacts.dict_has_get in H as [e He].
      destruct (list_eq_dec ascii_dec k
                  (replace "tac.commands." [] (name m))) as [->|Hne].
      + rewrite dict_get_set_same. eauto.
      + rewrite dict_get_set_other by exact Hne. eauto.
    - now rewrite commands_step_other by exact Hc. }
  revert v; induction ms as [|m' ms IH]; intros v; [intros []|].
  cbn [fold_left]. intros [-> | Hin] Ht; [|now apply IH].
  apply Hkeep. rewrite commands_step by exact Ht.
  apply ManifestFacts.dict_has_get. rewrite dict_get_set_same. eauto.
Qed.

End PathNameFacts.

(** X23.  A command file that was parsed is not entered a second time by
    the scan of the directory: for a plain file name b.lua (b without
    dot or slash) the stem is b, which is also the key that the module
    of tac/commands/b.lua gets, so that after the scan the entry under
    b is still the one of a parsed module under the commands
    directory. *)
Theorem X23_parsed_command_not_rescanned (modules : list module)
  (command_files : list str) (b content : str) :
  b <> [] -> ~ In "."%char b -> ~ In "/"%char b ->
  In (Parser.parse_file ("tac/commands/" ++ b ++ ".lua") content) modules ->
  Parser.stem (b ++ ".lua") = b
  /\ PyStr.replace "tac.commands." []
       (name (Parser.parse_file ("tac/commands/" ++ b ++ ".lua") content))
     = b
  /\ exists m, In m modules
               /\ PyStr.startswith "tac/commands/" (path m) = true
               /\ Index.dict_get (Parser.stem (b ++ ".lua"))
                    (Manifest.v_commands
                       (Manifest.versions_of modules command_files))
                  = Some (Manifest.entry_of m).
Proof.
  intros Hb Hdot Hslash Hin.
  assert (Hstem : Parser.stem (b ++ ".lua") = b)
    by now apply PathNameFacts.stem_plain.
  assert (Hkey : PyStr.replace "tac.commands." []
                   (name (Parser.parse_file ("tac/commands/" ++ b ++ ".lua")
                            content)) = b).
  { rewrite PathNameFacts.name_plain; auto.
    - change (PyStr.replace "/" "." "tac/commands/" ++ b)
        with ("tac.commands." ++ b).
      change (PyStr.replace "tac.commands." [] ("tac.commands." ++ b))
        with (PyStr.replace "tac.commands." [] b).
      apply (PathNameFacts.replace_absent "."); [|exact Hdot].
      cbn. tauto.
    - cbn. intuition discriminate. }
  split; [exact Hstem|]. split; [exact Hkey|].
  rewrite Hstem. cbn [Manifest.versions_of Manifest.v_commands].
  pose proof (PathNameFacts.commands_has modules (Manifest.initial modules)
                _ Hin (PyStrFacts.startswith_prefix _ _)) as Hhas.
  rewrite Hkey in Hhas.
  apply ManifestFacts.dict_has_get in Hhas as [e He].
  fold (Manifest.categorized modules) in He.
  pose proof He as Horigin. unfold Manifest.categorized in Horigin.
  apply PathNameFacts.commands_fold in Horigin
    as [Horigin | (m & Hm & Hp & ->)]; [discriminate|].
  exists m. split; [exact Hm|]. split; [exact Hp|].
  now apply ManifestFacts.scan_keeps.
Qed.

Lemma X23_witness :
  Parser.stem (("x" : str) ++ ".lua") = ("x" : str)
  /\ PyStr.replace "tac.commands." []
       (name (Parser.parse_file ("tac/commands/" ++ ("x" : str) ++ ".lua")
                Sample.documented_source))
     = ("x" : str)
  /\ exists m,
       In m [Parser.parse_file ("tac/commands/" ++ ("x" : str) ++ ".lua")
               Sample.documented_source]
       /\ PyStr.startswith "tac/commands/" (path m) = true
       /\ Index.dict_get (Parser.stem (("x" : str) ++ ".lua"))
            (Manifest.v_commands
               (Manifest.versions_of
                  [Parser.parse_file
                     ("tac/commands/" ++ ("x" : str) ++ ".lua")
                     Sample.documented_source]
                  [("x.lua" : str)]))
          = Some (Manifest.entry_of m).
Proof.
  apply (X23_parsed_command_not_rescanned
           [Parser.parse_file ("tac/commands/" ++ ("x" : str) ++ ".lua")
              Sample.documented_source]
           [("x.lua" : str)] "x" Sample.documented_source).
  - discriminate.
  - cbn. intuition discriminate.
  - cbn. intuition discriminate.
  - now left.
Defined.

(** X24.  For the modules that [generate] hands to the index, every
    extension is filed under its own name: the key made from the file
    name is the name of the module, so that the extensions come in the
    order of their names. *)
Theorem X24_extension_key_is_module_name (files : list (str * option str)) :
  Forall (fun it => fst it = name (snd it))
         (Index.extension_parents
            (Index.organize (Generate.modules_of files))).
Proof.
  destruct (IndexFacts.organized_organize (Generate.modules_of files))
    as (HP & _).
  eapply Forall_impl; [|exact HP]. intros [k pm] (P & Hp & HnP & Hk & Hin).
  cbn [fst snd] in *.
  apply GenerateFacts.in_modules_of in Hin as (p & c & _ & _ & -> & _).
  cbn [Parser.parse_file path name] in *. subst p k.
  rewrite ManifestFacts.extension_dir.
  change (list_ascii_of_string "/") with ["/"%char].
  rewrite ReplaceFacts.replace_char_app. f_equal.
  symmetry. apply ReplaceFacts.replace_char_absent.
  intros H. apply HnP. eapply PathNameFacts.replace_go_drops. exact H.
Qed.
